(** * The KBFS block put/get pipeline

    A shallow embedding of the block-storage core of libkbfs:

    - [putBlockToServer], [PutBlockCheckQuota], [doOneBlockPut] and the
      parallel orchestrator [doBlockPuts];
    - the bandwidth throttle [BlockOpsConstrained];
    - the stall-injection wrappers [stallingBlockOps] and [stallingMDOps];
    - [assembleBlock].

    Go values are modelled as the code has them: an [error] is a nilable
    interface value ([option Err]), [int] is a machine integer whose
    wrap-around is written out, byte slices are lists of bytes, and calls
    that leave the program (block server, reporter, block cache, key
    service, callbacks, channels shared with a test) are transformers of an
    abstract [World] whose invocations are recorded in a trace. *)

From Stdlib Require Import ZArith String List Lia Bool Permutation.
From Stdlib.Strings Require Import Byte.
From stdpp Require Import prelude strings gmap.
From AAC_tactics Require Import AAC.
From AAC_tactics Require Instances.

Open Scope Z_scope.

(** ** Plain data *)

Definition bytes := list byte.

#[global] Instance byte_eq_decision : EqDecision byte := byte_eq_dec.

Module tlf.
(** [tlf.ID]: the identity of a top-level folder, a byte string. *)
Definition ID := bytes.
End tlf.

Module kbfsblock.
(** [kbfsblock.ID] is a content hash; [kbfsblock.RefNonce] is [[8]byte]. *)
Definition ID := bytes.
Definition RefNonce := bytes.
Definition ZeroRefNonce : RefNonce := replicate 8 x00.

(** [kbfsblock.Context]: of its fields this code reads [RefNonce] only;
    the others travel along unread. *)
Record Context := mkContext {
  RefNonce_ : RefNonce;
  Rest : string
}.
End kbfsblock.

#[global] Instance Context_eq_decision : EqDecision kbfsblock.Context.
Proof. solve_decision. Defined.

(** [BlockPointer] embeds the block context, so [blockPtr.RefNonce] is the
    context's nonce. *)
Record BlockPointer := mkBlockPointer {
  ID : kbfsblock.ID; Context : kbfsblock.Context
}.

Definition RefNonce (p : BlockPointer) : kbfsblock.RefNonce :=
  kbfsblock.RefNonce_ (Context p).

#[global] Instance BlockPointer_eq_decision : EqDecision BlockPointer.
Proof. solve_decision. Defined.

Record ReadyBlockData := mkReadyBlockData {
  buf : bytes;
  serverHalf : bytes
}.

Definition CanonicalTlfName := string.

Inductive ErrorModeType := ReadMode | WriteMode.

(** The dynamic types an [error] value can have here.  The type switches
    of the source ([err.(kbfsblock.BServerErrorBlockArchived)], ...) become
    matches on the constructor. *)
Inductive Err :=
| BServerErrorBlockArchived (Msg : string)
| BServerErrorBlockDeleted (Msg : string)
| BServerErrorBlockNonExistent (Msg : string)
| BServerErrorMaxRefExceeded (Msg : string)
| BServerErrorOverQuota (Msg : string) (Usage Limit : Z) (Throttled : bool)
| OverQuotaWarning (Usage Limit : Z)
| Canceled
| DeadlineExceeded
| IntegrityViolationError (expected actual : kbfsblock.ID)
| OtherError (Msg : string).

#[global] Instance Err_eq_decision : EqDecision Err.
Proof. solve_decision. Defined.

(** A Go [error]: [None] is [nil]. *)
Abbreviation error := (option Err).

(** ** Contexts

    A [context.Context] is either one the caller made, named by a handle
    whose cancellation state and values live in the world, or the child
    that [errgroup.WithContext] derives from it, which carries whether the
    group's cancel function has run. *)
Module context.
Inductive Context :=
| Base (handle : nat)
| WithCancel (parent : Context) (canceled : bool).

(** Values stored in a context are [interface{}]: [None] is [nil]. *)
Definition Value_t := option nat.

Section Ops.
Context {World : Type}.
(** What the world says of a caller-made context. *)
Variable baseErr : nat → World → error.
Variable baseValue : nat → Value_t → Value_t.

Fixpoint Err (ctx : Context) (w : World) : error :=
  match ctx with
  | Base h => baseErr h w
  | WithCancel p c =>
      match Err p w with
      | Some e => Some e
      | None => if c then Some Canceled else None
      end
  end.

(** [<-ctx.Done()] is ready exactly when [ctx.Err()] is not nil. *)
Definition Done (ctx : Context) (w : World) : bool :=
  bool_decide (Err ctx w ≠ None).

Fixpoint Value (ctx : Context) (key : Value_t) : Value_t :=
  match ctx with
  | Base h => baseValue h key
  | WithCancel p _ => Value p key
  end.
End Ops.
End context.

(** ** Blocks as the put path sees them

    A [Block] is an interface holding a pointer; the put path looks at its
    dynamic type, at pointer identity, and at [IsInd] of a [*FileBlock]. *)
Definition ptr := nat.

Inductive Block :=
| FileBlockPtr (p : ptr)
| DirBlockPtr (p : ptr)
| CommonBlockPtr (p : ptr).

#[global] Instance Block_eq_decision : EqDecision Block.
Proof. solve_decision. Defined.

(** ** Trace of calls that leave the program *)
Inductive event :=
| EvBServerPut (ctx : context.Context) (tlfID : tlf.ID) (id : kbfsblock.ID)
    (bctx : kbfsblock.Context) (buf serverHalf : bytes)
| EvBServerAddBlockReference (ctx : context.Context) (tlfID : tlf.ID)
    (id : kbfsblock.ID) (bctx : kbfsblock.Context)
| EvReportErr (ctx : context.Context) (tlfName : CanonicalTlfName)
    (public : bool) (mode : ErrorModeType) (err : Err)
| EvSyncedCb (blockPtr : BlockPointer)
| EvDeleteKnownPtr (tlfID : tlf.ID) (fblock : ptr)
| EvDeleteTransient (blockPtr : BlockPointer) (tlfID : tlf.ID)
| EvCWarningf (ctx : context.Context) (format : string) (err : Err)
| EvLock
| EvUnlock
| EvSleep (d : Z)
| EvStalled (ch : nat)
| EvUnstall (ch : nat)
| EvGetTLFCryptKeyForBlockDecryption (ctx : context.Context)
    (blockPtr : BlockPointer)
| EvDecode (buf : bytes)
| EvDecryptBlock.

(** ** The monad of the embedding

    State is the world and the trace.  A computation returns, panics (a Go
    run-time panic) or blocks for ever (a receive nobody answers). *)
Section Monad.
Context {World : Type}.

Record Env := mkEnv { world : World; trace : list event }.

Inductive outcome (A : Type) :=
| Ret (a : A) (e : Env)
| Panic (msg : string)
| Blocked.
#[global] Arguments Ret {A} a e.
#[global] Arguments Panic {A} msg.
#[global] Arguments Blocked {A}.

Definition M (A : Type) := Env → outcome A.

#[global] Instance M_ret : MRet M := λ A a e, Ret a e.

#[global] Instance M_bind : MBind M := λ A B k m e,
  match m e with
  | Ret a e' => k a e'
  | Panic msg => Panic msg
  | Blocked => Blocked
  end.

Definition panic {A} (msg : string) : M A := λ _, Panic msg.

Definition blocked {A} : M A := λ _, Blocked.

Definition emit (ev : event) : M unit :=
  λ e, Ret tt {| world := world e; trace := trace e ++ [ev] |}.

(** A call out of the program: recorded, then answered by the world. *)
Definition extern {A} (ev : event) (f : World → A * World) : M A :=
  λ e, let '(a, w) := f (world e) in
       Ret a {| world := w; trace := trace e ++ [ev] |}.

(** Reading the world without a call (a context's state). *)
Definition observe {A} (f : World → A) : M A := λ e, Ret (f (world e)) e.
End Monad.

#[global] Arguments Env : clear implicits.
#[global] Arguments M : clear implicits.
#[global] Arguments outcome : clear implicits.

(** ** Collaborators of the put path

    The interfaces the put path calls.  An implementation answers from the
    world and may change it; the method wrappers below record the call. *)
Section Collaborators.
Context {World : Type}.

Record BlockServer := mkBlockServer {
  bserver_Put : context.Context → tlf.ID → kbfsblock.ID → kbfsblock.Context →
                bytes → bytes → World → error * World;
  bserver_AddBlockReference : context.Context → tlf.ID → kbfsblock.ID →
                kbfsblock.Context → World → error * World
}.

Record Reporter := mkReporter {
  reporter_ReportErr : context.Context → CanonicalTlfName → bool →
                ErrorModeType → Err → World → World
}.

Record BlockCache := mkBlockCache {
  bcache_DeleteKnownPtr : tlf.ID → ptr → World → error * World;
  bcache_DeleteTransient : BlockPointer → tlf.ID → World → error * World
}.

(** [blockState]: [syncedCb] is a [func() error], nil when absent. *)
Record blockState := mkBlockState {
  blockPtr : BlockPointer;
  block : Block;
  readyBlockData : ReadyBlockData;
  syncedCb : option (World → error * World)
}.

Record blockPutState := mkBlockPutState {
  blockStates : list blockState
}.
End Collaborators.

#[global] Arguments BlockServer : clear implicits.
#[global] Arguments Reporter : clear implicits.
#[global] Arguments BlockCache : clear implicits.
#[global] Arguments blockState : clear implicits.
#[global] Arguments blockPutState : clear implicits.

(** ** The put path: [putBlockToServer], [PutBlockCheckQuota],
    [doOneBlockPut] *)
Section PutPath.
Context {World : Type}.
(** [tlf.ID.IsPublic] lives in package [tlf]; its result is only handed
    on to the reporter. *)
Variable IsPublic : tlf.ID → bool.
(** [fblock.IsInd], read through a [*FileBlock]. *)
Variable IsInd : ptr → bool.

Definition BlockServer_Put (bserv : BlockServer World) ctx tlfID id bctx
    (buf serverHalf : bytes) : M World error :=
  extern (EvBServerPut ctx tlfID id bctx buf serverHalf)
         (bserver_Put bserv ctx tlfID id bctx buf serverHalf).

Definition BlockServer_AddBlockReference (bserv : BlockServer World) ctx
    tlfID id bctx : M World error :=
  extern (EvBServerAddBlockReference ctx tlfID id bctx)
         (bserver_AddBlockReference bserv ctx tlfID id bctx).

Definition Reporter_ReportErr (reporter : Reporter World) ctx tlfName
    (public : bool) mode (err : Err) : M World unit :=
  extern (EvReportErr ctx tlfName public mode err)
         (λ w, (tt, reporter_ReportErr reporter ctx tlfName public mode err w)).

Definition isRecoverableBlockError (err : error) : bool :=
  let isArchiveError :=
    match err with Some (BServerErrorBlockArchived _) => true | _ => false end in
  let isDeleteError :=
    match err with Some (BServerErrorBlockDeleted _) => true | _ => false end in
  let isRefError :=
    match err with Some (BServerErrorBlockNonExistent _) => true | _ => false end in
  let isMaxExceededError :=
    match err with Some (BServerErrorMaxRefExceeded _) => true | _ => false end in
  isArchiveError || isDeleteError || isRefError || isMaxExceededError.

Definition putBlockToServer (ctx : context.Context) (bserv : BlockServer World)
    (tlfID : tlf.ID) (blockPtr : BlockPointer)
    (readyBlockData : ReadyBlockData) : M World error :=
  if decide (RefNonce blockPtr = kbfsblock.ZeroRefNonce) then
    BlockServer_Put bserv ctx tlfID (ID blockPtr) (Context blockPtr)
      (buf readyBlockData) (serverHalf readyBlockData)
  else
    BlockServer_AddBlockReference bserv ctx tlfID (ID blockPtr)
      (Context blockPtr).

Definition PutBlockCheckQuota (ctx : context.Context)
    (bserv : BlockServer World) (reporter : Reporter World) (tlfID : tlf.ID)
    (blockPtr : BlockPointer) (readyBlockData : ReadyBlockData)
    (tlfName : CanonicalTlfName) : M World error :=
  err ← putBlockToServer ctx bserv tlfID blockPtr readyBlockData;
  match err with
  | Some (BServerErrorOverQuota _ Usage Limit false) =>
      Reporter_ReportErr reporter ctx tlfName (IsPublic tlfID) WriteMode
        (OverQuotaWarning Usage Limit);;
      mret None
  | _ => mret err
  end.

(** A buffered channel of [*FileBlock]: its queue and its capacity. *)
Record chan := mkChan { queue : list ptr; cap : nat }.

(** [ch <- x] with nobody receiving: proceeds while there is room. *)
Definition chan_send (ch : chan) (x : ptr) : M World chan :=
  if decide (length (queue ch) < cap ch)%nat
  then mret {| queue := queue ch ++ [x]; cap := cap ch |}
  else blocked.

(** What [doOneBlockPut] does once [err] is known: the block it sends on
    [blocksToRemoveChan], if any. *)
Definition blockToRemove (bs : blockState World) (err : error) : option ptr :=
  if bool_decide (err ≠ None) && isRecoverableBlockError err then
    match block bs with
    | FileBlockPtr fblock => if negb (IsInd fblock) then Some fblock else None
    | _ => None
    end
  else None.

(** [doOneBlockPut], run on its own; the channel is passed and returned. *)
Definition doOneBlockPut (ctx : context.Context) (bserv : BlockServer World)
    (reporter : Reporter World) (tlfID : tlf.ID) (tlfName : CanonicalTlfName)
    (bs : blockState World) (blocksToRemoveChan : chan)
    : M World (error * chan) :=
  err ← PutBlockCheckQuota ctx bserv reporter tlfID (blockPtr bs)
          (readyBlockData bs) tlfName;
  err ← match err, syncedCb bs with
        | None, Some cb => extern (EvSyncedCb (blockPtr bs)) cb
        | _, _ => mret err
        end;
  ch ← match blockToRemove bs err with
       | Some fblock => chan_send blocksToRemoveChan fblock
       | None => mret blocksToRemoveChan
       end;
  mret (err, ch).

End PutPath.

(** ** Go machine integers

    [int] is 32 or 64 bits wide, depending on the platform; arithmetic
    wraps around, division truncates towards zero and panics on a zero
    divisor. *)
Module goint.
Definition wrap (bits x : Z) : Z :=
  (x + 2 ^ (bits - 1)) mod 2 ^ bits - 2 ^ (bits - 1).

Definition mul (bits x y : Z) : Z := wrap bits (x * y).

Definition quot (bits x y : Z) : option Z :=
  if decide (y = 0) then None else Some (wrap bits (Z.quot x y)).

(** [uint32(x)] *)
Definition uint32 (x : Z) : Z := x mod 2 ^ 32.
End goint.

Module time.
(** [time.Second], a [time.Duration] counted in nanoseconds. *)
Definition Second : Z := 1000000000.
End time.

(** ** Polling a context

    [select { case <-ctx.Done(): return ctx.Err(); default: }]: the result
    is [Some (ctx.Err())] when the first branch is taken and the function
    returns, [None] when control falls through. *)
Section Select.
Context {World : Type}.
Variable baseErr : nat → World → error.

Definition ctxDone (ctx : context.Context) : M World (option error) :=
  done ← observe (context.Done baseErr ctx);
  if (done : bool) then err ← observe (context.Err baseErr ctx); mret (Some err)
  else mret None.
End Select.

(** ** The [BlockOps] interface *)
Section BlockOpsInterface.
Context {World : Type}.

(** [md *RootMetadata] is a pointer that the wrappers only hand on. *)
Definition RootMetadata := ptr.

Class BlockOps (T : Type) := mkBlockOps {
  BlockOps_Get : T → context.Context → RootMetadata → BlockPointer → Block →
                 M World error;
  BlockOps_Ready : T → context.Context → RootMetadata → Block →
                 M World (kbfsblock.ID * Z * ReadyBlockData * error);
  BlockOps_Put : T → context.Context → RootMetadata → BlockPointer →
                 ReadyBlockData → M World error;
  BlockOps_Delete : T → context.Context → RootMetadata → list BlockPointer →
                 M World (list (kbfsblock.ID * Z) * error);
  BlockOps_Archive : T → context.Context → RootMetadata → list BlockPointer →
                 M World error
}.
End BlockOpsInterface.

#[global] Arguments BlockOps : clear implicits.

(** ** The bandwidth throttle, [BlockOpsConstrained] *)
Module BlockOpsConstrained.
Section Throttle.
Context {World : Type}.
(** Width of [int] on the platform. *)
Variable intBits : Z.
(** How the world answers for a caller-made context. *)
Variable baseErr : nat → World → error.
(** What [time.Sleep] does to the world: time passes. *)
Variable Sleep : Z → World → World.
Context {D : Type} `{!BlockOps World D}.

(** The struct embeds its delegate; [lock] is the mutex, seen here through
    its [Lock] and [Unlock] calls in the trace. *)
Record t := mk {
  IFCERFTBlockOps : D;
  bwKBps : Z
}.

Definition NewBlockOpsConstrained (delegate : D) (bwKBps : Z) : t :=
  {| IFCERFTBlockOps := delegate; bwKBps := bwKBps |}.

Definition time_Sleep (d : Z) : M World unit :=
  extern (EvSleep d) (λ w, (tt, Sleep d w)).

(** The deferred [Unlock] is the last thing [delay] does on each return
    past [Lock]; a panic in between leaves through [Panic]. *)
Definition delay (b : t) (ctx : context.Context) (size : Z) : M World error :=
  if decide (bwKBps b ≤ 0) then mret None
  else
    emit EvLock;;
    r ← match goint.quot intBits
                (goint.mul intBits size (goint.wrap intBits time.Second))
                (goint.mul intBits (bwKBps b) 1024) with
        | None => panic "runtime error: integer divide by zero"
        | Some delay =>
            time_Sleep delay;;
            c ← ctxDone baseErr ctx;
            match c with
            | Some err => mret err
            | None => mret None
            end
        end;
    emit EvUnlock;;
    mret r.

Definition Put (b : t) (ctx : context.Context) (md : RootMetadata)
    (blockPtr : BlockPointer) (readyBlockData : ReadyBlockData)
    : M World error :=
  err ← delay b ctx (Z.of_nat (length (buf readyBlockData)));
  match err with
  | Some e => mret (Some e)
  | None => BlockOps_Put (IFCERFTBlockOps b) ctx md blockPtr readyBlockData
  end.

(** Every other method is promoted from the embedded delegate. *)
#[global] Instance BlockOpsConstrained_BlockOps : BlockOps World t := {|
  BlockOps_Get b := BlockOps_Get (IFCERFTBlockOps b);
  BlockOps_Ready b := BlockOps_Ready (IFCERFTBlockOps b);
  BlockOps_Put := Put;
  BlockOps_Delete b := BlockOps_Delete (IFCERFTBlockOps b);
  BlockOps_Archive b := BlockOps_Archive (IFCERFTBlockOps b)
|}.
End Throttle.
End BlockOpsConstrained.

(** ** The stall-injection harness *)
Definition stallableOp := string.
Definition StallableBlockOp := stallableOp.
Definition StallableMDOp := stallableOp.

Definition StallableBlockGet : StallableBlockOp := "Get".
Definition StallableBlockReady : StallableBlockOp := "Ready".
Definition StallableBlockPut : StallableBlockOp := "Put".
Definition StallableBlockDelete : StallableBlockOp := "Delete".
Definition StallableBlockArchive : StallableBlockOp := "Archive".

Definition StallableMDGetForHandle : StallableMDOp := "GetForHandle".
Definition StallableMDGetUnmergedForHandle : StallableMDOp :=
  "GetUnmergedForHandle".
Definition StallableMDGetForTLF : StallableMDOp := "GetForTLF".
Definition StallableMDGetLatestHandleForTLF : StallableMDOp :=
  "GetLatestHandleForTLF".
Definition StallableMDGetUnmergedForTLF : StallableMDOp := "GetUnmergedForTLF".
Definition StallableMDGetRange : StallableMDOp := "GetRange".
Definition StallableMDGetUnmergedRange : StallableMDOp := "GetUnmergedRange".
Definition StallableMDPut : StallableMDOp := "Put".
Definition StallableMDAfterPut : StallableMDOp := "AfterPut".
Definition StallableMDPutUnmerged : StallableMDOp := "PutUnmerged".

(** [staller]: a pair of channels shared with the test, named by handles. *)
Record staller := mkStaller {
  stalled : nat;
  unstall : nat
}.

(** The [MDOps] interface.  Handles and metadata objects are pointers;
    [TlfID] is the folder identity, [BranchID] a byte string and
    [MetadataRevision] an integer. *)
Section MDOpsInterface.
Context {World : Type}.
Context {BareTlfHandle : Type}.

Definition TlfHandle := ptr.
Definition BranchID := bytes.
Definition MetadataRevision := Z.

Class MDOps (T : Type) := mkMDOps {
  MDOps_GetForHandle : T → context.Context → TlfHandle →
      M World (option RootMetadata * error);
  MDOps_GetUnmergedForHandle : T → context.Context → TlfHandle →
      M World (option RootMetadata * error);
  MDOps_GetForTLF : T → context.Context → tlf.ID →
      M World (option RootMetadata * error);
  MDOps_GetLatestHandleForTLF : T → context.Context → tlf.ID →
      M World (BareTlfHandle * error);
  MDOps_GetUnmergedForTLF : T → context.Context → tlf.ID → BranchID →
      M World (option RootMetadata * error);
  MDOps_GetRange : T → context.Context → tlf.ID → MetadataRevision →
      MetadataRevision → M World (list RootMetadata * error);
  MDOps_GetUnmergedRange : T → context.Context → tlf.ID → BranchID →
      MetadataRevision → MetadataRevision → M World (list RootMetadata * error);
  MDOps_Put : T → context.Context → RootMetadata → M World error;
  MDOps_PutUnmerged : T → context.Context → RootMetadata → BranchID →
      M World error
}.
End MDOpsInterface.

#[global] Arguments MDOps : clear implicits.

Section Stall.
Context {World : Type}.
Variable baseErr : nat → World → error.
Variable baseValue : nat → context.Value_t → context.Value_t.
(** The test's end of the channels: whether a non-blocking send on a
    channel goes through, and whether a receive is ever answered ([None]:
    the receive blocks for ever). *)
Variable trySend : nat → World → bool * World.
Variable recv : nat → World → option World.

(** [select { case ch <- struct{}{}: default: }] *)
Definition chan_trySend (ch : nat) : M World unit :=
  λ e, let '(ok, w) := trySend ch (world e) in
       Ret tt {| world := w;
                 trace := trace e ++ (if (ok : bool) then [EvStalled ch] else []) |}.

(** [<-ch] *)
Definition chan_recv (ch : nat) : M World unit :=
  λ e, match recv ch (world e) with
       | Some w => Ret tt {| world := w; trace := trace e ++ [EvUnstall ch] |}
       | None => Blocked
       end.

Definition maybeStall (ctx : context.Context) (opName : stallableOp)
    (stallOpName : stallableOp) (stallKey : context.Value_t)
    (stallMap : gmap context.Value_t staller) : M World unit :=
  if decide (opName ≠ stallOpName) then mret tt
  else
    let v := context.Value baseValue ctx stallKey in
    match stallMap !! v with
    | None => mret tt
    | Some chans =>
        chan_trySend (stalled chans);;
        chan_recv (unstall chans)
    end.

End Stall.

Module stallingBlockOps.
Section Impl.
Context {World : Type}.
Variable baseErr : nat → World → error.
Variable baseValue : nat → context.Value_t → context.Value_t.
Variable trySend : nat → World → bool * World.
Variable recv : nat → World → option World.
Context {D : Type} `{!BlockOps World D}.

(** [lock] only guards [internalDelegate]. *)
Record t := mk {
  stallOpName : StallableBlockOp;
  stallKey : context.Value_t;
  stallMap : gmap context.Value_t staller;
  internalDelegate : D
}.

Definition delegate (f : t) : D := internalDelegate f.

Definition setDelegate (f : t) (bops : D) : t :=
  {| stallOpName := stallOpName f; stallKey := stallKey f;
     stallMap := stallMap f; internalDelegate := bops |}.

Definition maybeStall_ (f : t) (ctx : context.Context)
    (opName : StallableBlockOp) : M World unit :=
  maybeStall baseValue trySend recv ctx opName (stallOpName f) (stallKey f)
    (stallMap f).

Definition Get (f : t) ctx md blockPtr block : M World error :=
  maybeStall_ f ctx StallableBlockGet;;
  BlockOps_Get (delegate f) ctx md blockPtr block.

Definition Ready (f : t) ctx md block
    : M World (kbfsblock.ID * Z * ReadyBlockData * error) :=
  maybeStall_ f ctx StallableBlockReady;;
  BlockOps_Ready (delegate f) ctx md block.

Definition Put (f : t) ctx md blockPtr readyBlockData : M World error :=
  maybeStall_ f ctx StallableBlockPut;;
  c ← ctxDone baseErr ctx;
  match c with
  | Some cerr => mret cerr
  | None =>
      err ← BlockOps_Put (delegate f) ctx md blockPtr readyBlockData;
      c ← ctxDone baseErr ctx;
      match c with
      | Some cerr => mret cerr
      | None => mret err
      end
  end.

Definition Delete (f : t) ctx md ptrs
    : M World (list (kbfsblock.ID * Z) * error) :=
  maybeStall_ f ctx StallableBlockDelete;;
  BlockOps_Delete (delegate f) ctx md ptrs.

Definition Archive (f : t) ctx md ptrs : M World error :=
  maybeStall_ f ctx StallableBlockArchive;;
  BlockOps_Archive (delegate f) ctx md ptrs.

#[global] Instance stallingBlockOps_BlockOps : BlockOps World t := {|
  BlockOps_Get := Get;
  BlockOps_Ready := Ready;
  BlockOps_Put := Put;
  BlockOps_Delete := Delete;
  BlockOps_Archive := Archive
|}.
End Impl.
End stallingBlockOps.

Module stallingMDOps.
Section Impl.
Context {World : Type}.
Context {BareTlfHandle : Type}.
Variable baseErr : nat → World → error.
Variable baseValue : nat → context.Value_t → context.Value_t.
Variable trySend : nat → World → bool * World.
Variable recv : nat → World → option World.
Context {D : Type} `{!@MDOps World BareTlfHandle D}.

Record t := mk {
  stallOpName : StallableMDOp;
  stallKey : context.Value_t;
  stallMap : gmap context.Value_t staller;
  delegate : D
}.

Definition maybeStall_ (m : t) (ctx : context.Context)
    (opName : StallableMDOp) : M World unit :=
  maybeStall baseValue trySend recv ctx opName (stallOpName m) (stallKey m)
    (stallMap m).

Definition GetForHandle (m : t) ctx handle :=
  maybeStall_ m ctx StallableMDGetForHandle;;
  MDOps_GetForHandle (delegate m) ctx handle.

Definition GetUnmergedForHandle (m : t) ctx handle :=
  maybeStall_ m ctx StallableMDGetUnmergedForHandle;;
  MDOps_GetUnmergedForHandle (delegate m) ctx handle.

Definition GetForTLF (m : t) ctx id :=
  maybeStall_ m ctx StallableMDGetForTLF;;
  MDOps_GetForTLF (delegate m) ctx id.

Definition GetLatestHandleForTLF (m : t) ctx id :=
  maybeStall_ m ctx StallableMDGetLatestHandleForTLF;;
  MDOps_GetLatestHandleForTLF (delegate m) ctx id.

Definition GetUnmergedForTLF (m : t) ctx id bid :=
  maybeStall_ m ctx StallableMDGetUnmergedForTLF;;
  MDOps_GetUnmergedForTLF (delegate m) ctx id bid.

Definition GetRange (m : t) ctx id start stop :=
  maybeStall_ m ctx StallableMDGetRange;;
  MDOps_GetRange (delegate m) ctx id start stop.

Definition GetUnmergedRange (m : t) ctx id bid start stop :=
  maybeStall_ m ctx StallableMDGetUnmergedRange;;
  MDOps_GetUnmergedRange (delegate m) ctx id bid start stop.

Definition Put (m : t) ctx md : M World error :=
  maybeStall_ m ctx StallableMDPut;;
  c ← ctxDone baseErr ctx;
  match c with
  | Some cerr => mret cerr
  | None =>
      err ← MDOps_Put (delegate m) ctx md;
      maybeStall_ m ctx StallableMDAfterPut;;
      c ← ctxDone baseErr ctx;
      match c with
      | Some cerr => mret cerr
      | None => mret err
      end
  end.

Definition PutUnmerged (m : t) ctx md bid : M World error :=
  maybeStall_ m ctx StallableMDPutUnmerged;;
  c ← ctxDone baseErr ctx;
  match c with
  | Some cerr => mret cerr
  | None =>
      err ← MDOps_PutUnmerged (delegate m) ctx md bid;
      c ← ctxDone baseErr ctx;
      match c with
      | Some cerr => mret cerr
      | None => mret err
      end
  end.

#[global] Instance stallingMDOps_MDOps : @MDOps World BareTlfHandle t := {|
  MDOps_GetForHandle := GetForHandle;
  MDOps_GetUnmergedForHandle := GetUnmergedForHandle;
  MDOps_GetForTLF := GetForTLF;
  MDOps_GetLatestHandleForTLF := GetLatestHandleForTLF;
  MDOps_GetUnmergedForTLF := GetUnmergedForTLF;
  MDOps_GetRange := GetRange;
  MDOps_GetUnmergedRange := GetUnmergedRange;
  MDOps_Put := Put;
  MDOps_PutUnmerged := PutUnmerged
|}.
End Impl.
End stallingMDOps.

(** ** Block assembly *)
Section Assemble.
Context {World : Type}.
Context {KeyMetadata TLFCryptKey BlockCryptKey EncryptedBlock Payload : Type}.

(** The content hash block IDs are made of, an opaque cryptographic
    service. *)
Variable hash : bytes → kbfsblock.ID.
(** [kbfscrypto.UnmaskBlockCryptKey] *)
Variable UnmaskBlockCryptKey : bytes → TLFCryptKey → BlockCryptKey.

(** Modelled from the spec: [kbfsblock.VerifyID] is not among the sources.
    It "verifies the buffer's content hash matches the expected block ID
    (fails with an integrity-violation error on mismatch)". *)
Definition VerifyID (buf : bytes) (id : kbfsblock.ID) : error :=
  if decide (hash buf = id) then None
  else Some (IntegrityViolationError id (hash buf)).

(** Modelled from the spec: the object behind the [Block] interface that
    [assembleBlock] fills in, with the encoded size that the function
    "records ... on the resulting block"; [EncodedSize] is a [uint32]. *)
Record BlockObj := mkBlockObj {
  EncodedSize : Z;
  payload : Payload
}.

Definition SetEncodedSize (size : Z) (b : BlockObj) : BlockObj :=
  {| EncodedSize := size; payload := payload b |}.

Record blockKeyGetter := mkBlockKeyGetter {
  keyGetter_GetTLFCryptKeyForBlockDecryption :
    context.Context → KeyMetadata → BlockPointer → World →
    (TLFCryptKey * error) * World
}.

(** [codec.Decode(buf, &encryptedBlock)]: the decoded value and the error. *)
Record Codec := mkCodec {
  codec_Decode : bytes → EncryptedBlock * error
}.

(** [cryptoPure.DecryptBlock] decrypts into [block]: the block afterwards
    and the error. *)
Record cryptoPure := mkCryptoPure {
  crypto_DecryptBlock : EncryptedBlock → BlockCryptKey → BlockObj →
    BlockObj * error
}.

(** [block] is filled in place; the function returns it with the error. *)
Definition assembleBlock (ctx : context.Context) (keyGetter : blockKeyGetter)
    (codec : Codec) (crypto : cryptoPure) (kmd : KeyMetadata)
    (blockPtr : BlockPointer) (block : BlockObj) (buf : bytes)
    (blockServerHalf : bytes) : M World (error * BlockObj) :=
  match VerifyID buf (ID blockPtr) with
  | Some err => mret (Some err, block)
  | None =>
    '(tlfCryptKey, err) ←
       extern (EvGetTLFCryptKeyForBlockDecryption ctx blockPtr)
         (keyGetter_GetTLFCryptKeyForBlockDecryption keyGetter ctx kmd blockPtr);
    match err with
    | Some e => mret (Some e, block)
    | None =>
      let blockCryptKey := UnmaskBlockCryptKey blockServerHalf tlfCryptKey in
      emit (EvDecode buf);;
      let '(encryptedBlock, err) := codec_Decode codec buf in
      match err with
      | Some e => mret (Some e, block)
      | None =>
        emit EvDecryptBlock;;
        let '(block, err) :=
          crypto_DecryptBlock crypto encryptedBlock blockCryptKey block in
        match err with
        | Some e => mret (Some e, block)
        | None =>
          mret (None,
                SetEncodedSize (goint.uint32 (Z.of_nat (length buf))) block)
        end
      end
    end
  end.
End Assemble.

(** ** The parallel put orchestrator, [doBlockPuts]

    The goroutines of one call are the caller's (main) and the workers
    started with [eg.Go].  Their interleaving is a schedule: a list naming
    the goroutine that takes each step.  A step is one visible action: a
    channel operation, a call out of the program, a return. *)
Section DoBlockPuts.
Context {World : Type}.
Variable IsPublic : tlf.ID → bool.
Variable IsInd : ptr → bool.
(** The bound on parallel puts, a constant of the package. *)
Variable maxParallelBlockPuts : nat.

(** The arguments of the call ([log] is seen through its trace events). *)
Variable ctx : context.Context.
Variable bserv : BlockServer World.
Variable bcache : BlockCache World.
Variable reporter : Reporter World.
Variable tlfID : tlf.ID.
Variable tlfName : CanonicalTlfName.
Variable bps : blockPutState World.

Definition BlockCache_DeleteKnownPtr (tlfID : tlf.ID) (fblock : ptr)
    : M World error :=
  extern (EvDeleteKnownPtr tlfID fblock) (bcache_DeleteKnownPtr bcache tlfID fblock).

Definition BlockCache_DeleteTransient (p : BlockPointer) (tlfID : tlf.ID)
    : M World error :=
  extern (EvDeleteTransient p tlfID) (bcache_DeleteTransient bcache p tlfID).

(** Where a worker stands. *)
Inductive worker :=
| WRecv
    (** at [for blockState := range blocks] *)
| WPut (bs : blockState World)
    (** in [doOneBlockPut], before [PutBlockCheckQuota] *)
| WCb (bs : blockState World) (cb : World → error * World)
    (** before [blockState.syncedCb()] *)
| WSend (fblock : ptr) (e : Err)
    (** before [blocksToRemoveChan <- fblock], then returning [e] *)
| WDone (err : error).
    (** the worker function has returned [err] *)

(** Where the caller stands. *)
Inductive mainpc :=
| MSend (rest : list (blockState World))
    (** in the loop [blocks <- blockState], then [close(blocks)] *)
| MWait
    (** in [eg.Wait()] *)
| MReturned (blocksToRemove : list BlockPointer) (err : error)
| MPanicked (msg : string).

Record state := mkState {
  main_pc : mainpc;
  blocks : list (blockState World);
  blocksClosed : bool;
  workers : list worker;
  blocksToRemoveChan : list ptr;
  eg_err : error;
  env : Env World
}.

Inductive thread := Main | Worker (i : nat).

Definition numWorkers : nat :=
  let numWorkers := length (blockStates bps) in
  if decide (maxParallelBlockPuts < numWorkers)%nat then maxParallelBlockPuts
  else numWorkers.

(** [errgroup.WithContext]: the group's context is cancelled as soon as a
    worker has returned an error. *)
Definition groupCtx (s : state) : context.Context :=
  context.WithCancel ctx (bool_decide (eg_err s ≠ None)).

Definition init (e : Env World) : state :=
  {| main_pc := MSend (blockStates bps);
     blocks := [];
     blocksClosed := false;
     workers := replicate numWorkers WRecv;
     blocksToRemoveChan := [];
     eg_err := None;
     env := e |}.

Definition setWorker (i : nat) (w : worker) (s : state) : state :=
  {| main_pc := main_pc s; blocks := blocks s; blocksClosed := blocksClosed s;
     workers := <[i := w]> (workers s);
     blocksToRemoveChan := blocksToRemoveChan s; eg_err := eg_err s;
     env := env s |}.

Definition setEnv (e : Env World) (s : state) : state :=
  {| main_pc := main_pc s; blocks := blocks s; blocksClosed := blocksClosed s;
     workers := workers s; blocksToRemoveChan := blocksToRemoveChan s;
     eg_err := eg_err s; env := e |}.

(** The worker function returns [err].  [errgroup.Group.Go] keeps the first
    error that is not nil and cancels the group's context with it. *)
Definition workerReturn (i : nat) (err : error) (s : state) : state :=
  {| main_pc := main_pc s; blocks := blocks s; blocksClosed := blocksClosed s;
     workers := <[i := WDone err]> (workers s);
     blocksToRemoveChan := blocksToRemoveChan s;
     eg_err := match eg_err s with Some e => Some e | None => err end;
     env := env s |}.

(** The rest of [doOneBlockPut] and of the worker's loop body once the
    calls have produced [err]. *)
Definition afterCalls (i : nat) (bs : blockState World) (err : error)
    (s : state) : state :=
  match err with
  | None => setWorker i WRecv s
  | Some e =>
      match blockToRemove IsInd bs err with
      | Some fblock => setWorker i (WSend fblock e) s
      | None => workerReturn i err s
      end
  end.

Definition log_CWarningf (format : string) (err : Err) : M World unit :=
  emit (EvCWarningf ctx format err).

(** The loop [for fblock := range blocksToRemoveChan] over the closed
    channel. *)
Fixpoint drain (ch : list ptr) (blocksToRemove : list BlockPointer)
    : M World (list BlockPointer) :=
  match ch with
  | [] => mret blocksToRemove
  | fblock :: ch' =>
      let blocksToRemove :=
        blocksToRemove ++
        map blockPtr
          (filter (λ bs, block bs = FileBlockPtr fblock) (blockStates bps)) in
      err ← BlockCache_DeleteKnownPtr tlfID fblock;
      match err with
      | Some e => log_CWarningf "Couldn't delete ptr for a block: %v" e
      | None => mret tt
      end;;
      match last blocksToRemove with
      | None => panic "runtime error: index out of range"
      | Some p =>
          err ← BlockCache_DeleteTransient p tlfID;
          match err with
          | Some e => log_CWarningf "Couldn't delete block: %v" e
          | None => mret tt
          end
      end;;
      drain ch' blocksToRemove
  end.

(** From the return of [eg.Wait()] to the return of [doBlockPuts]. *)
Definition afterWait (s : state) : state :=
  let err := eg_err s in
  let finish (pc : mainpc) (e : Env World) :=
    {| main_pc := pc; blocks := blocks s; blocksClosed := blocksClosed s;
       workers := workers s; blocksToRemoveChan := [];
       eg_err := eg_err s; env := e |} in
  if isRecoverableBlockError err then
    match drain (blocksToRemoveChan s) [] (env s) with
    | Ret blocksToRemove e => finish (MReturned blocksToRemove err) e
    | Panic msg => finish (MPanicked msg) (env s)
    | Blocked => s
    end
  else finish (MReturned [] err) (env s).

Definition isDone (w : worker) : bool :=
  match w with WDone _ => true | _ => false end.

Definition step (t : thread) (s : state) : option state :=
  match t with
  | Main =>
      match main_pc s with
      | MSend (b :: rest) =>
          if decide (length (blocks s) < length (blockStates bps))%nat then
            Some {| main_pc := MSend rest; blocks := blocks s ++ [b];
                    blocksClosed := blocksClosed s; workers := workers s;
                    blocksToRemoveChan := blocksToRemoveChan s;
                    eg_err := eg_err s; env := env s |}
          else None
      | MSend [] =>
          Some {| main_pc := MWait; blocks := blocks s;
                  blocksClosed := true; workers := workers s;
                  blocksToRemoveChan := blocksToRemoveChan s;
                  eg_err := eg_err s; env := env s |}
      | MWait =>
          if forallb isDone (workers s) then Some (afterWait s) else None
      | MReturned _ _ => None
      | MPanicked _ => None
      end
  | Worker i =>
      match workers s !! i with
      | None => None
      | Some WRecv =>
          match blocks s with
          | b :: rest =>
              Some {| main_pc := main_pc s; blocks := rest;
                      blocksClosed := blocksClosed s;
                      workers := <[i := WPut b]> (workers s);
                      blocksToRemoveChan := blocksToRemoveChan s;
                      eg_err := eg_err s; env := env s |}
          | [] => if blocksClosed s then Some (workerReturn i None s) else None
          end
      | Some (WPut bs) =>
          match PutBlockCheckQuota IsPublic (groupCtx s) bserv reporter tlfID
                  (blockPtr bs) (readyBlockData bs) tlfName (env s) with
          | Ret err e =>
              match err, syncedCb bs with
              | None, Some cb => Some (setWorker i (WCb bs cb) (setEnv e s))
              | _, _ => Some (afterCalls i bs err (setEnv e s))
              end
          | _ => None
          end
      | Some (WCb bs cb) =>
          match extern (EvSyncedCb (blockPtr bs)) cb (env s) with
          | Ret err e => Some (afterCalls i bs err (setEnv e s))
          | _ => None
          end
      | Some (WSend fblock e) =>
          if decide (length (blocksToRemoveChan s) < numWorkers)%nat then
            Some (workerReturn i (Some e)
                    {| main_pc := main_pc s; blocks := blocks s;
                       blocksClosed := blocksClosed s; workers := workers s;
                       blocksToRemoveChan := blocksToRemoveChan s ++ [fblock];
                       eg_err := eg_err s; env := env s |})
          else None
      | Some (WDone _) => None
      end
  end.

Fixpoint run (sched : list thread) (s : state) : option state :=
  match sched with
  | [] => Some s
  | t :: sched' =>
      match step t s with
      | Some s' => run sched' s'
      | None => None
      end
  end.

(** [doBlockPuts] under a schedule: what the call returns and the world it
    leaves, when the schedule runs it to its return. *)
Definition doBlockPuts (sched : list thread) (e : Env World)
    : option (list BlockPointer * error * Env World) :=
  match run sched (init e) with
  | Some s =>
      match main_pc s with
      | MReturned blocksToRemove err => Some (blocksToRemove, err, env s)
      | _ => None
      end
  | None => None
  end.
End DoBlockPuts.

(** * Specification vocabulary and concrete instances *)

(** Concrete collaborators and inputs on which the statements below are
    exercised.  The world is [unit] unless a scenario needs more. *)
Module Fixtures.
Definition e0 : Env unit := {| world := tt; trace := [] |}.
Definition ctx0 : context.Context := context.Base 0.
Definition neverDone : nat → unit → error := λ _ _, None.

Definition zeroCtx : kbfsblock.Context :=
  kbfsblock.mkContext kbfsblock.ZeroRefNonce "".
Definition refCtx : kbfsblock.Context :=
  kbfsblock.mkContext [x00; x00; x00; x00; x00; x00; x00; x07] "".

Definition ptrA : BlockPointer := mkBlockPointer [x0a] zeroCtx.
Definition ptrB : BlockPointer := mkBlockPointer [x0b] zeroCtx.
Definition ptrR : BlockPointer := mkBlockPointer [x0c] refCtx.

Definition data : ReadyBlockData := mkReadyBlockData [x01; x02; x03] [x09].

Definition quietReporter : Reporter unit :=
  {| reporter_ReportErr := λ _ _ _ _ _ w, w |}.

Definition quietCache : BlockCache unit :=
  {| bcache_DeleteKnownPtr := λ _ _ w, (None, w);
     bcache_DeleteTransient := λ _ _ w, (None, w) |}.

(** A server on which every call succeeds. *)
Definition okServer : BlockServer unit :=
  {| bserver_Put := λ _ _ _ _ _ _ w, (None, w);
     bserver_AddBlockReference := λ _ _ _ _ w, (None, w) |}.

(** A server that answers every put with an over-quota error. *)
Definition quotaServer (throttled : bool) : BlockServer unit :=
  {| bserver_Put := λ _ _ _ _ _ _ w,
       (Some (BServerErrorOverQuota "over quota" 120 100 throttled), w);
     bserver_AddBlockReference := λ _ _ _ _ w, (None, w) |}.

(** A server that has deleted block [x0a], and that honours its caller's
    context on every other block. *)
Definition racingServer : BlockServer unit :=
  {| bserver_Put := λ ctx _ id _ _ _ w,
       (if decide (id = [x0a]) then Some (BServerErrorBlockDeleted "deleted")
        else context.Err neverDone ctx w, w);
     bserver_AddBlockReference := λ ctx _ _ _ w,
       (context.Err neverDone ctx w, w) |}.

Definition entry (p : BlockPointer) (b : Block) : blockState unit :=
  {| blockPtr := p; block := b; readyBlockData := data; syncedCb := None |}.

Definition entryCb (p : BlockPointer) (b : Block) : blockState unit :=
  {| blockPtr := p; block := b; readyBlockData := data;
     syncedCb := Some (λ w, (None, w)) |}.

(** A delegate whose operations all succeed and leave the world alone. *)
Definition okBlockOps : BlockOps unit unit :=
  {| BlockOps_Get := λ _ _ _ _ _, mret None;
     BlockOps_Ready := λ _ _ _ _, mret ([], 0, data, None);
     BlockOps_Put := λ _ _ _ _ _, mret None;
     BlockOps_Delete := λ _ _ _ _, mret ([], None);
     BlockOps_Archive := λ _ _ _ _, mret None |}.

(** The same for the metadata operations. *)
Definition okMDOps : @MDOps unit unit unit :=
  {| MDOps_GetForHandle := λ _ _ _, mret (None, None);
     MDOps_GetUnmergedForHandle := λ _ _ _, mret (None, None);
     MDOps_GetForTLF := λ _ _ _, mret (None, None);
     MDOps_GetLatestHandleForTLF := λ _ _ _, mret (tt, None);
     MDOps_GetUnmergedForTLF := λ _ _ _ _, mret (None, None);
     MDOps_GetRange := λ _ _ _ _ _, mret ([], None);
     MDOps_GetUnmergedRange := λ _ _ _ _ _ _, mret ([], None);
     MDOps_Put := λ _ _ _, mret None;
     MDOps_PutUnmerged := λ _ _ _ _, mret None |}.

(** Wrappers whose map registers the nil key, which every context of
    these fixtures carries: one stalls [Get], the other [AfterPut]. *)
Definition stallGet : stallingBlockOps.t :=
  stallingBlockOps.mk StallableBlockGet None {[ None := mkStaller 1 2 ]} tt.
Definition stallAfterPut : stallingMDOps.t :=
  stallingMDOps.mk StallableMDAfterPut None {[ None := mkStaller 1 2 ]} tt.

(** A test that never answers on [unstall]. *)
Definition recvNever {W} : nat → W → option W := λ _ _, None.

(** A world that is just the flag "the caller's context has been
    cancelled", and a delegate during whose put that happens. *)
Definition flagErr : nat → bool → error :=
  λ _ w, if w then Some Canceled else None.

Definition slowBlockOps : BlockOps bool unit :=
  {| BlockOps_Get := λ _ _ _ _ _, mret None;
     BlockOps_Ready := λ _ _ _ _, mret ([], 0, data, None);
     BlockOps_Put := λ _ _ _ _ _ e,
       Ret None {| world := true; trace := trace e |};
     BlockOps_Delete := λ _ _ _ _, mret ([], None);
     BlockOps_Archive := λ _ _ _ _, mret None |}.

Definition noValue : nat → context.Value_t → context.Value_t := λ _ _, None.
Definition sendOk {W} : nat → W → bool * W := λ _ w, (true, w).
Definition recvOk {W} : nat → W → option W := λ _ w, Some w.

(** Stand-ins for the key service, the codec and the cipher: each accepts
    whatever it is given.  [stubHash] maps every buffer to the ID of
    [ptrA]. *)
Definition stubHash : bytes → kbfsblock.ID := λ _, [x0a].
Definition stubUnmask : bytes → unit → unit := λ _ _, tt.
Definition stubKeyGetter : @blockKeyGetter unit unit unit :=
  {| keyGetter_GetTLFCryptKeyForBlockDecryption := λ _ _ _ w, ((tt, None), w) |}.
Definition stubCodec : @Codec unit := {| codec_Decode := λ _, (tt, None) |}.
Definition stubCrypto : @cryptoPure unit unit unit :=
  {| crypto_DecryptBlock := λ _ _ b, (b, None) |}.

Definition noSleep : Z → unit → unit := λ _ w, w.

(** A server that has deleted block [x0a], whatever the context. *)
Definition deletedServer : BlockServer unit :=
  {| bserver_Put := λ _ _ id _ _ _ w,
       (if decide (id = [x0a]) then Some (BServerErrorBlockDeleted "deleted")
        else None, w);
     bserver_AddBlockReference := λ _ _ _ _ w, (None, w) |}.

Definition noneInd : ptr → bool := λ _, false.
Definition nonePublic : tlf.ID → bool := λ _, false.
Definition folder : tlf.ID := [x10].

(** Three entries: a plain put, a put with a callback, a new reference. *)
Definition okBatch : blockPutState unit :=
  {| blockStates := [entry ptrA (FileBlockPtr 1%nat); entryCb ptrB (FileBlockPtr 2%nat);
                     entry ptrR (FileBlockPtr 3%nat)] |}.

(** Two file blocks, the first of which the server has deleted. *)
Definition fileBatch : blockPutState unit :=
  {| blockStates := [entry ptrA (FileBlockPtr 1%nat); entryCb ptrB (FileBlockPtr 2%nat)] |}.

(** One directory block, which the server has deleted. *)
Definition dirBatch : blockPutState unit :=
  {| blockStates := [entry ptrA (DirBlockPtr 1%nat)] |}.

Definition emptyBatch : blockPutState unit := {| blockStates := [] |}.

(** The orchestrator on these collaborators, with 100 parallel puts. *)
Definition runOn (bserv : BlockServer unit) (bps : blockPutState unit) :=
  run nonePublic noneInd 100 ctx0 bserv quietCache quietReporter folder
    "alice" bps.

Definition putsOn (bserv : BlockServer unit) (bps : blockPutState unit) :=
  doBlockPuts nonePublic noneInd 100 ctx0 bserv quietCache quietReporter
    folder "alice" bps.

(** Schedules: the caller queues the entries, closes the queue and waits;
    the workers take their steps in between. *)
Definition schedAllGood : list thread :=
  [Main; Main; Main; Main; Worker 0; Worker 0; Worker 1; Worker 1;
   Worker 1; Worker 0; Worker 0; Worker 0; Worker 1; Worker 2; Main]%nat.
Definition schedOneBad : list thread :=
  [Main; Main; Main; Worker 0; Worker 0; Worker 1; Worker 1; Worker 0;
   Worker 1; Worker 1; Main]%nat.
Definition schedDir : list thread :=
  [Main; Main; Worker 0; Worker 0; Main]%nat.
Definition schedRace : list thread :=
  [Main; Main; Main; Worker 0; Worker 0; Worker 0; Worker 1; Worker 1]%nat.
Definition schedFailedPut : list thread :=
  [Main; Main; Main; Worker 0; Worker 0]%nat.

Definition schedHolding : list thread :=
  [Main; Main; Main; Worker 0]%nat.
Definition schedOneWorker : list thread :=
  [Main; Main; Main; Worker 0; Worker 0; Worker 0; Main]%nat.

End Fixtures.

(** ** What it means for a wrapper to only delay an operation *)
Section StallSpec.
Context {World : Type}.
Variable baseErr : nat → World → error.

(** [wrapped] returns exactly when [inner], started where the stall
    [stall] ended, returns, and with the same value and world. *)
Definition passes_through {A} (stall : M World unit) (inner wrapped : M World A)
    : Prop :=
  ∀ e r e',
    wrapped e = Ret r e' ↔ ∃ e0, stall e = Ret tt e0 ∧ inner e0 = Ret r e'.

(** The same, for a wrapper that polls the context before and after the
    inner call: when the context is done at a poll, the context's error is
    returned in place of what the inner call returned or would return.
    [between] runs between the inner call's return and the second poll. *)
Definition passes_unless_done (ctx : context.Context) (stall : M World unit)
    (inner : M World error) (between : M World unit) (wrapped : M World error)
    : Prop :=
  ∀ e r e',
    wrapped e = Ret r e' ↔
    ∃ e0, stall e = Ret tt e0 ∧
      match context.Err baseErr ctx (world e0) with
      | Some cerr => r = Some cerr ∧ e' = e0
      | None =>
          ∃ rd e1, inner e0 = Ret rd e1 ∧ between e1 = Ret tt e' ∧
            r = match context.Err baseErr ctx (world e') with
                | Some cerr => Some cerr
                | None => rd
                end
      end.
End StallSpec.

(** ** Vocabulary for the orchestrator *)
Section DoBlockPutsSpec.
Context {World : Type}.
Variable IsPublic : tlf.ID → bool.
Variable IsInd : ptr → bool.
Variable maxParallelBlockPuts : nat.
Variable ctx : context.Context.
Variable bserv : BlockServer World.
Variable bcache : BlockCache World.
Variable reporter : Reporter World.
Variable tlfID : tlf.ID.
Variable tlfName : CanonicalTlfName.
Variable bps : blockPutState World.

(** The entry a worker has received and not yet put. *)
Definition heldPut (w : @worker World) : list (blockState World) :=
  match w with WPut bs => [bs] | _ => [] end.

(** The entry a worker has put and whose callback it is about to call. *)
Definition heldCb (w : @worker World) : list (blockState World) :=
  match w with WCb bs _ => [bs] | _ => [] end.

(** The block a worker is about to send on [blocksToRemoveChan]. *)
Definition sending (w : @worker World) : list ptr :=
  match w with WSend fblock _ => [fblock] | _ => [] end.

(** 1 for a worker that has returned an error. *)
Definition failed (w : @worker World) : nat :=
  match w with WDone (Some _) => 1%nat | _ => 0%nat end.

(** The entries the caller has not sent on [blocks] yet. *)
Definition unsent (pc : @mainpc World) : list (blockState World) :=
  match pc with MSend rest => rest | _ => [] end.

(** The entries the server has not been called for yet. *)
Definition pending (s : @state World) : list (blockState World) :=
  unsent (main_pc s) ++ blocks s ++ (workers s ≫= heldPut).

Definition returned (s : @state World) : Prop :=
  ∃ blocksToRemove err, main_pc s = MReturned blocksToRemove err.

(** A bound on the number of steps left. *)
Definition workerMeasure (w : @worker World) : nat :=
  match w with
  | WRecv => 1 | WPut _ => 3 | WCb _ _ => 2 | WSend _ _ => 1 | WDone _ => 0
  end%nat.

Definition mainMeasure (pc : @mainpc World) : nat :=
  match pc with
  | MSend rest => 4 * length rest + 2
  | MWait => 1
  | MReturned _ _ => 0
  | MPanicked _ => 0
  end%nat.

Definition measure (s : @state World) : nat :=
  (mainMeasure (main_pc s) + 3 * length (blocks s)
   + sum_list (workerMeasure <$> workers s))%nat.

(** The call the block server receives for an entry under context [c]. *)
Definition bserverCall (c : context.Context) (bs : blockState World) : event :=
  if decide (RefNonce (blockPtr bs) = kbfsblock.ZeroRefNonce) then
    EvBServerPut c tlfID (ID (blockPtr bs)) (Context (blockPtr bs))
      (buf (readyBlockData bs)) (serverHalf (readyBlockData bs))
  else
    EvBServerAddBlockReference c tlfID (ID (blockPtr bs))
      (Context (blockPtr bs)).

Definition hasCb (bs : blockState World) : bool :=
  match syncedCb bs with Some _ => true | None => false end.

Definition cbCall (bs : blockState World) : event := EvSyncedCb (blockPtr bs).

(** The entry's remote call succeeds, whatever the state of the world and
    of the context. *)
Definition remoteSucceeds (bs : blockState World) : Prop :=
  ∀ c e, ∃ e',
    putBlockToServer c bserv tlfID (blockPtr bs) (readyBlockData bs) e
    = Ret None e'.

(** The entry's completion callback, if it has one, succeeds. *)
Definition cbSucceeds (bs : blockState World) : Prop :=
  ∀ cb w, syncedCb bs = Some cb → (cb w).1 = None.

(** The entry's remote call fails with an error classified recoverable. *)
Definition remoteFailsRecoverably (bs : blockState World) : Prop :=
  ∀ c e, ∃ err e',
    putBlockToServer c bserv tlfID (blockPtr bs) (readyBlockData bs) e
    = Ret (Some err) e'
    ∧ isRecoverableBlockError (Some err) = true.

(** The entries of the batch whose block is the [*FileBlock] [fblock]. *)
Definition entriesOf (fblock : ptr) : list (blockState World) :=
  filter (λ bs, block bs = FileBlockPtr fblock) (blockStates bps).

(** The calls still owed for an entry that has not been put: the server
    call and, when the entry has a callback, the callback. *)
Definition owed (c : context.Context) (bs : blockState World) : list event :=
  [bserverCall c bs] ++ (if hasCb bs then [cbCall bs] else []).

(** The calls still owed for the entry a worker holds. *)
Definition workerOwed (c : context.Context) (w : @worker World) : list event :=
  match w with
  | WPut bs => owed c bs
  | WCb bs _ => [cbCall bs]
  | _ => []
  end.

(** The calls made so far together with the calls still owed. *)
Definition ledger (c : context.Context) (s : @state World) : list event :=
  trace (env s) ++ (unsent (main_pc s) ≫= owed c) ++ (blocks s ≫= owed c)
  ++ (workers s ≫= workerOwed c).

(** 1 for a worker that has left its loop through the closed channel. *)
Definition exited (w : @worker World) : nat :=
  match w with WDone None => 1%nat | _ => 0%nat end.

(** 1 for a worker that has not returned yet. *)
Definition running (w : @worker World) : nat :=
  if isDone w then 0%nat else 1%nat.

Definition isCacheCall (ev : event) : bool :=
  match ev with
  | EvDeleteKnownPtr _ _ => true
  | EvDeleteTransient _ _ => true
  | _ => false
  end.

(** A worker about to call a callback holds the callback of its entry. *)
Definition workerCb (w : @worker World) : Prop :=
  match w with WCb bs cb => syncedCb bs = Some cb | _ => True end.

(** What holds of every state a schedule can reach. *)
Record Inv (s : @state World) : Prop := mkInv {
  inv_workers :
    length (workers s) = numWorkers maxParallelBlockPuts bps;
  inv_chan :
    (length (blocksToRemoveChan s) ≤ sum_list (failed <$> workers s))%nat;
  inv_cap :
    (length (blocks s) + length (unsent (main_pc s))
     ≤ length (blockStates bps))%nat;
  inv_closed :
    blocksClosed s = match main_pc s with MSend _ => false | _ => true end;
  inv_exit :
    (0 < sum_list (exited <$> workers s))%nat →
    blocks s = [] ∧ blocksClosed s = true;
  inv_done :
    match main_pc s with
    | MSend _ => True
    | MWait => True
    | _ => sum_list (running <$> workers s) = 0%nat
    end;
  inv_mem :
    Forall (λ bs, bs ∈ blockStates bps) (pending s ++ (workers s ≫= heldCb));
  inv_fblocks :
    Forall (λ fblock, entriesOf fblock ≠ [])
      (blocksToRemoveChan s ++ (workers s ≫= sending));
  inv_err :
    eg_err s = None → sum_list (failed <$> workers s) = 0%nat;
  inv_nopanic :
    ∀ msg, main_pc s ≠ MPanicked msg;
  inv_cb :
    Forall workerCb (workers s)
}.

(** What holds in addition while nothing has failed: the group has no
    error, nothing is recorded or about to be recorded on the result
    channel, and the calls made and owed add up to one server call for each
    entry of the batch and one callback call for each entry that has a
    callback.  [ei] is the environment at the call. *)
Record AllGood (ei : Env World) (s : @state World) : Prop := mkAllGood {
  good_err : eg_err s = None;
  good_chan : blocksToRemoveChan s = [];
  good_nosend : workers s ≫= sending = [];
  good_ledger :
    ledger (context.WithCancel ctx false) s
    ≡ₚ trace ei ++ (blockStates bps ≫= owed (context.WithCancel ctx false));
  good_ret :
    ∀ blocksToRemove err,
      main_pc s = MReturned blocksToRemove err →
      blocksToRemove = [] ∧ err = None
}.

(** What the two cache calls for one block leave behind. *)
Definition afterDeletes (fblock : ptr) (p : BlockPointer) (e : Env World)
    : Env World :=
  let '(err1, w1) := bcache_DeleteKnownPtr bcache tlfID fblock (world e) in
  let '(err2, w2) := bcache_DeleteTransient bcache p tlfID w1 in
  {| world := w2;
     trace := trace e ++ [EvDeleteKnownPtr tlfID fblock] ++
       match err1 with
       | Some e1 => [EvCWarningf ctx "Couldn't delete ptr for a block: %v" e1]
       | None => []
       end ++ [EvDeleteTransient p tlfID] ++
       match err2 with
       | Some e2 => [EvCWarningf ctx "Couldn't delete block: %v" e2]
       | None => []
       end |}.

(** The block a worker is about to send, with the error it will return. *)
Definition sendingErr (w : @worker World) : list (ptr * Err) :=
  match w with WSend fblock e => [(fblock, e)] | _ => [] end.

(** The calls to the block cache in a trace. *)
Definition cacheCalls (tr : list event) : list event :=
  filter (λ ev, isCacheCall ev) tr.

(** An entry on which nothing fails. *)
Definition succeeds (bs : blockState World) : Prop :=
  remoteSucceeds bs ∧ cbSucceeds bs.

(** What the caller gets back and what the cache has been asked, once the
    entry [bad] has failed with [e]: [blocksToRemove] is the list returned
    and [e'] the environment at the return, [ei] the one at the call. *)
Definition Outcome (ei : Env World) (bad : blockState World) (e : Err)
    (blocksToRemove : list BlockPointer) (e' : Env World) : Prop :=
  match blockToRemove IsInd bad (Some e) with
  | Some fblock =>
      blocksToRemove = map blockPtr (entriesOf fblock)
      ∧ ∃ p, last blocksToRemove = Some p
          ∧ cacheCalls (trace e')
            = cacheCalls (trace ei)
              ++ [EvDeleteKnownPtr tlfID fblock; EvDeleteTransient p tlfID]
  | None =>
      blocksToRemove = [] ∧ cacheCalls (trace e') = cacheCalls (trace ei)
  end.

(** While the one failing entry [bad] has not been put. *)
Definition BadPending (ei : Env World) (bad : blockState World)
    (s : @state World) : Prop :=
  eg_err s = None
  ∧ blocksToRemoveChan s = []
  ∧ workers s ≫= sendingErr = []
  ∧ cacheCalls (trace (env s)) = cacheCalls (trace ei)
  ∧ ∃ rest, pending s ≡ₚ [bad] ++ rest
      ∧ Forall succeeds (rest ++ (workers s ≫= heldCb)).

(** Once [bad] has been put and has failed with [e]: first its worker is
    about to record the block, then it has returned [e] to the group. *)
Definition BadPut (ei : Env World) (bad : blockState World) (e : Err)
    (s : @state World) : Prop :=
  isRecoverableBlockError (Some e) = true
  ∧ Forall succeeds (pending s ++ (workers s ≫= heldCb))
  ∧ match main_pc s with
    | MReturned blocksToRemove err =>
        err = Some e ∧ Outcome ei bad e blocksToRemove (env s)
    | _ =>
        cacheCalls (trace (env s)) = cacheCalls (trace ei)
        ∧ ((eg_err s = None ∧ blocksToRemoveChan s = []
            ∧ ∃ fblock, blockToRemove IsInd bad (Some e) = Some fblock
                ∧ workers s ≫= sendingErr = [(fblock, e)])
           ∨ (eg_err s = Some e ∧ workers s ≫= sendingErr = []
              ∧ blocksToRemoveChan s
                = option_list (blockToRemove IsInd bad (Some e))))
    end.

Definition OneBad (ei : Env World) (bad : blockState World)
    (s : @state World) : Prop :=
  BadPending ei bad s ∨ ∃ e, BadPut ei bad e s.

(** The steps of the orchestrator, one constructor for each case of
    [step]. *)
Inductive Step : thread → @state World → @state World → Prop :=
| Step_send s b rest :
    main_pc s = MSend (b :: rest) →
    (length (blocks s) < length (blockStates bps))%nat →
    Step Main s
      {| main_pc := MSend rest; blocks := blocks s ++ [b];
         blocksClosed := blocksClosed s; workers := workers s;
         blocksToRemoveChan := blocksToRemoveChan s;
         eg_err := eg_err s; env := env s |}
| Step_close s :
    main_pc s = MSend [] →
    Step Main s
      {| main_pc := MWait; blocks := blocks s;
         blocksClosed := true; workers := workers s;
         blocksToRemoveChan := blocksToRemoveChan s;
         eg_err := eg_err s; env := env s |}
| Step_wait s :
    main_pc s = MWait →
    forallb isDone (workers s) = true →
    Step Main s (afterWait ctx bcache tlfID bps s)
| Step_recv s i b rest :
    workers s !! i = Some WRecv →
    blocks s = b :: rest →
    Step (Worker i) s
      {| main_pc := main_pc s; blocks := rest;
         blocksClosed := blocksClosed s;
         workers := <[i := WPut b]> (workers s);
         blocksToRemoveChan := blocksToRemoveChan s;
         eg_err := eg_err s; env := env s |}
| Step_exit s i :
    workers s !! i = Some WRecv →
    blocks s = [] →
    blocksClosed s = true →
    Step (Worker i) s (workerReturn i None s)
| Step_put_cb s i bs cb e :
    workers s !! i = Some (WPut bs) →
    PutBlockCheckQuota IsPublic (groupCtx ctx s) bserv reporter tlfID
      (blockPtr bs) (readyBlockData bs) tlfName (env s) = Ret None e →
    syncedCb bs = Some cb →
    Step (Worker i) s (setWorker i (WCb bs cb) (setEnv e s))
| Step_put s i bs err e :
    workers s !! i = Some (WPut bs) →
    PutBlockCheckQuota IsPublic (groupCtx ctx s) bserv reporter tlfID
      (blockPtr bs) (readyBlockData bs) tlfName (env s) = Ret err e →
    (err = None → syncedCb bs = None) →
    Step (Worker i) s (afterCalls IsInd i bs err (setEnv e s))
| Step_cb s i bs cb err e :
    workers s !! i = Some (WCb bs cb) →
    extern (EvSyncedCb (blockPtr bs)) cb (env s) = Ret err e →
    Step (Worker i) s (afterCalls IsInd i bs err (setEnv e s))
| Step_chan s i fblock e :
    workers s !! i = Some (WSend fblock e) →
    (length (blocksToRemoveChan s) < numWorkers maxParallelBlockPuts bps)%nat →
    Step (Worker i) s
      (workerReturn i (Some e)
         {| main_pc := main_pc s; blocks := blocks s;
            blocksClosed := blocksClosed s; workers := workers s;
            blocksToRemoveChan := blocksToRemoveChan s ++ [fblock];
            eg_err := eg_err s; env := env s |}).
End DoBlockPutsSpec.

(** ** More vocabulary for the stall-injection wrappers *)
Section StallVocabulary.
Context {World : Type}.
Variable baseErr : nat → World → error.
Variable baseValue : nat → context.Value_t → context.Value_t.
Variable trySend : nat → World → bool * World.
Variable recv : nat → World → option World.

(** The stall of operation [op] is off under [ctx]: the wrapper is set to
    stall another operation, or the value the context holds under the
    wrapper's key names no staller. *)
Definition stallOff (ctx : context.Context) (stallOpName : stallableOp)
    (stallKey : context.Value_t) (stallMap : gmap context.Value_t staller)
    (op : stallableOp) : Prop :=
  stallOpName ≠ op
  ∨ stallMap !! context.Value baseValue ctx stallKey = None.

(** The environment once a stall on [chans] is over: the signal on
    [stalled] has been offered, and taken or dropped, and the receive on
    [unstall] has been answered; [None] when it never is. *)
Definition afterStall (chans : staller) (e : Env World)
    : option (Env World) :=
  let '(ok, w1) := trySend (stalled chans) (world e) in
  match recv (unstall chans) w1 with
  | Some w2 =>
      Some {| world := w2;
              trace := trace e
                       ++ (if (ok : bool) then [EvStalled (stalled chans)]
                           else [])
                       ++ [EvUnstall (unstall chans)] |}
  | None => None
  end.

(** [wrapped] is [inner]: same result, same world and trace, and blocked
    or panicking when [inner] is. *)
Definition same_as {A} (inner wrapped : M World A) : Prop :=
  ∀ e, wrapped e = inner e.

(** [wrapped] blocks while the stall on [chans] lasts and is [inner] from
    there on. *)
Definition held_until_unstall {A} (chans : staller)
    (inner wrapped : M World A) : Prop :=
  ∀ e, wrapped e = match afterStall chans e with
                   | Some e1 => inner e1
                   | None => Blocked
                   end.

(** [inner] between two polls of the context: not called when the context
    is done at the first poll, and its result replaced by the context's
    error when the context is done at the second.  [between] is what
    happens between the return of [inner] and the second poll. *)
Definition polled (ctx : context.Context) (inner : M World error)
    (between : Env World → option (Env World)) : M World error :=
  λ e, match context.Err baseErr ctx (world e) with
       | Some cerr => Ret (Some cerr) e
       | None =>
           match inner e with
           | Ret err e1 =>
               match between e1 with
               | Some e2 =>
                   Ret (match context.Err baseErr ctx (world e2) with
                        | Some cerr => Some cerr
                        | None => err
                        end) e2
               | None => Blocked
               end
           | Panic msg => Panic msg
           | Blocked => Blocked
           end
       end.
End StallVocabulary.

(** ** More vocabulary for the orchestrator *)
Section DoBlockPutsAccounting.
Context {World : Type}.
Variable IsInd : ptr → bool.
Variable maxParallelBlockPuts : nat.
Variable ctx : context.Context.
Variable tlfID : tlf.ID.
Variable bps : blockPutState World.

(** The pointers handed back for the blocks [ch] received from the result
    channel: for each block, in the channel's order, the pointers of the
    entries of the batch that hold it. *)
Definition removedPtrs (ch : list ptr) : list BlockPointer :=
  ch ≫= λ fblock, map blockPtr (entriesOf bps fblock).

(** A call that the cleanup of the blocks [ch] may make to the block
    cache, [blocksToRemove] being the list returned. *)
Definition cleanupCall (ch : list ptr) (blocksToRemove : list BlockPointer)
    (ev : event) : Prop :=
  (∃ fblock, ev = EvDeleteKnownPtr tlfID fblock ∧ fblock ∈ ch)
  ∨ (∃ p, ev = EvDeleteTransient p tlfID ∧ p ∈ blocksToRemove).

(** What a returned call has handed back and asked of the cache: [ch] are
    the blocks it has received from the result channel, [calls] its calls
    to the cache; [ei] is the environment at the call, [e'] at the
    return. *)
Definition Cleanup (ei : Env World) (blocksToRemove : list BlockPointer)
    (err : error) (e' : Env World) (ch : list ptr) (calls : list event)
    : Prop :=
  (length ch ≤ numWorkers maxParallelBlockPuts bps)%nat
  ∧ Forall (λ fblock, IsInd fblock = false ∧ entriesOf bps fblock ≠ []) ch
  ∧ (isRecoverableBlockError err = false → ch = [])
  ∧ blocksToRemove = removedPtrs ch
  ∧ cacheCalls (trace e') = cacheCalls (trace ei) ++ calls
  ∧ length calls = (2 * length ch)%nat
  ∧ Forall (cleanupCall ch blocksToRemove) calls.

(** Until the call returns the cache is left alone, and the blocks
    recorded or about to be are not indirect. *)
Definition Records (ei : Env World) (s : @state World) : Prop :=
  Forall (λ fblock, IsInd fblock = false)
    (blocksToRemoveChan s ++ (workers s ≫= sending))
  ∧ match main_pc s with
    | MReturned blocksToRemove err =>
        ∃ ch calls, Cleanup ei blocksToRemove err (env s) ch calls
    | _ => cacheCalls (trace (env s)) = cacheCalls (trace ei)
    end.

Definition isServerCall (ev : event) : bool :=
  match ev with
  | EvBServerPut _ _ _ _ _ _ => true
  | EvBServerAddBlockReference _ _ _ _ => true
  | _ => false
  end.

(** The calls to the block server in a trace. *)
Definition serverCalls (tr : list event) : list event :=
  filter (λ ev, isServerCall ev) tr.

Definition isCb (ev : event) : bool :=
  match ev with EvSyncedCb _ => true | _ => false end.

(** The calls to the block server and to the callbacks in a trace. *)
Definition workCalls (tr : list event) : list event :=
  filter (λ ev, isServerCall ev || isCb ev) tr.

(** The server call made for an entry while the group's context was, or
    was not, cancelled. *)
Definition submission (d : blockState World * bool) : event :=
  bserverCall tlfID (context.WithCancel ctx d.2) d.1.

(** The server has been called, in this order, for the entries [done],
    and the entries it has not been called for are pending: none has been
    submitted twice, none has been lost.  [new] is the trace since the
    call. *)
Definition Submitted (ei : Env World) (s : @state World)
    (new : list event) (done : list (blockState World * bool)) : Prop :=
  trace (env s) = trace ei ++ new
  ∧ serverCalls new = map submission done
  ∧ map fst done ++ pending s ≡ₚ blockStates bps.

(** Nothing has failed yet: the group has no error and no worker is about
    to record a block. *)
Definition clean (s : @state World) : Prop :=
  eg_err s = None ∧ workers s ≫= sending = [].

(** While nothing has failed, the server and callback calls made since
    the call and the calls owed add up to one server call for each entry
    and one callback call for each entry that has a callback. *)
Definition CleanLedger (ei : Env World) (s : @state World) : Prop :=
  ∃ new,
    trace (env s) = trace ei ++ new
    ∧ (clean s →
       workCalls new
       ++ (unsent (main_pc s) ≫= owed tlfID (context.WithCancel ctx false))
       ++ (blocks s ≫= owed tlfID (context.WithCancel ctx false))
       ++ (workers s ≫= workerOwed tlfID (context.WithCancel ctx false))
       ≡ₚ blockStates bps ≫= owed tlfID (context.WithCancel ctx false)).

(** The state [s'] in which worker [i], holding an entry in [s], is once
    [doOneBlockPut] has returned [err] for that entry, leaving the result
    channel as [ch'] and the environment as [e']: the worker is back at
    the loop head, or has returned [err] to the group. *)
Definition iterationEnd (s : @state World) (i : nat) (err : error)
    (ch' : chan) (e' : Env World) (s' : @state World) : Prop :=
  main_pc s' = main_pc s
  ∧ blocks s' = blocks s
  ∧ blocksClosed s' = blocksClosed s
  ∧ workers s'
    = <[i := match err with None => WRecv | Some _ => WDone err end]>
        (workers s)
  ∧ blocksToRemoveChan s' = queue ch'
  ∧ eg_err s' = match eg_err s with Some e => Some e | None => err end
  ∧ env s' = e'.
End DoBlockPutsAccounting.

(** ** Vocabulary for the callbacks of the orchestrator *)
Section DoBlockPutsCallbacks.
Context {World : Type}.
Variable IsPublic : tlf.ID → bool.
Variable ctx : context.Context.
Variable bserv : BlockServer World.
Variable reporter : Reporter World.
Variable tlfID : tlf.ID.
Variable tlfName : CanonicalTlfName.

(** An entry that has been put: the entry, whether the group's context
    was cancelled at that moment, and what [PutBlockCheckQuota] returned
    for it. *)
Definition putRecord : Type := blockState World * bool * error.

(** The result recorded is one that [PutBlockCheckQuota] has returned for
    the entry under that context. *)
Definition isPutResult (d : putRecord) : Prop :=
  ∃ e e1,
    PutBlockCheckQuota IsPublic (context.WithCancel ctx d.1.2) bserv reporter
      tlfID (blockPtr d.1.1) (readyBlockData d.1.1) tlfName e
    = Ret d.2 e1.

(** The entry has a callback and its put has returned nil. *)
Definition wantsCb (d : putRecord) : bool :=
  hasCb d.1.1 && bool_decide (d.2 = None).

(** The calls to callbacks in a trace. *)
Definition cbCalls (tr : list event) : list event :=
  filter (λ ev, isCb ev) tr.

(** Since the call the server has been called for the entries [done], in
    this order and with these results, and the callbacks called or about
    to be called are those of the entries of [done] that have one and
    whose put returned nil. *)
Definition Called (ei : Env World) (s : @state World) (new : list event)
    (done : list putRecord) : Prop :=
  trace (env s) = trace ei ++ new
  ∧ serverCalls new = map (λ d, submission ctx tlfID d.1) done
  ∧ Forall isPutResult done
  ∧ cbCalls new ++ map cbCall (workers s ≫= heldCb)
    ≡ₚ map (λ d, cbCall d.1.1) (filter (λ d, wantsCb d) done).
End DoBlockPutsCallbacks.

(** * Properties *)

(** ** The put path *)
Section PutPathFacts.
Context {World : Type}.
Variable IsPublic : tlf.ID → bool.
Variable IsInd : ptr → bool.

Lemma isRecoverableBlockError_nil : isRecoverableBlockError None = false.
Proof. reflexivity. Qed.

Lemma isRecoverableBlockError_over_quota msg usage limit throttled :
  isRecoverableBlockError
    (Some (BServerErrorOverQuota msg usage limit throttled)) = false.
Proof. reflexivity. Qed.

Lemma putBlockToServer_returns ctx (bserv : BlockServer World) tlfID blockPtr
    rbd e :
  ∃ err e', putBlockToServer ctx bserv tlfID blockPtr rbd e = Ret err e'.
Proof.
  unfold putBlockToServer, BlockServer_Put, BlockServer_AddBlockReference,
    extern.
  case_decide.
  - destruct (bserver_Put _ _ _ _ _ _ _ _); eauto.
  - destruct (bserver_AddBlockReference _ _ _ _ _ _); eauto.
Qed.

(** C6.  [putBlockToServer] makes exactly one call to the block server.
    It is the full store call [bserv.Put], carrying the payload buffer and
    the server key half, exactly when the pointer's reference nonce is
    zero; otherwise it is [bserv.AddBlockReference], which carries no
    payload.  The error returned is the server's answer. *)
Theorem putBlockToServer_put_iff_zero_nonce ctx (bserv : BlockServer World)
    tlfID blockPtr rbd e :
  ∃ err e' ev,
    putBlockToServer ctx bserv tlfID blockPtr rbd e = Ret err e'
    ∧ trace e' = trace e ++ [ev]
    ∧ (RefNonce blockPtr = kbfsblock.ZeroRefNonce ↔
       ev = EvBServerPut ctx tlfID (ID blockPtr) (Context blockPtr)
              (buf rbd) (serverHalf rbd))
    ∧ (RefNonce blockPtr ≠ kbfsblock.ZeroRefNonce ↔
       ev = EvBServerAddBlockReference ctx tlfID (ID blockPtr)
              (Context blockPtr))
    ∧ (err, world e') =
        (if decide (RefNonce blockPtr = kbfsblock.ZeroRefNonce)
         then bserver_Put bserv ctx tlfID (ID blockPtr) (Context blockPtr)
                (buf rbd) (serverHalf rbd) (world e)
         else bserver_AddBlockReference bserv ctx tlfID (ID blockPtr)
                (Context blockPtr) (world e)).
Proof.
  unfold putBlockToServer, BlockServer_Put, BlockServer_AddBlockReference,
    extern.
  case_decide as Hz.
  - destruct (bserver_Put _ _ _ _ _ _ _ _) as [err w].
    eexists err, _, _. split; [reflexivity|]. simpl.
    repeat split; try done.
  - destruct (bserver_AddBlockReference _ _ _ _ _ _) as [err w].
    eexists err, _, _. split; [reflexivity|]. simpl.
    repeat split; try done.
Qed.

(** C4.  When the remote call fails with an over-quota error that is not
    throttled (soft), [PutBlockCheckQuota] reports an [OverQuotaWarning]
    with the usage and limit to the reporter and returns nil.  When the
    error is throttled (hard) it is returned unchanged with nothing
    reported, and [doOneBlockPut] returns it as the entry's error: no
    callback runs and nothing is sent on the channel. *)
Theorem PutBlockCheckQuota_over_quota ctx (bserv : BlockServer World)
    (reporter : Reporter World) tlfID tlfName (bs : blockState World) e
    msg usage limit throttled e1
    (Hremote : putBlockToServer ctx bserv tlfID (blockPtr bs)
                 (readyBlockData bs) e
               = Ret (Some (BServerErrorOverQuota msg usage limit throttled)) e1) :
  PutBlockCheckQuota IsPublic ctx bserv reporter tlfID (blockPtr bs)
    (readyBlockData bs) tlfName e
  = (if throttled
     then Ret (Some (BServerErrorOverQuota msg usage limit true)) e1
     else Ret None
            {| world := reporter_ReportErr reporter ctx tlfName
                          (IsPublic tlfID) WriteMode
                          (OverQuotaWarning usage limit) (world e1);
               trace := trace e1 ++
                          [EvReportErr ctx tlfName (IsPublic tlfID) WriteMode
                             (OverQuotaWarning usage limit)] |})
  ∧ (throttled = true → ∀ ch,
       doOneBlockPut IsPublic IsInd ctx bserv reporter tlfID tlfName bs ch e
       = Ret (Some (BServerErrorOverQuota msg usage limit true), ch) e1).
Proof.
  assert (Hq : PutBlockCheckQuota IsPublic ctx bserv reporter tlfID
                 (blockPtr bs) (readyBlockData bs) tlfName e
               = (if throttled
                  then Ret (Some (BServerErrorOverQuota msg usage limit true)) e1
                  else Ret None
                     {| world := reporter_ReportErr reporter ctx tlfName
                          (IsPublic tlfID) WriteMode
                          (OverQuotaWarning usage limit) (world e1);
                        trace := trace e1 ++
                          [EvReportErr ctx tlfName (IsPublic tlfID) WriteMode
                             (OverQuotaWarning usage limit)] |})).
  { unfold PutBlockCheckQuota, mbind, M_bind. rewrite Hremote.
    destruct throttled; reflexivity. }
  split; [exact Hq|].
  intros -> ch. unfold doOneBlockPut, mbind, M_bind at 1. rewrite Hq.
  reflexivity.
Qed.

End PutPathFacts.

Lemma PutBlockCheckQuota_over_quota_witness :
  PutBlockCheckQuota Fixtures.nonePublic Fixtures.ctx0
    (Fixtures.quotaServer false) Fixtures.quietReporter Fixtures.folder
    Fixtures.ptrA Fixtures.data "alice" Fixtures.e0
  = Ret None
      {| world := tt;
         trace := [EvBServerPut Fixtures.ctx0 Fixtures.folder [x0a]
                     Fixtures.zeroCtx [x01; x02; x03] [x09];
                   EvReportErr Fixtures.ctx0 "alice" false WriteMode
                     (OverQuotaWarning 120 100)] |}.
Proof.
  exact (proj1 (PutBlockCheckQuota_over_quota Fixtures.nonePublic
    Fixtures.noneInd Fixtures.ctx0 (Fixtures.quotaServer false)
    Fixtures.quietReporter Fixtures.folder "alice"
    (Fixtures.entry Fixtures.ptrA (FileBlockPtr 1%nat)) Fixtures.e0
    "over quota" 120 100 false _ eq_refl)).
Defined.

(** ** Polling a context *)
Section SelectFacts.
Context {World : Type}.
Variable baseErr : nat → World → error.

Lemma ctxDone_run ctx (e : Env World) :
  ctxDone baseErr ctx e
  = Ret (match context.Err baseErr ctx (world e) with
         | Some err => Some (Some err)
         | None => None
         end) e.
Proof.
  unfold ctxDone, observe, context.Done, mbind, M_bind, mret, M_ret.
  destruct (context.Err baseErr ctx (world e)) eqn:He.
  - rewrite bool_decide_eq_true_2 by done. by rewrite He.
  - by rewrite bool_decide_eq_false_2 by (intros Hn; by apply Hn).
Qed.
End SelectFacts.

(** ** The bandwidth throttle *)
Section ThrottleFacts.
Context {World : Type}.
Variable intBits : Z.
Variable baseErr : nat → World → error.
Variable Sleep : Z → World → World.
Context {D : Type} `{!BlockOps World D}.

Lemma goint_wrap_small x :
  intBits = 32 ∨ intBits = 64 →
  - 2 ^ (intBits - 1) ≤ x < 2 ^ (intBits - 1) →
  goint.wrap intBits x = x.
Proof.
  intros [-> | ->] Hx; unfold goint.wrap; simpl in *;
    rewrite Z.mod_small; lia.
Qed.

(** C7, as amended.  For a payload of S bytes and a configured rate of R
    KBps: when R is not positive there is no delay at all and the put is
    forwarded at once; when R is positive and neither S * 1_second nor
    R * 1024 overflows the platform's [int], the throttle sleeps exactly
    S * 1_second / (R * 1024) nanoseconds (integer division) under its
    lock and then forwards the put, unless the context is done after the
    sleep, in which case the context's error is returned instead. *)
Theorem throttle_delay_exact (b : BlockOpsConstrained.t) ctx md blockPtr rbd e
    (Hbits : intBits = 32 ∨ intBits = 64)
    (Hrange : 0 < BlockOpsConstrained.bwKBps b →
              Z.of_nat (length (buf rbd)) * time.Second < 2 ^ (intBits - 1)
              ∧ BlockOpsConstrained.bwKBps b * 1024 < 2 ^ (intBits - 1)) :
  let S := Z.of_nat (length (buf rbd)) in
  let R := BlockOpsConstrained.bwKBps b in
  let d := S * time.Second / (R * 1024) in
  let e1 := {| world := Sleep d (world e);
               trace := trace e ++ [EvLock; EvSleep d; EvUnlock] |} in
  if decide (R ≤ 0) then
    BlockOpsConstrained.delay intBits baseErr Sleep b ctx S e = Ret None e
    ∧ BlockOpsConstrained.Put intBits baseErr Sleep b ctx md blockPtr rbd e
      = BlockOps_Put (BlockOpsConstrained.IFCERFTBlockOps b) ctx md blockPtr
          rbd e
  else
    BlockOpsConstrained.delay intBits baseErr Sleep b ctx S e
    = Ret (context.Err baseErr ctx (world e1)) e1
    ∧ BlockOpsConstrained.Put intBits baseErr Sleep b ctx md blockPtr rbd e
      = match context.Err baseErr ctx (world e1) with
        | Some err => Ret (Some err) e1
        | None => BlockOps_Put (BlockOpsConstrained.IFCERFTBlockOps b) ctx md
                    blockPtr rbd e1
        end.
Proof.
  intros S R d e1. subst R.
  unfold BlockOpsConstrained.Put. fold S.
  unfold BlockOpsConstrained.delay.
  case_decide as HR.
  - split; reflexivity.
  - destruct Hrange as [HS HRr]; [lia|]. fold S in HS.
    assert (H2 : 2 ^ 31 ≤ 2 ^ (intBits - 1))
      by (destruct Hbits as [-> | ->]; simpl; lia).
    assert (HSec : goint.wrap intBits time.Second = time.Second).
    { apply goint_wrap_small; [done|]. unfold time.Second. lia. }
    assert (H0S : 0 ≤ S) by (unfold S; lia).
    assert (HSecPos : 0 < time.Second) by (unfold time.Second; lia).
    unfold goint.mul. rewrite HSec.
    rewrite (goint_wrap_small (S * time.Second)) by (done || lia).
    rewrite (goint_wrap_small (BlockOpsConstrained.bwKBps b * 1024))
      by (done || lia).
    unfold goint.quot.
    case_decide as Hz; [lia|].
    rewrite Z.quot_div_nonneg by lia. fold d.
    assert (Hd : 0 ≤ d ≤ S * time.Second).
    { unfold d. split; [apply Z.div_pos; lia|].
      apply Z.div_le_upper_bound; nia. }
    rewrite goint_wrap_small by (done || lia).
    assert (Hdelay :
      (emit EvLock;;
       r ← (BlockOpsConstrained.time_Sleep Sleep d;;
            c ← ctxDone baseErr ctx;
            match c with Some err => mret err | None => mret None end);
       emit EvUnlock;; mret r) e
      = Ret (context.Err baseErr ctx (world e1)) e1).
    { unfold mbind, M_bind, emit, BlockOpsConstrained.time_Sleep, extern.
      simpl. rewrite ctxDone_run. simpl. unfold e1. simpl.
      destruct (context.Err baseErr ctx (Sleep d (world e)));
        simpl; unfold mret, M_ret; simpl; by rewrite <- !app_assoc. }
    split; [exact Hdelay|].
    unfold mbind at 1, M_bind at 1. rewrite Hdelay.
    by destruct (context.Err baseErr ctx (world e1)).
Qed.
End ThrottleFacts.

Lemma throttle_delay_exact_witness :
  BlockOpsConstrained.delay 64 Fixtures.neverDone Fixtures.noSleep
    (BlockOpsConstrained.mk tt 100) Fixtures.ctx0 3 Fixtures.e0
  = Ret None {| world := tt; trace := [EvLock; EvSleep 29296; EvUnlock] |}.
Proof.
  refine (proj1 (throttle_delay_exact (BlockOps0 := Fixtures.okBlockOps)
    64 Fixtures.neverDone Fixtures.noSleep (BlockOpsConstrained.mk tt 100)
    Fixtures.ctx0 0%nat Fixtures.ptrA Fixtures.data Fixtures.e0 _ _)).
  - right; reflexivity.
  - intros _. simpl. unfold time.Second. lia.
Defined.

(** On a 64-bit platform a rate of 2^54 KBps makes [bwKBps * 1024] wrap to
    zero and the division panic, where the exact quotient is 0.  On a
    32-bit platform three bytes at 1 KBps make [size * int(time.Second)]
    wrap to a negative number, where the exact quotient is 2929687. *)
Lemma throttle_delay_wraps :
  BlockOpsConstrained.delay 64 Fixtures.neverDone Fixtures.noSleep
    (BlockOpsConstrained.mk tt (2 ^ 54)) Fixtures.ctx0 1 Fixtures.e0
  = Panic "runtime error: integer divide by zero"
  ∧ 1 * time.Second / (2 ^ 54 * 1024) = 0
  ∧ BlockOpsConstrained.delay 32 Fixtures.neverDone Fixtures.noSleep
      (BlockOpsConstrained.mk tt 1) Fixtures.ctx0 3 Fixtures.e0
    = Ret None {| world := tt;
                  trace := [EvLock; EvSleep (-1264616); EvUnlock] |}
  ∧ 3 * time.Second / (1 * 1024) = 2929687.
Proof. repeat split; vm_compute; reflexivity. Qed.

(** ** The stall-injection wrappers *)
Section StallFacts.
Context {World : Type}.
Context {BareTlfHandle : Type}.
Variable baseErr : nat → World → error.
Variable baseValue : nat → context.Value_t → context.Value_t.
Variable trySend : nat → World → bool * World.
Variable recv : nat → World → option World.
Context {DB : Type} `{!BlockOps World DB}.
Context {DM : Type} `{!@MDOps World BareTlfHandle DM}.

Lemma bind_passes_through {A} (stall : M World unit) (inner : M World A) :
  passes_through stall inner (stall;; inner).
Proof.
  intros e r e'. unfold mbind, M_bind. split.
  - destruct (stall e) as [[] e0| |] eqn:Hs; try done. eauto.
  - intros (e0 & -> & Hi). done.
Qed.

Lemma polled_passes_unless_done ctx (stall : M World unit)
    (inner : M World error) (between : M World unit) :
  passes_unless_done baseErr ctx stall inner between
    (stall;;
     c ← ctxDone baseErr ctx;
     match c with
     | Some cerr => mret cerr
     | None =>
         err ← inner;
         between;;
         c ← ctxDone baseErr ctx;
         match c with
         | Some cerr => mret cerr
         | None => mret err
         end
     end).
Proof.
  intros e r e'. unfold mbind, M_bind. split.
  - destruct (stall e) as [[] e0| |] eqn:Hs; try done.
    rewrite ctxDone_run. intros Hw. exists e0. split; [done|].
    destruct (context.Err baseErr ctx (world e0)) as [cerr|] eqn:He0.
    + unfold mret, M_ret in Hw. by inversion Hw.
    + destruct (inner e0) as [rd e1| |] eqn:Hi; try done.
      destruct (between e1) as [[] e2| |] eqn:Hb; try done.
      rewrite ctxDone_run in Hw.
      destruct (context.Err baseErr ctx (world e2)) as [cerr|] eqn:He2;
        unfold mret, M_ret in Hw; injection Hw as <- <-;
        exists rd, e1; rewrite He2; done.
  - intros (e0 & -> & Hw). rewrite ctxDone_run.
    destruct (context.Err baseErr ctx (world e0)) as [cerr|] eqn:He0.
    + by destruct Hw as [-> ->].
    + destruct Hw as (rd & e1 & -> & -> & ->). rewrite ctxDone_run.
      by destruct (context.Err baseErr ctx (world e')).
Qed.

Local Abbreviation bstall f ctx op :=
  (stallingBlockOps.maybeStall_ baseValue trySend recv f ctx op).
Local Abbreviation mstall m ctx op :=
  (stallingMDOps.maybeStall_ baseValue trySend recv m ctx op).

(** C3, as amended.  Every wrapped operation other than the puts returns
    exactly what its delegate returns, the delegate running once the stall
    is over.  [stallingBlockOps.Put], [stallingMDOps.Put] and
    [stallingMDOps.PutUnmerged] poll the context before and after the
    delegate's call: they return the delegate's value when the context is
    done at neither poll, and the context's error otherwise (without
    calling the delegate when the context is done at the first poll). *)
Theorem stalling_wrappers_results (f : stallingBlockOps.t)
    (m : stallingMDOps.t) (ctx : context.Context) :
  (∀ md p blk,
     passes_through (bstall f ctx StallableBlockGet)
       (BlockOps_Get (stallingBlockOps.delegate f) ctx md p blk)
       (stallingBlockOps.Get baseValue trySend recv f ctx md p blk))
  ∧ (∀ md blk,
     passes_through (bstall f ctx StallableBlockReady)
       (BlockOps_Ready (stallingBlockOps.delegate f) ctx md blk)
       (stallingBlockOps.Ready baseValue trySend recv f ctx md blk))
  ∧ (∀ md ptrs,
     passes_through (bstall f ctx StallableBlockDelete)
       (BlockOps_Delete (stallingBlockOps.delegate f) ctx md ptrs)
       (stallingBlockOps.Delete baseValue trySend recv f ctx md ptrs))
  ∧ (∀ md ptrs,
     passes_through (bstall f ctx StallableBlockArchive)
       (BlockOps_Archive (stallingBlockOps.delegate f) ctx md ptrs)
       (stallingBlockOps.Archive baseValue trySend recv f ctx md ptrs))
  ∧ (∀ md p rbd,
     passes_unless_done baseErr ctx (bstall f ctx StallableBlockPut)
       (BlockOps_Put (stallingBlockOps.delegate f) ctx md p rbd)
       (mret tt)
       (stallingBlockOps.Put baseErr baseValue trySend recv f ctx md p rbd))
  ∧ (∀ h,
     passes_through (mstall m ctx StallableMDGetForHandle)
       (MDOps_GetForHandle (stallingMDOps.delegate m) ctx h)
       (stallingMDOps.GetForHandle baseValue trySend recv m ctx h))
  ∧ (∀ h,
     passes_through (mstall m ctx StallableMDGetUnmergedForHandle)
       (MDOps_GetUnmergedForHandle (stallingMDOps.delegate m) ctx h)
       (stallingMDOps.GetUnmergedForHandle baseValue trySend recv m ctx h))
  ∧ (∀ id,
     passes_through (mstall m ctx StallableMDGetForTLF)
       (MDOps_GetForTLF (stallingMDOps.delegate m) ctx id)
       (stallingMDOps.GetForTLF baseValue trySend recv m ctx id))
  ∧ (∀ id,
     passes_through (mstall m ctx StallableMDGetLatestHandleForTLF)
       (MDOps_GetLatestHandleForTLF (stallingMDOps.delegate m) ctx id)
       (stallingMDOps.GetLatestHandleForTLF baseValue trySend recv m ctx id))
  ∧ (∀ id bid,
     passes_through (mstall m ctx StallableMDGetUnmergedForTLF)
       (MDOps_GetUnmergedForTLF (stallingMDOps.delegate m) ctx id bid)
       (stallingMDOps.GetUnmergedForTLF baseValue trySend recv m ctx id bid))
  ∧ (∀ id start stop,
     passes_through (mstall m ctx StallableMDGetRange)
       (MDOps_GetRange (stallingMDOps.delegate m) ctx id start stop)
       (stallingMDOps.GetRange baseValue trySend recv m ctx id start stop))
  ∧ (∀ id bid start stop,
     passes_through (mstall m ctx StallableMDGetUnmergedRange)
       (MDOps_GetUnmergedRange (stallingMDOps.delegate m) ctx id bid start stop)
       (stallingMDOps.GetUnmergedRange baseValue trySend recv m ctx id bid
          start stop))
  ∧ (∀ md,
     passes_unless_done baseErr ctx (mstall m ctx StallableMDPut)
       (MDOps_Put (stallingMDOps.delegate m) ctx md)
       (mstall m ctx StallableMDAfterPut)
       (stallingMDOps.Put baseErr baseValue trySend recv m ctx md))
  ∧ (∀ md bid,
     passes_unless_done baseErr ctx (mstall m ctx StallableMDPutUnmerged)
       (MDOps_PutUnmerged (stallingMDOps.delegate m) ctx md bid)
       (mret tt)
       (stallingMDOps.PutUnmerged baseErr baseValue trySend recv m ctx md bid)).
Proof.
  repeat apply conj; intros;
    first [ exact (bind_passes_through _ _)
          | exact (polled_passes_unless_done _ _ _ _) ].
Qed.
End StallFacts.

(** The context is cancelled while the delegate's put is outstanding: the
    delegate returns nil, the wrapper returns the cancellation error. *)
Lemma stalling_Put_replaces_result :
  let f := stallingBlockOps.mk "Get" None ∅ tt in
  let e := {| world := false; trace := [] |} in
  @BlockOps_Put bool unit Fixtures.slowBlockOps (stallingBlockOps.delegate f)
    Fixtures.ctx0 0%nat Fixtures.ptrA Fixtures.data e
  = Ret None {| world := true; trace := [] |}
  ∧ stallingBlockOps.Put (BlockOps0 := Fixtures.slowBlockOps)
      Fixtures.flagErr Fixtures.noValue Fixtures.sendOk Fixtures.recvOk f
      Fixtures.ctx0 0%nat Fixtures.ptrA Fixtures.data e
    = Ret (Some Canceled) {| world := true; trace := [] |}.
Proof. split; reflexivity. Qed.

(** ** Block assembly *)
Section AssembleFacts.
Context {World : Type}.
Context {KeyMetadata TLFCryptKey BlockCryptKey EncryptedBlock Payload : Type}.
Variable hash : bytes → kbfsblock.ID.
Variable UnmaskBlockCryptKey : bytes → TLFCryptKey → BlockCryptKey.

Local Abbreviation assemble :=
  (@assembleBlock World KeyMetadata TLFCryptKey BlockCryptKey EncryptedBlock
     Payload hash UnmaskBlockCryptKey).

Lemma assembleBlock_mismatch ctx keyGetter codec crypto kmd blockPtr block
    buf half e :
  hash buf ≠ ID blockPtr →
  assemble ctx keyGetter codec crypto kmd blockPtr block buf half e
  = Ret (Some (IntegrityViolationError (ID blockPtr) (hash buf)), block) e.
Proof.
  intros Hne. unfold assembleBlock, VerifyID.
  by rewrite decide_False.
Qed.

(** A successful run, step by step. *)
Lemma assembleBlock_success ctx keyGetter codec crypto kmd blockPtr block
    buf half e key w1 eb b1 :
  hash buf = ID blockPtr →
  keyGetter_GetTLFCryptKeyForBlockDecryption keyGetter ctx kmd blockPtr
    (world e) = ((key, None), w1) →
  codec_Decode codec buf = (eb, None) →
  crypto_DecryptBlock crypto eb (UnmaskBlockCryptKey half key) block
    = (b1, None) →
  assemble ctx keyGetter codec crypto kmd blockPtr block buf half e
  = Ret (None, SetEncodedSize (goint.uint32 (Z.of_nat (length buf))) b1)
      {| world := w1;
         trace := trace e ++
           [EvGetTLFCryptKeyForBlockDecryption ctx blockPtr; EvDecode buf;
            EvDecryptBlock] |}.
Proof.
  intros Hh Hk Hd Hc. unfold assembleBlock, VerifyID.
  rewrite decide_True by done.
  unfold mbind, M_bind, extern, emit. rewrite Hk. cbn [world trace].
  rewrite Hd. cbn [world trace]. rewrite Hc.
  unfold mret, M_ret. by rewrite <- !app_assoc.
Qed.

(** Whatever the collaborators answer, a run that returns nil went through
    the hash check and set the size last. *)
Lemma assembleBlock_nil_inv ctx keyGetter codec crypto kmd blockPtr block
    buf half e b' e' :
  assemble ctx keyGetter codec crypto kmd blockPtr block buf half e
  = Ret (None, b') e' →
  hash buf = ID blockPtr
  ∧ EncodedSize b' = goint.uint32 (Z.of_nat (length buf)).
Proof.
  unfold assembleBlock, VerifyID. case_decide as Hh; [|done].
  unfold mbind, M_bind, extern, emit.
  destruct (keyGetter_GetTLFCryptKeyForBlockDecryption _ _ _ _ _)
    as [[key [e1|]] w1]; [done|].
  cbn [world trace].
  destruct (codec_Decode codec buf) as [eb [e2|]]; [done|].
  cbn [world trace].
  destruct (crypto_DecryptBlock _ _ _ _) as [b1 [e3|]]; [done|].
  unfold mret, M_ret. intros Hr. injection Hr as <- <-. done.
Qed.

(** C8, as amended.  When the buffer's content hash differs from the
    pointer's block ID, [assembleBlock] fails with the integrity-violation
    error, asks for no key and decrypts nothing (world, trace and block are
    as before).  Whenever it succeeds, the hash matched and the block's
    encoded size, a [uint32], has been set to the buffer's length modulo
    2^32, which is the buffer's length for every buffer shorter than 2^32
    bytes. *)
Theorem assembleBlock_integrity_and_size ctx keyGetter codec crypto kmd
    blockPtr block buf half e :
  (hash buf ≠ ID blockPtr →
   assemble ctx keyGetter codec crypto kmd blockPtr block buf half e
   = Ret (Some (IntegrityViolationError (ID blockPtr) (hash buf)), block) e)
  ∧ (∀ b' e',
       assemble ctx keyGetter codec crypto kmd blockPtr block buf half e
       = Ret (None, b') e' →
       hash buf = ID blockPtr
       ∧ EncodedSize b' = Z.of_nat (length buf) mod 2 ^ 32
       ∧ (Z.of_nat (length buf) < 2 ^ 32 →
          EncodedSize b' = Z.of_nat (length buf))).
Proof.
  split; [apply assembleBlock_mismatch|].
  intros b' e' Hrun. apply assembleBlock_nil_inv in Hrun as [Hh Hsz].
  unfold goint.uint32 in Hsz. repeat split; try done.
  intros Hlt. rewrite Hsz. apply Z.mod_small. lia.
Qed.
End AssembleFacts.

(** A buffer of 2^32 bytes is assembled with encoded size 0. *)
Lemma assembleBlock_size_wraps :
  let buf := replicate (Z.to_nat (2 ^ 32)) x00 in
  ∃ b' e',
    assembleBlock Fixtures.stubHash Fixtures.stubUnmask Fixtures.ctx0
      Fixtures.stubKeyGetter Fixtures.stubCodec Fixtures.stubCrypto tt
      Fixtures.ptrA (mkBlockObj 7 tt) buf [] Fixtures.e0
    = Ret (None, b') e'
    ∧ EncodedSize b' = 0
    ∧ Z.of_nat (length buf) = 4294967296.
Proof.
  intros buf.
  assert (Hlen : Z.of_nat (length buf) = 4294967296).
  { unfold buf. rewrite length_replicate. by rewrite Z2Nat.id. }
  clearbody buf.
  eexists _, _. split; [|split; [|exact Hlen]].
  - eapply (assembleBlock_success (World := unit)); reflexivity.
  - unfold SetEncodedSize, EncodedSize, goint.uint32. by rewrite Hlen.
Qed.

(** ** Lists of workers *)
Import Instances.Lists.

#[global] Instance Permutation_AAC_lift {A} :
  AAC_lift (@Permutation A) (@Permutation A).
Proof. split; [apply _|]. intros x x' Hx y y' Hy. by rewrite Hx, Hy. Qed.

Section WorkerLists.
Context {A B : Type}.

Lemma sum_list_insert (f : A → nat) (l : list A) i x y :
  l !! i = Some x →
  (sum_list (f <$> <[i := y]> l) + f x = sum_list (f <$> l) + f y)%nat.
Proof.
  revert i. induction l as [|a l IH]; intros [|i] Hi; simplify_eq/=.
  - lia.
  - specialize (IH _ Hi). lia.
Qed.

Lemma sum_list_lookup_le (f : A → nat) (l : list A) i x :
  l !! i = Some x → (f x ≤ sum_list (f <$> l))%nat.
Proof.
  revert i. induction l as [|a l IH]; intros [|i] Hi; simplify_eq/=.
  - lia.
  - specialize (IH _ Hi). lia.
Qed.

Lemma sum_list_le_length (f : A → nat) (l : list A) :
  (∀ x, f x ≤ 1)%nat → (sum_list (f <$> l) ≤ length l)%nat.
Proof.
  intros Hf. induction l as [|a l IH]; cbn; [lia|].
  specialize (Hf a). lia.
Qed.

Lemma bind_insert_perm (f : A → list B) (l : list A) i x y :
  l !! i = Some x →
  (<[i := y]> l ≫= f) ++ f x ≡ₚ (l ≫= f) ++ f y.
Proof.
  revert i. induction l as [|a l IH]; intros [|i] Hi; simplify_eq/=.
  - rewrite (Permutation_app_comm (f y ++ (l ≫= f)) (f x)).
    rewrite <- (assoc_L (++) (f x)). apply Permutation_app_head.
    apply Permutation_app_comm.
  - rewrite <- !(assoc_L (++)). apply Permutation_app_head. by apply IH.
Qed.

Lemma bind_insert_perm_l (f : A → list B) (l : list A) i x y :
  l !! i = Some x → f x = [] →
  <[i := y]> l ≫= f ≡ₚ (l ≫= f) ++ f y.
Proof.
  intros Hi Hx. rewrite <- (bind_insert_perm f l i x y Hi), Hx.
  by rewrite app_nil_r.
Qed.

Lemma sum_list_three (f g h : A → nat) (l : list A) :
  (∀ x, f x + g x + h x = 1)%nat →
  (sum_list (f <$> l) + sum_list (g <$> l) + sum_list (h <$> l)
   = length l)%nat.
Proof.
  intros Hone. induction l as [|a l IH]; cbn; [done|].
  specialize (Hone a). lia.
Qed.

Lemma bind_nil_sum (f : A → list B) (g : A → nat) (l : list A) :
  (∀ x, g x = 0%nat → f x = []) → sum_list (g <$> l) = 0%nat → l ≫= f = [].
Proof.
  intros Hfg. induction l as [|a l IH]; cbn; [done|].
  intros Hs. rewrite (Hfg a) by lia. rewrite IH by lia. done.
Qed.

Lemma bind_insert_nil (f : A → list B) (l : list A) i x y :
  l !! i = Some x → f x = [] → f y = [] → <[i := y]> l ≫= f = l ≫= f.
Proof.
  revert i. induction l as [|a l IH]; intros [|i] Hi Hx Hy; simplify_eq/=.
  - by rewrite Hx, Hy.
  - f_equal. by apply IH.
Qed.

Lemma bind_replicate_nil (f : A → list B) n x :
  f x = [] → replicate n x ≫= f = [].
Proof. intros Hx. induction n as [|n IH]; csimpl; [done|]. by rewrite Hx, IH. Qed.

Lemma bind_nil_Forall (f : A → list B) (l : list A) :
  Forall (λ x, f x = []) l → l ≫= f = [].
Proof. induction 1 as [|x l Hx _ IH]; csimpl; [done|]. by rewrite Hx, IH. Qed.
End WorkerLists.

(** ** The orchestrator: steps and schedules *)
Section DoBlockPutsSteps.
Context {World : Type}.
Variable IsPublic : tlf.ID → bool.
Variable IsInd : ptr → bool.
Variable maxParallelBlockPuts : nat.
Variable ctx : context.Context.
Variable bserv : BlockServer World.
Variable bcache : BlockCache World.
Variable reporter : Reporter World.
Variable tlfID : tlf.ID.
Variable tlfName : CanonicalTlfName.
Variable bps : blockPutState World.

Local Abbreviation step_ :=
  (step IsPublic IsInd maxParallelBlockPuts ctx bserv bcache reporter tlfID
     tlfName bps).
Local Abbreviation run_ :=
  (run IsPublic IsInd maxParallelBlockPuts ctx bserv bcache reporter tlfID
     tlfName bps).
Local Abbreviation Step_ :=
  (Step IsPublic IsInd maxParallelBlockPuts ctx bserv bcache reporter tlfID
     tlfName bps).

Lemma step_Step t s s' : step_ t s = Some s' → Step_ t s s'.
Proof.
  unfold step. destruct t as [|i].
  - destruct (main_pc s) as [[|b rest]| | |] eqn:Hpc; try done.
    + intros [= <-]. by apply Step_close.
    + case_decide; [|done]. intros [= <-]. by eapply Step_send.
    + destruct (forallb isDone (workers s)) eqn:Hd; [|done].
      intros [= <-]. by apply Step_wait.
  - destruct (workers s !! i) as [[|bs|bs cb|fblock e|err]|] eqn:Hw; try done.
    + destruct (blocks s) as [|b rest] eqn:Hb.
      * destruct (blocksClosed s) eqn:Hc; [|done].
        intros [= <-]. by apply Step_exit.
      * intros [= <-]. by eapply Step_recv.
    + destruct (PutBlockCheckQuota _ _ _ _ _ _ _ _ _) as [err e| |] eqn:Hp;
        try done.
      destruct err as [er|].
      * intros [= <-].
        by refine (Step_put _ _ _ _ _ _ _ _ _ _ s i bs (Some er) e Hw Hp _).
      * destruct (syncedCb bs) as [cb|] eqn:Hcb; intros [= <-].
        -- by eapply Step_put_cb.
        -- by refine (Step_put _ _ _ _ _ _ _ _ _ _ s i bs None e Hw Hp _).
    + destruct (extern _ _ _) as [err e| |] eqn:Hp; try done.
      intros [= <-]. by eapply Step_cb.
    + case_decide; [|done]. intros [= <-]. by eapply Step_chan.
Qed.

Lemma Step_step t s s' : Step_ t s s' → step_ t s = Some s'.
Proof.
  destruct 1 as [s b rest Hpc Hlen|s Hpc|s Hpc Hd|s i b rest Hw Hb
                |s i Hw Hb Hc|s i bs cb e Hw Hp Hcb|s i bs err e Hw Hp Hcb
                |s i bs cb err e Hw Hp|s i fblock e Hw Hlen]; unfold step.
  - rewrite Hpc. by rewrite decide_True.
  - by rewrite Hpc.
  - by rewrite Hpc, Hd.
  - by rewrite Hw, Hb.
  - by rewrite Hw, Hb, Hc.
  - by rewrite Hw, Hp, Hcb.
  - rewrite Hw, Hp. destruct err; [done|]. by rewrite Hcb.
  - by rewrite Hw, Hp.
  - rewrite Hw. by rewrite decide_True.
Qed.

Lemma afterCalls_cases i (bs : blockState World) err (s : state) :
  (err = None ∧ afterCalls IsInd i bs err s = setWorker i WRecv s)
  ∨ (∃ e fblock, err = Some e ∧ blockToRemove IsInd bs err = Some fblock
       ∧ afterCalls IsInd i bs err s = setWorker i (WSend fblock e) s)
  ∨ (∃ e, err = Some e ∧ blockToRemove IsInd bs err = None
       ∧ afterCalls IsInd i bs err s = workerReturn i err s).
Proof.
  unfold afterCalls. destruct err as [e|]; [|by left].
  destruct (blockToRemove IsInd bs (Some e)) as [fblock|] eqn:Hb.
  - right; left. by exists e, fblock.
  - right; right. by exists e.
Qed.

Lemma blockToRemove_Some (bs : blockState World) err fblock :
  blockToRemove IsInd bs err = Some fblock →
  block bs = FileBlockPtr fblock ∧ IsInd fblock = false
  ∧ isRecoverableBlockError err = true ∧ err ≠ None.
Proof.
  unfold blockToRemove.
  destruct (bool_decide (err ≠ None)) eqn:Hn; [|done].
  apply bool_decide_eq_true in Hn.
  destruct (isRecoverableBlockError err) eqn:Hr; [|done]. simpl.
  destruct (block bs) as [p|p|p]; try done.
  destruct (IsInd p) eqn:Hi; [done|]. by intros [= <-].
Qed.

Lemma run_app sched1 sched2 (s : state) :
  run_ (sched1 ++ sched2) s
  = match run_ sched1 s with Some s1 => run_ sched2 s1 | None => None end.
Proof.
  revert s. induction sched1 as [|t sched1 IH]; intros s; simpl; [done|].
  by destruct (step_ t s).
Qed.

(** An invariant of the steps holds along every schedule. *)
Lemma run_invariant (P : state → Prop) :
  (∀ t s s', P s → Step_ t s s' → P s') →
  ∀ sched s s', P s → run_ sched s = Some s' → P s'.
Proof.
  intros Hstep sched. induction sched as [|t sched IH]; intros s s' Hs; simpl.
  - by intros [= <-].
  - destruct (step_ t s) as [s1|] eqn:Ht; [|done].
    apply IH. eapply Hstep; [done|]. by apply step_Step.
Qed.
Local Abbreviation drain_ := (drain ctx bcache tlfID bps).
Local Abbreviation afterWait_ := (afterWait ctx bcache tlfID bps).
Local Abbreviation entriesOf_ := (entriesOf bps).
Local Abbreviation Inv_ := (Inv maxParallelBlockPuts bps).
Local Abbreviation numWorkers_ := (numWorkers maxParallelBlockPuts bps).
Local Abbreviation init_ := (init maxParallelBlockPuts bps).

(** *** The cleanup loop *)

Local Abbreviation afterDeletes_ := (afterDeletes ctx bcache tlfID).

Lemma drain_cons fblock ch acc (e : Env World) p :
  last (acc ++ map blockPtr (entriesOf_ fblock)) = Some p →
  drain_ (fblock :: ch) acc e
  = drain_ ch (acc ++ map blockPtr (entriesOf_ fblock))
      (afterDeletes_ fblock p e).
Proof.
  intros Hlast. cbn [drain]. fold (entriesOf_ fblock). rewrite Hlast.
  unfold afterDeletes, mbind, M_bind, BlockCache_DeleteKnownPtr,
    BlockCache_DeleteTransient, extern, log_CWarningf, emit, mret, M_ret.
  destruct (bcache_DeleteKnownPtr bcache tlfID fblock (world e))
    as [[e1|] w1]; cbn [world trace];
  destruct (bcache_DeleteTransient bcache p tlfID w1)
    as [[e2|] w2]; cbn [world trace];
  repeat rewrite <- (assoc_L (++)); simpl; reflexivity.
Qed.

Lemma drain_cons_panic fblock ch acc (e : Env World) :
  last (acc ++ map blockPtr (entriesOf_ fblock)) = None →
  drain_ (fblock :: ch) acc e = Panic "runtime error: index out of range".
Proof.
  intros Hlast. cbn [drain]. fold (entriesOf_ fblock). rewrite Hlast.
  unfold mbind, M_bind, BlockCache_DeleteKnownPtr, extern, log_CWarningf,
    emit, mret, M_ret, panic.
  by destruct (bcache_DeleteKnownPtr bcache tlfID fblock (world e))
    as [[e1|] w1].
Qed.

Lemma drain_not_blocked ch acc (e : Env World) : drain_ ch acc e ≠ Blocked.
Proof.
  revert acc e. induction ch as [|fblock ch IH]; intros acc e; [done|].
  destruct (last (acc ++ map blockPtr (entriesOf_ fblock))) as [p|] eqn:Hl.
  - rewrite (drain_cons _ _ _ _ _ Hl). apply IH.
  - by rewrite (drain_cons_panic _ _ _ _ Hl).
Qed.

Lemma last_entries_Some fblock (acc : list BlockPointer) :
  entriesOf_ fblock ≠ [] →
  ∃ p, last (acc ++ map blockPtr (entriesOf_ fblock)) = Some p.
Proof.
  intros Hne.
  destruct (last (acc ++ map blockPtr (entriesOf_ fblock))) as [p|] eqn:Hl;
    [by exists p|].
  apply last_None, app_eq_nil in Hl as [_ Hl].
  by apply map_eq_nil in Hl.
Qed.

Lemma drain_returns ch acc (e : Env World) :
  Forall (λ fblock, entriesOf_ fblock ≠ []) ch →
  ∃ blocksToRemove e', drain_ ch acc e = Ret blocksToRemove e'.
Proof.
  intros Hch. revert acc e.
  induction Hch as [|fblock ch Hf _ IH]; intros acc e.
  - by exists acc, e.
  - destruct (last_entries_Some fblock acc Hf) as [p Hl].
    rewrite (drain_cons _ _ _ _ _ Hl). apply IH.
Qed.

(** [afterWait] leaves everything but the caller, the drained channel and
    the environment as it was. *)
Lemma afterWait_cases (s : state) :
  ∃ pc e,
    afterWait_ s
    = {| main_pc := pc; blocks := blocks s; blocksClosed := blocksClosed s;
         workers := workers s; blocksToRemoveChan := [];
         eg_err := eg_err s; env := e |}
    ∧ ((isRecoverableBlockError (eg_err s) = false
        ∧ pc = MReturned [] (eg_err s) ∧ e = env s)
       ∨ (isRecoverableBlockError (eg_err s) = true
          ∧ ∃ blocksToRemove,
              drain_ (blocksToRemoveChan s) [] (env s) = Ret blocksToRemove e
              ∧ pc = MReturned blocksToRemove (eg_err s))
       ∨ (isRecoverableBlockError (eg_err s) = true
          ∧ ∃ msg,
              drain_ (blocksToRemoveChan s) [] (env s) = Panic msg
              ∧ pc = MPanicked msg ∧ e = env s)).
Proof.
  unfold afterWait.
  destruct (isRecoverableBlockError (eg_err s)) eqn:Hr.
  - destruct (drain_ (blocksToRemoveChan s) [] (env s))
      as [ptrs e| msg |] eqn:Hd.
    + eexists _, _. split; [done|]. right; left. eauto.
    + eexists _, _. split; [done|]. right; right. eauto.
    + by apply drain_not_blocked in Hd.
  - eexists _, _. split; [done|]. by left.
Qed.

(** *** Case analysis on a step *)
Local Ltac step_cases H :=
  destruct H as [s b rest Hpc Hlen|s Hpc|s Hpc Hd|s i b rest Hw Hb
                |s i Hw Hb Hc|s i bs cb e Hw Hp Hcb|s i bs err e Hw Hp Hcb
                |s i bs cb err e Hw Hp|s i fblock e Hw Hlen];
  [ | | | | |
  | destruct (afterCalls_cases i bs err (setEnv e s))
      as [(-> & ->)|[(e0 & fb & -> & Hrm & ->)|(e0 & -> & Hrm & ->)]]
  | destruct (afterCalls_cases i bs err (setEnv e s))
      as [(-> & ->)|[(e0 & fb & -> & Hrm & ->)|(e0 & -> & Hrm & ->)]]
  | ].

(** The same, with the three ways [afterWait] can end spelled out. *)
Local Ltac step_cases_wait H :=
  destruct H as [s b rest Hpc Hlen|s Hpc|s Hpc Hd|s i b rest Hw Hb
                |s i Hw Hb Hc|s i bs cb e Hw Hp Hcb|s i bs err e Hw Hp Hcb
                |s i bs cb err e Hw Hp|s i fblock e Hw Hlen];
  [ | | destruct (afterWait_cases s) as (pc & e & -> & Haw) | | |
  | destruct (afterCalls_cases i bs err (setEnv e s))
      as [(-> & ->)|[(e0 & fb & -> & Hrm & ->)|(e0 & -> & Hrm & ->)]]
  | destruct (afterCalls_cases i bs err (setEnv e s))
      as [(-> & ->)|[(e0 & fb & -> & Hrm & ->)|(e0 & -> & Hrm & ->)]]
  | ].

(** Rewrite with an equation everywhere but in itself. *)
Local Ltac rew_all E :=
  match type of E with
  | ?l = _ =>
      repeat match goal with
             | Hx : context [l] |- _ =>
                 lazymatch Hx with E => fail | _ => rewrite E in Hx end
             end;
      try rewrite E
  end.

Local Ltac norm_Forall :=
  repeat (progress rewrite ?Forall_app, ?Forall_cons, ?Forall_nil in * ).

(** The counters of a pool after worker [i] has moved from [w] to [w']. *)
Local Ltac count_insert Hw w' :=
  let H1 := fresh "Hfailed" in
  let H2 := fresh "Hexited" in
  let H3 := fresh "Hrunning" in
  let H4 := fresh "Hmeasure" in
  pose proof (sum_list_insert failed _ _ _ w' Hw) as H1;
  pose proof (sum_list_insert exited _ _ _ w' Hw) as H2;
  pose proof (sum_list_insert running _ _ _ w' Hw) as H3;
  pose proof (sum_list_insert workerMeasure _ _ _ w' Hw) as H4;
  cbn [failed exited running workerMeasure isDone] in H1, H2, H3, H4.

(** Worker [i] moves to the state that the goal inserts at [i]. *)
Local Ltac count_step Hw :=
  match goal with
  | |- context [<[_ := ?w']> _] => count_insert Hw w'
  end.

Lemma forallb_isDone (ws : list (@worker World)) :
  forallb isDone ws = true ↔ sum_list (running <$> ws) = 0%nat.
Proof.
  induction ws as [|w ws IH]; cbn; [done|].
  unfold running at 1. destruct (isDone w); simpl; [done|].
  split; [done|lia].
Qed.

Lemma afterWait_measure (s : state) :
  (measure (afterWait_ s) + mainMeasure (main_pc s)
   = measure s)%nat.
Proof.
  destruct (afterWait_cases s) as (pc & e & -> & Hc).
  unfold measure; simpl.
  destruct Hc as [(_ & -> & _)|[(_ & ptrs & _ & ->)|(_ & msg & _ & -> & _)]];
    simpl; lia.
Qed.

(** Every step uses up some of the measure: no schedule runs for ever. *)
Lemma Step_measure t s s' : Step_ t s s' → (measure s' < measure s)%nat.
Proof.
  intros Hstep. step_cases Hstep;
    try (pose proof (afterWait_measure s) as Hm; rewrite Hpc in Hm; simpl in Hm;
         lia);
    unfold measure; simpl;
    try rewrite Hpc; try rewrite Hb; simpl; rewrite ?length_app; simpl;
    try lia.
  all: count_step Hw; lia.
Qed.

Lemma run_measure sched s s' :
  run_ sched s = Some s' → (measure s' + length sched ≤ measure s)%nat.
Proof.
  revert s. induction sched as [|t sched IH]; intros s; simpl.
  - intros [= <-]. lia.
  - destruct (step_ t s) as [s1|] eqn:Ht; [|done].
    intros Hr. apply IH in Hr. apply step_Step, Step_measure in Ht. lia.
Qed.

Lemma Inv_init e : Inv_ (init_ e).
Proof.
  constructor; simpl.
  - apply length_replicate.
  - lia.
  - lia.
  - done.
  - rewrite fmap_replicate, sum_list_replicate. simpl. lia.
  - done.
  - unfold pending; simpl.
    rewrite !bind_replicate_nil by done. rewrite !app_nil_r.
    by apply Forall_forall.
  - by rewrite bind_replicate_nil.
  - intros _. rewrite fmap_replicate, sum_list_replicate. simpl. lia.
  - done.
  - by apply Forall_replicate.
Qed.

Lemma Forall_bind_insert {A B} (P : B → Prop) (f : A → list B) (l : list A)
    i x y :
  l !! i = Some x → Forall P (l ≫= f) → Forall P (f y) →
  Forall P (<[i := y]> l ≫= f).
Proof.
  intros Hi Hl Hy.
  assert (Hall : Forall P ((<[i := y]> l ≫= f) ++ f x)).
  { rewrite (bind_insert_perm f l i x y Hi). by apply Forall_app. }
  by apply Forall_app in Hall as [? _].
Qed.

Lemma Forall_bind_lookup {A B} (P : B → Prop) (f : A → list B) (l : list A)
    i x :
  l !! i = Some x → Forall P (l ≫= f) → Forall P (f x).
Proof.
  revert i. induction l as [|a l IH]; intros [|i] Hi; simplify_eq/=;
    rewrite Forall_app; intros [? ?]; eauto.
Qed.

(** The arithmetic part of the invariant. *)
Lemma Inv_step_counts t s s' :
  Inv_ s → Step_ t s s' →
  length (workers s') = numWorkers_
  ∧ (length (blocksToRemoveChan s') ≤ sum_list (failed <$> workers s'))%nat
  ∧ (length (blocks s') + length (unsent (main_pc s'))
     ≤ length (blockStates bps))%nat
  ∧ (eg_err s' = None → sum_list (failed <$> workers s') = 0%nat).
Proof.
  intros HI Hstep.
  step_cases_wait Hstep;
    destruct HI as [Iw Ichan Icap Iclosed Iexit Idone Imem Ifb Ierr Inopanic Icb];
    simpl in *; rewrite ?length_insert, ?length_app; simpl.
  all: try rewrite Hpc in *; try rewrite Hb in *; simpl in *.
  all: try (split; [done|split; [lia|split; [lia|done]]]).
  1: { destruct Haw
         as [(_ & -> & _)|[(_ & ptrs & _ & ->)|(_ & msg & _ & -> & _)]];
       simpl; (split; [done|split; [lia|split; [lia|done]]]). }
  all: count_step Hw; (split; [done|split; [lia|split; [lia|]]]).
  all: destruct (eg_err s); try done; intros _; specialize (Ierr eq_refl); lia.
Qed.

(** The part of the invariant about who has stopped. *)
Lemma Inv_step_control t s s' :
  Inv_ s → Step_ t s s' →
  blocksClosed s' = match main_pc s' with MSend _ => false | _ => true end
  ∧ ((0 < sum_list (exited <$> workers s'))%nat →
     blocks s' = [] ∧ blocksClosed s' = true)
  ∧ match main_pc s' with
    | MSend _ => True
    | MWait => True
    | _ => sum_list (running <$> workers s') = 0%nat
    end.
Proof.
  intros HI Hstep.
  step_cases_wait Hstep;
    destruct HI as [Iw Ichan Icap Iclosed Iexit Idone Imem Ifb Ierr Inopanic Icb];
    simpl in *; try rew_all Hpc; try rew_all Hb; simpl in *.
  1: { split; [done|]. split; [|done]. intros Hx.
       destruct (Iexit Hx). congruence. }
  1: { split; [done|]. split; [|done]. intros Hx. by destruct (Iexit Hx). }
  1: { apply forallb_isDone in Hd.
       destruct Haw
         as [(_ & -> & _)|[(_ & ptrs & _ & ->)|(_ & msg & _ & -> & _)]];
       simpl; done. }
  all: count_step Hw.
  all: pose proof (sum_list_lookup_le running _ _ _ Hw) as Hrun;
       cbn [running isDone] in Hrun.
  all: split; [done|]; split;
       [ intros Hx; try (by split);
         try (assert (Hx' : (0 < sum_list (exited <$> workers s))%nat) by lia;
              by destruct (Iexit Hx'))
       | destruct (main_pc s); try done; lia ].
Qed.

(** Every entry in flight comes from the batch. *)
Lemma Inv_step_mem t s s' :
  Inv_ s → Step_ t s s' →
  Forall (λ bs, bs ∈ blockStates bps) (pending s' ++ (workers s' ≫= heldCb)).
Proof.
  intros HI Hstep.
  pose proof (inv_mem _ _ _ HI) as Imem. unfold pending in Imem.
  rewrite !Forall_app in Imem. destruct Imem as [(Hu & Hq & Hp') Hc'].
  clear HI.
  step_cases_wait Hstep;
    unfold pending in *; simpl in *; try rew_all Hpc; try rew_all Hb;
    simpl in *; norm_Forall.
  1-2: tauto.
  1: { destruct Haw
         as [(_ & -> & _)|[(_ & ptrs & _ & ->)|(_ & msg & _ & -> & _)]];
       simpl; norm_Forall; tauto. }
  all: pose proof (Forall_bind_lookup _ heldPut _ _ _ Hw Hp') as Hwp;
       pose proof (Forall_bind_lookup _ heldCb _ _ _ Hw Hc') as Hwc;
       simpl in Hwp, Hwc; norm_Forall.
  all: repeat split; try tauto.
  all: eapply Forall_bind_insert; [exact Hw|done|simpl].
  all: norm_Forall; tauto.
Qed.

Lemma entriesOf_nonempty (bs : blockState World) fblock :
  bs ∈ blockStates bps → block bs = FileBlockPtr fblock →
  entriesOf_ fblock ≠ [].
Proof.
  intros Hin Hb Hnil.
  assert (Hf : bs ∈ entriesOf_ fblock) by (by apply list_elem_of_filter).
  rewrite Hnil in Hf. by apply elem_of_nil in Hf.
Qed.

(** Every block on its way to the caller belongs to an entry of the batch,
    so the cleanup loop always finds a pointer to delete. *)
Lemma Inv_step_fblocks t s s' :
  Inv_ s → Step_ t s s' →
  Forall (λ fblock, entriesOf_ fblock ≠ [])
    (blocksToRemoveChan s' ++ (workers s' ≫= sending))
  ∧ ∀ msg, main_pc s' ≠ MPanicked msg.
Proof.
  intros HI Hstep.
  pose proof (inv_mem _ _ _ HI) as Imem. unfold pending in Imem.
  rewrite !Forall_app in Imem. destruct Imem as [(Hu & Hq & Hp') Hc'].
  pose proof (inv_fblocks _ _ _ HI) as Ifb.
  rewrite Forall_app in Ifb. destruct Ifb as [Hch Hsd].
  pose proof (inv_nopanic _ _ _ HI) as Inopanic. clear HI.
  step_cases_wait Hstep; simpl in *; try rew_all Hpc; simpl in *;
    norm_Forall.
  1-2: done.
  1: { destruct (drain_returns (blocksToRemoveChan s) [] (env s) Hch)
         as (ptrs' & e' & Hdr).
       destruct Haw
         as [(_ & -> & _)|[(_ & ptrs & _ & ->)|(_ & msg & Hpan & -> & _)]];
       simpl; norm_Forall; try done. congruence. }
  all: pose proof (Forall_bind_lookup _ heldPut _ _ _ Hw Hp') as Hwp;
       pose proof (Forall_bind_lookup _ heldCb _ _ _ Hw Hc') as Hwc;
       pose proof (Forall_bind_lookup _ sending _ _ _ Hw Hsd) as Hws;
       simpl in Hwp, Hwc, Hws; norm_Forall.
  all: try (apply blockToRemove_Some in Hrm as (Hblk & _)).
  all: repeat split; try tauto.
  all: eapply Forall_bind_insert; [exact Hw|done|simpl].
  all: norm_Forall; try tauto.
  all: split; [|done]; eapply entriesOf_nonempty; [|exact Hblk]; tauto.
Qed.

Lemma Inv_step_cb t s s' :
  Inv_ s → Step_ t s s' → Forall workerCb (workers s').
Proof.
  intros HI Hstep. pose proof (inv_cb _ _ _ HI) as Icb. clear HI.
  step_cases_wait Hstep; simpl; try done; by apply Forall_insert.
Qed.

(** The invariant is kept by every step, hence along every schedule. *)
Lemma Inv_step t s s' : Inv_ s → Step_ t s s' → Inv_ s'.
Proof.
  intros HI Hstep.
  destruct (Inv_step_counts _ _ _ HI Hstep) as (? & ? & ? & ?).
  destruct (Inv_step_control _ _ _ HI Hstep) as (? & ? & ?).
  destruct (Inv_step_fblocks _ _ _ HI Hstep) as (? & ?).
  pose proof (Inv_step_mem _ _ _ HI Hstep).
  pose proof (Inv_step_cb _ _ _ HI Hstep).
  by constructor.
Qed.

Lemma Inv_run sched e s : run_ sched (init_ e) = Some s → Inv_ s.
Proof.
  intros Hrun.
  eapply (run_invariant Inv_); [|apply Inv_init|exact Hrun].
  intros t s1 s2. apply Inv_step.
Qed.

(** *** Progress and termination *)
Lemma forallb_false_lookup {A} (f : A → bool) (l : list A) :
  forallb f l = false → ∃ i x, l !! i = Some x ∧ f x = false.
Proof.
  induction l as [|a l IH]; simpl; [done|].
  destruct (f a) eqn:Ha; simpl.
  - intros Hl. destruct (IH Hl) as (i & x & Hi & Hx). by exists (S i), x.
  - intros _. by exists 0%nat, a.
Qed.

Lemma extern_returns {A} ev (f : World → A * World) (e : Env World) :
  ∃ a e', extern ev f e = Ret a e'.
Proof. unfold extern. destruct (f (world e)). eauto. Qed.

Lemma PutBlockCheckQuota_returns c tlfID' blockPtr rbd name (e : Env World) :
  ∃ err e',
    PutBlockCheckQuota IsPublic c bserv reporter tlfID' blockPtr rbd name e
    = Ret err e'.
Proof.
  unfold PutBlockCheckQuota, mbind, M_bind.
  destruct (putBlockToServer_returns c bserv tlfID' blockPtr rbd e)
    as (err & e1 & ->).
  destruct err as [[]|]; try (eexists _, _; reflexivity).
  destruct Throttled; eexists _, _; reflexivity.
Qed.

(** A worker about to send finds room on [blocksToRemoveChan]. *)
Lemma chan_has_room s i fblock e :
  Inv_ s → workers s !! i = Some (WSend fblock e) →
  (length (blocksToRemoveChan s) < numWorkers_)%nat.
Proof.
  intros HI Hw.
  pose proof (inv_workers _ _ _ HI) as Iw.
  pose proof (inv_chan _ _ _ HI) as Ichan.
  pose proof (sum_list_insert failed _ _ _ (@WDone World (Some e)) Hw) as Hf.
  cbn [failed] in Hf.
  pose proof (sum_list_le_length failed
                (<[i := WDone (Some e)]> (workers s))) as Hle.
  rewrite length_insert in Hle.
  assert (∀ w : @worker World, (failed w ≤ 1)%nat) as Hone.
  { intros [| | | |[|]]; simpl; lia. }
  specialize (Hle Hone). lia.
Qed.

(** As long as the call has not returned, some goroutine can take a
    step: the orchestrator cannot deadlock. *)
Lemma progress s : Inv_ s → returned s ∨ ∃ t s', step_ t s = Some s'.
Proof.
  intros HI.
  destruct (main_pc s) as [[|b rest]| |ptrs err|msg] eqn:Hpc.
  - right. exists Main. eexists. apply Step_step. by apply Step_close.
  - right. exists Main. eexists. apply Step_step. eapply Step_send; [done|].
    pose proof (inv_cap _ _ _ HI) as Icap. rewrite Hpc in Icap. simpl in Icap.
    lia.
  - right. destruct (forallb isDone (workers s)) eqn:Hd.
    { exists Main. eexists. apply Step_step. by apply Step_wait. }
    apply forallb_false_lookup in Hd as (i & w & Hw & Hnd).
    exists (Worker i).
    destruct w as [|bs|bs cb|fblock e|err]; try done.
    + destruct (blocks s) as [|b rest] eqn:Hb.
      * eexists. apply Step_step. apply Step_exit; try done.
        pose proof (inv_closed _ _ _ HI) as Ic. by rewrite Hpc in Ic.
      * eexists. apply Step_step. by eapply Step_recv.
    + destruct (PutBlockCheckQuota_returns (groupCtx ctx s) tlfID
                  (blockPtr bs) (readyBlockData bs) tlfName (env s))
        as (err & e & Hp).
      destruct err as [er|].
      * eexists. apply Step_step. by eapply Step_put.
      * destruct (syncedCb bs) as [cb|] eqn:Hcb.
        -- eexists. apply Step_step. by eapply Step_put_cb.
        -- eexists. apply Step_step. by eapply Step_put.
    + destruct (extern_returns (EvSyncedCb (blockPtr bs)) cb (env s))
        as (err & e & Hx).
      eexists. apply Step_step. by eapply Step_cb.
    + eexists. apply Step_step. eapply Step_chan; [done|].
      by eapply chan_has_room.
  - left. by exists ptrs, err.
  - by destruct (inv_nopanic _ _ _ HI msg).
Qed.

(** From every state a schedule can reach, the call can be run to its
    return. *)
Lemma run_completes s :
  Inv_ s → ∃ sched s', run_ sched s = Some s' ∧ returned s'.
Proof.
  remember (measure s) as n eqn:Hn. revert s Hn.
  induction (lt_wf n) as [n _ IH]. intros s -> HI.
  destruct (progress s HI) as [Hret|(t & s1 & Ht)].
  - by exists [], s.
  - pose proof (step_Step _ _ _ Ht) as HS.
    destruct (IH (measure s1) (Step_measure _ _ _ HS) s1 eq_refl
                (Inv_step _ _ _ HI HS)) as (sched & s' & Hrun & Hret).
    exists (t :: sched), s'. simpl. by rewrite Ht.
Qed.

(** The call returns under every schedule: a schedule that has not run it
    to its return can be continued, one that has not deadlocked takes at
    most [measure] steps, and it never panics. *)
Lemma doBlockPuts_terminates sched e s :
  run_ sched (init_ e) = Some s →
  (length sched ≤ measure (init_ e))%nat
  ∧ (returned s ∨ ∃ t s', step_ t s = Some s')
  ∧ ∃ sched' s', run_ (sched ++ sched') (init_ e) = Some s' ∧ returned s'.
Proof.
  intros Hrun. pose proof (Inv_run _ _ _ Hrun) as HI.
  split; [|split].
  - apply run_measure in Hrun. lia.
  - by apply progress.
  - destruct (run_completes s HI) as (sched' & s' & Hrun' & Hret).
    exists sched', s'. by rewrite run_app, Hrun.
Qed.

(** *** The result channel *)

(** C9.  Under every schedule and at every moment, the number of blocks
    recorded on [blocksToRemoveChan] is at most the number of workers that
    have returned an error, which is at most the worker count, the
    channel's capacity.  A worker that has returned takes no further step,
    so it sends at most once; and a worker about to send always finds room:
    no worker ever blocks on the channel. *)
Theorem blocksToRemoveChan_never_full sched e s
    (Hrun : run_ sched (init_ e) = Some s) :
  (length (blocksToRemoveChan s) ≤ sum_list (failed <$> workers s))%nat
  ∧ (sum_list (failed <$> workers s) ≤ numWorkers_)%nat
  ∧ (∀ i err, workers s !! i = Some (WDone err) → step_ (Worker i) s = None)
  ∧ (∀ i fblock err,
       workers s !! i = Some (WSend fblock err) →
       (length (blocksToRemoveChan s) < numWorkers_)%nat
       ∧ is_Some (step_ (Worker i) s)).
Proof.
  pose proof (Inv_run _ _ _ Hrun) as HI.
  split; [apply (inv_chan _ _ _ HI)|]. split; [|split].
  - rewrite <- (inv_workers _ _ _ HI). apply sum_list_le_length.
    intros [| | | |[|]]; simpl; lia.
  - intros i err Hw. unfold step. by rewrite Hw.
  - intros i fblock err Hw.
    pose proof (chan_has_room _ _ _ _ HI Hw) as Hroom.
    split; [done|]. unfold step. rewrite Hw. by rewrite decide_True.
Qed.

(** *** The empty batch *)
Lemma empty_batch_invariant ei sched sf :
  blockStates bps = [] →
  run_ sched (init_ ei) = Some sf →
  workers sf = [] ∧ env sf = ei ∧ eg_err sf = None ∧ blocksToRemoveChan sf = []
  ∧ (main_pc sf = MSend [] ∨ main_pc sf = MWait
     ∨ main_pc sf = MReturned [] None).
Proof.
  intros Hnil Hrun.
  eapply (run_invariant (λ s, workers s = [] ∧ env s = ei ∧ eg_err s = None
            ∧ blocksToRemoveChan s = []
            ∧ (main_pc s = MSend [] ∨ main_pc s = MWait
               ∨ main_pc s = MReturned [] None))); [| |exact Hrun].
  - intros t s1 s2 (Hws & He & Herr & Hch & Hpc') Hstep.
    step_cases_wait Hstep; simpl in *;
      try (rewrite Hws in Hw; done).
    + rewrite Hpc in Hpc'. by destruct Hpc' as [?|[?|?]].
    + tauto.
    + rewrite Herr in Haw. simpl in Haw.
      destruct Haw
        as [(_ & -> & ->)|[(? & _)|(? & _)]]; try done.
      tauto.
  - unfold init, numWorkers. rewrite Hnil. simpl. tauto.
Qed.

(** C10.  For the empty batch, [doBlockPuts] returns the nil pointer list
    and the nil error, under every schedule, and it does return (the
    caller's two steps suffice).  The world and the trace are at every
    moment what they were at the call: no remote store call is made, no
    callback is invoked and the block cache is not touched. *)
Theorem doBlockPuts_empty_batch e (Hempty : blockStates bps = []) :
  (∀ sched s, run_ sched (init_ e) = Some s → env s = e)
  ∧ (∀ sched r,
       doBlockPuts IsPublic IsInd maxParallelBlockPuts ctx bserv bcache
         reporter tlfID tlfName bps sched e = Some r →
       r = ([], None, e))
  ∧ doBlockPuts IsPublic IsInd maxParallelBlockPuts ctx bserv bcache
      reporter tlfID tlfName bps [Main; Main] e = Some ([], None, e).
Proof.
  split; [|split].
  - intros sched s Hrun.
    by destruct (empty_batch_invariant e sched s Hempty Hrun) as (_ & ? & _).
  - intros sched r. unfold doBlockPuts.
    destruct (run_ sched (init_ e)) as [s|] eqn:Hrun; [|done].
    destruct (empty_batch_invariant e sched s Hempty Hrun)
      as (_ & He & _ & _ & Hpc).
    destruct Hpc as [Hpc|[Hpc|Hpc]]; rewrite Hpc; try done.
    intros [= <-]. by rewrite He.
  - unfold doBlockPuts, init, numWorkers. rewrite Hempty. reflexivity.
Qed.

(** *** A batch on which everything succeeds *)
Local Abbreviation owed_ := (owed tlfID).
Local Abbreviation workerOwed_ := (workerOwed tlfID).
Local Abbreviation ledger_ := (ledger tlfID).
Local Abbreviation bserverCall_ := (bserverCall tlfID).
Local Abbreviation remoteSucceeds_ := (remoteSucceeds bserv tlfID).
Local Abbreviation AllGood_ := (AllGood ctx tlfID bps).

Lemma putBlockToServer_trace c (bs : blockState World) e err e' :
  putBlockToServer c bserv tlfID (blockPtr bs) (readyBlockData bs) e
  = Ret err e' →
  trace e' = trace e ++ [bserverCall_ c bs].
Proof.
  unfold putBlockToServer, bserverCall, BlockServer_Put,
    BlockServer_AddBlockReference, extern.
  case_decide.
  - destruct (bserver_Put _ _ _ _ _ _ _ _). by intros [= _ <-].
  - destruct (bserver_AddBlockReference _ _ _ _ _ _). by intros [= _ <-].
Qed.

Lemma PutBlockCheckQuota_success c (bs : blockState World) e err e' :
  remoteSucceeds_ bs →
  PutBlockCheckQuota IsPublic c bserv reporter tlfID (blockPtr bs)
    (readyBlockData bs) tlfName e = Ret err e' →
  err = None ∧ trace e' = trace e ++ [bserverCall_ c bs].
Proof.
  intros Hok. destruct (Hok c e) as (e1 & He1).
  unfold PutBlockCheckQuota, mbind, M_bind. rewrite He1.
  intros [= <- <-]. split; [done|]. by eapply putBlockToServer_trace.
Qed.

Lemma owed_batch c (l : list (blockState World)) :
  l ≫= owed_ c
  ≡ₚ map (bserverCall_ c) l ++ map cbCall (filter (λ bs, hasCb bs) l).
Proof.
  induction l as [|bs l IH]; [done|].
  csimpl. rewrite IH. unfold owed. rewrite filter_cons.
  destruct (hasCb bs) eqn:Hcb; simpl; [|done].
  apply perm_skip. by rewrite <- Permutation_middle.
Qed.

(** The ledger after worker [i] has moved from [w] to [w']. *)
Lemma ledger_worker c (tr tr' U B B' : list event) (ws : list (@worker World))
    i w w' :
  ws !! i = Some w →
  tr' ++ B' ++ workerOwed_ c w' ≡ₚ tr ++ B ++ workerOwed_ c w →
  tr' ++ U ++ B' ++ (<[i := w']> ws ≫= workerOwed_ c)
  ≡ₚ tr ++ U ++ B ++ (ws ≫= workerOwed_ c).
Proof.
  intros Hw Hperm.
  apply (Permutation_app_inv_r (workerOwed_ c w)).
  pose proof (bind_insert_perm (workerOwed_ c) ws i w w' Hw) as Hins.
  transitivity (tr' ++ U ++ B' ++
                ((<[i := w']> ws ≫= workerOwed_ c) ++ workerOwed_ c w));
    [aac_reflexivity|].
  rewrite Hins.
  transitivity (U ++ (ws ≫= workerOwed_ c) ++
                (tr' ++ B' ++ workerOwed_ c w')); [aac_reflexivity|].
  rewrite Hperm. aac_reflexivity.
Qed.

Lemma groupCtx_live (s : @state World) :
  eg_err s = None → groupCtx ctx s = context.WithCancel ctx false.
Proof.
  intros Hn. unfold groupCtx. rewrite Hn.
  by rewrite bool_decide_eq_false_2 by (intros Hx; by apply Hx).
Qed.

Lemma AllGood_init ei : AllGood_ ei (init_ ei).
Proof.
  constructor; simpl; try done.
  - by rewrite bind_replicate_nil.
  - unfold ledger; simpl. rewrite bind_replicate_nil by done.
    by rewrite !app_nil_r.
Qed.

(** Unfold the ledger of a state built by a step, keeping [owed] folded. *)
Local Ltac ledger_norm :=
  unfold ledger;
  cbn [main_pc blocks blocksClosed workers blocksToRemoveChan eg_err env
       setWorker setEnv workerReturn unsent workerOwed trace world];
  rewrite ?bind_app, ?bind_cons, ?bind_singleton, ?app_nil_r.

Lemma AllGood_step ei t s s' :
  Forall remoteSucceeds_ (blockStates bps) →
  Forall cbSucceeds (blockStates bps) →
  Inv_ s → AllGood_ ei s → Step_ t s s' → AllGood_ ei s'.
Proof.
  intros Hrem Hcbs HI HG Hstep.
  pose proof (inv_mem _ _ _ HI) as Imem. unfold pending in Imem.
  rewrite !Forall_app in Imem. destruct Imem as [(Hu & Hq & Hp') Hc'].
  pose proof (inv_cb _ _ _ HI) as Icb. clear HI.
  destruct HG as [Gerr Gchan Gns Gled Gret]. unfold ledger in Gled.
  rewrite Forall_forall in Hrem, Hcbs.
  step_cases_wait Hstep.
  all: try (pose proof (Forall_bind_lookup _ heldPut _ _ _ Hw Hp') as Hwp;
            pose proof (Forall_bind_lookup _ heldCb _ _ _ Hw Hc') as Hwc;
            pose proof (Forall_lookup_1 _ _ _ _ Icb Hw) as Hwcb;
            simpl in Hwp, Hwc, Hwcb; norm_Forall).
  all: try (rewrite (groupCtx_live s Gerr) in Hp;
            apply PutBlockCheckQuota_success in Hp as [Herr Htr];
            [|apply Hrem; tauto]; try done).
  - (* send *)
    constructor; cbn [main_pc blocksToRemoveChan eg_err workers setWorker setEnv workerReturn]; try done.
    rewrite Hpc in Gled. rewrite <- Gled. ledger_norm. aac_reflexivity.
  - (* close *)
    constructor; cbn [main_pc blocksToRemoveChan eg_err workers setWorker setEnv workerReturn]; try done.
    rewrite Hpc in Gled. by rewrite <- Gled.
  - (* wait *)
    rewrite Gerr in Haw. simpl in Haw.
    destruct Haw as [(_ & -> & ->)|[(? & _)|(? & _)]]; try done.
    constructor; cbn [main_pc blocksToRemoveChan eg_err workers setWorker setEnv workerReturn]; try done.
    + rewrite Hpc in Gled. by rewrite <- Gled.
    + by intros ptrs err [= <- <-].
  - (* recv *)
    constructor; cbn [main_pc blocksToRemoveChan eg_err workers setWorker setEnv workerReturn]; try done.
    + by rewrite (bind_insert_nil sending _ _ _ _ Hw).
    + rewrite Hb in Gled. rewrite <- Gled. unfold ledger.
      cbn [main_pc blocks workers env].
      eapply ledger_worker; [exact Hw|]. ledger_norm. aac_reflexivity.
  - (* exit *)
    constructor; cbn [main_pc blocksToRemoveChan eg_err workers setWorker setEnv workerReturn]; try done.
    + by rewrite Gerr.
    + by rewrite (bind_insert_nil sending _ _ _ _ Hw).
    + rewrite <- Gled. unfold ledger, workerReturn.
      cbn [main_pc blocks workers env].
      by eapply ledger_worker; [exact Hw|].
  - (* put, then callback *)
    constructor; cbn [main_pc blocksToRemoveChan eg_err workers setWorker setEnv workerReturn]; try done.
    + by rewrite (bind_insert_nil sending _ _ _ _ Hw).
    + rewrite <- Gled. unfold ledger, setWorker, setEnv.
      cbn [main_pc blocks workers env]. rewrite Htr.
      eapply ledger_worker; [exact Hw|]. cbn [workerOwed]. unfold owed, hasCb.
      rewrite Hcb. aac_reflexivity.
  - (* put, no callback *)
    constructor; cbn [main_pc blocksToRemoveChan eg_err workers setWorker setEnv workerReturn]; try done.
    + by rewrite (bind_insert_nil sending _ _ _ _ Hw).
    + rewrite <- Gled. unfold ledger, setWorker, setEnv.
      cbn [main_pc blocks workers env]. rewrite Htr.
      eapply ledger_worker; [exact Hw|]. cbn [workerOwed]. unfold owed, hasCb.
      rewrite Hcb by done. aac_reflexivity.
  - (* callback *)
    constructor; cbn [main_pc blocksToRemoveChan eg_err workers setWorker setEnv workerReturn]; try done.
    + by rewrite (bind_insert_nil sending _ _ _ _ Hw).
    + rewrite <- Gled. unfold ledger, setWorker, setEnv.
      cbn [main_pc blocks workers env].
      unfold extern in Hp. destruct (cb (world (env s))) as [r w1].
      injection Hp as _ <-. cbn [trace].
      eapply ledger_worker; [exact Hw|]. cbn [workerOwed]. unfold cbCall.
      aac_reflexivity.
  - (* callback fails: excluded *)
    exfalso. unfold extern in Hp.
    pose proof (Hcbs bs ltac:(tauto) cb (world (env s)) Hwcb) as Hnone.
    destruct (cb (world (env s))) as [r w1]. simpl in Hnone.
    by injection Hp as -> _.
  - exfalso. unfold extern in Hp.
    pose proof (Hcbs bs ltac:(tauto) cb (world (env s)) Hwcb) as Hnone.
    destruct (cb (world (env s))) as [r w1]. simpl in Hnone.
    by injection Hp as -> _.
  - (* send on the result channel: excluded *)
    exfalso.
    pose proof (Forall_bind_lookup (λ _, False) sending _ _ _ Hw) as Hns.
    rewrite Gns in Hns. specialize (Hns (List.Forall_nil _)).
    by apply Forall_cons in Hns as [? _].
Qed.

Lemma AllGood_run ei sched sf :
  Forall remoteSucceeds_ (blockStates bps) →
  Forall cbSucceeds (blockStates bps) →
  run_ sched (init_ ei) = Some sf → Inv_ sf ∧ AllGood_ ei sf.
Proof.
  intros Hrem Hcbs Hrun.
  eapply (run_invariant (λ s, Inv_ s ∧ AllGood_ ei s)); [| |exact Hrun].
  - intros t s1 s2 [HI HG] Hstep. split; [by eapply Inv_step|].
    by eapply AllGood_step.
  - split; [apply Inv_init|apply AllGood_init].
Qed.

Lemma numWorkers_pos :
  (0 < maxParallelBlockPuts)%nat → blockStates bps ≠ [] →
  (0 < numWorkers_)%nat.
Proof.
  intros Hmax Hne. unfold numWorkers.
  destruct (blockStates bps); [done|]. simpl. case_decide; lia.
Qed.

(** When the call has returned, nothing is left in the queue unless every
    worker has returned an error. *)
Lemma returned_queue_empty (s : @state World) :
  (0 < maxParallelBlockPuts)%nat →
  Inv_ s → returned s →
  sum_list (failed <$> workers s) = 0%nat →
  blocks s = [] ∧ workers s ≫= heldPut = [] ∧ workers s ≫= heldCb = []
  ∧ unsent (main_pc s) = [].
Proof.
  intros Hmax HI (ptrs & err & Hpc) Hfail.
  pose proof (inv_done _ _ _ HI) as Idone. rewrite Hpc in Idone.
  assert (Hq : blocks s = []).
  { destruct (blockStates bps) as [|b0 l0] eqn:Hbps.
    - pose proof (inv_cap _ _ _ HI) as Icap. rewrite Hbps in Icap.
      simpl in Icap. destruct (blocks s); [done|]. simpl in Icap. lia.
    - apply (inv_exit _ _ _ HI).
      pose proof (sum_list_three running failed exited (workers s)) as H3.
      rewrite (inv_workers _ _ _ HI) in H3.
      assert ((0 < numWorkers_)%nat) by (apply numWorkers_pos; by rewrite ?Hbps).
      assert (∀ w : @worker World,
                (running w + failed w + exited w = 1)%nat) as Hone.
      { intros [| | | |[|]]; reflexivity. }
      specialize (H3 Hone). lia. }
  split; [done|]. rewrite Hpc. repeat split.
  - apply (bind_nil_sum _ running); [|done]. by intros [| | | |].
  - apply (bind_nil_sum _ running); [|done]. by intros [| | | |].
Qed.

(** C5.  When the remote call and the completion callback of every entry
    succeed (and the bound on parallel puts is positive), [doBlockPuts]
    returns the nil pointer list and the nil error under every schedule,
    and it does return: every schedule can be continued to the return and
    none runs longer than the measure of the initial state.  At the return
    the calls made since the call are, up to their order, exactly one
    server call for each entry of the batch and one callback call for each
    entry that has a callback. *)
Theorem doBlockPuts_all_succeed ei
    (Hmax : (0 < maxParallelBlockPuts)%nat)
    (Hremote : Forall remoteSucceeds_ (blockStates bps))
    (Hcallback : Forall cbSucceeds (blockStates bps)) :
  (∀ sched s, run_ sched (init_ ei) = Some s →
     (length sched ≤ measure (init_ ei))%nat
     ∧ ∃ sched' e',
         doBlockPuts IsPublic IsInd maxParallelBlockPuts ctx bserv bcache
           reporter tlfID tlfName bps (sched ++ sched') ei
         = Some ([], None, e'))
  ∧ (∀ sched blocksToRemove err e',
       doBlockPuts IsPublic IsInd maxParallelBlockPuts ctx bserv bcache
         reporter tlfID tlfName bps sched ei
       = Some (blocksToRemove, err, e') →
       blocksToRemove = [] ∧ err = None
       ∧ trace e'
         ≡ₚ trace ei
            ++ map (bserverCall_ (context.WithCancel ctx false))
                 (blockStates bps)
            ++ map cbCall (filter (λ bs, hasCb bs) (blockStates bps))).
Proof.
  split.
  - intros sched s Hrun.
    destruct (doBlockPuts_terminates _ _ _ Hrun)
      as (Hlen & _ & sched' & s' & Hrun' & ptrs & err & Hpc).
    split; [done|].
    destruct (AllGood_run _ _ _ Hremote Hcallback Hrun') as [_ HG].
    destruct (good_ret _ _ _ _ _ HG _ _ Hpc) as [-> ->].
    exists sched', (env s'). unfold doBlockPuts. by rewrite Hrun', Hpc.
  - intros sched ptrs err e'. unfold doBlockPuts.
    destruct (run_ sched (init_ ei)) as [s|] eqn:Hrun; [|done].
    destruct (main_pc s) as [| |ptrs' err'|] eqn:Hpc; try done.
    intros [= -> -> <-].
    destruct (AllGood_run _ _ _ Hremote Hcallback Hrun) as [HI HG].
    destruct (good_ret _ _ _ _ _ HG _ _ Hpc) as [-> ->].
    split; [done|]. split; [done|].
    pose proof (good_ledger _ _ _ _ _ HG) as Hled. unfold ledger in Hled.
    assert (Hfail : sum_list (failed <$> workers s) = 0%nat)
      by (apply (inv_err _ _ _ HI), (good_err _ _ _ _ _ HG)).
    destruct (returned_queue_empty s Hmax HI ltac:(by eexists _, _) Hfail)
      as (Hq & _ & _ & Hu).
    rewrite Hq, Hu in Hled.
    rewrite (bind_nil_sum (workerOwed_ _) running) in Hled.
    + simpl in Hled. rewrite app_nil_r in Hled. rewrite Hled.
      by rewrite owed_batch.
    + by intros [| | | |].
    + pose proof (inv_done _ _ _ HI) as Idone. by rewrite Hpc in Idone.
Qed.

(** *** A batch with one recoverable failure *)
Local Abbreviation remoteFailsRecoverably_ := (remoteFailsRecoverably bserv tlfID).
Local Abbreviation succeeds_ := (succeeds bserv tlfID).
Local Abbreviation Outcome_ := (Outcome IsInd tlfID bps).
Local Abbreviation BadPending_ := (BadPending bserv tlfID).
Local Abbreviation BadPut_ := (BadPut IsInd bserv tlfID bps).
Local Abbreviation OneBad_ := (OneBad IsInd bserv tlfID bps).

Lemma PutBlockCheckQuota_failure c (bs : blockState World) e err e' :
  remoteFailsRecoverably_ bs →
  PutBlockCheckQuota IsPublic c bserv reporter tlfID (blockPtr bs)
    (readyBlockData bs) tlfName e = Ret err e' →
  ∃ e0, err = Some e0 ∧ isRecoverableBlockError (Some e0) = true
        ∧ trace e' = trace e ++ [bserverCall_ c bs].
Proof.
  intros Hbad. destruct (Hbad c e) as (e0 & e1 & He1 & Hrec).
  unfold PutBlockCheckQuota, mbind, M_bind. rewrite He1.
  destruct e0; try done; intros [= <- <-]; eexists; split; try done;
    (split; [done|]); by eapply putBlockToServer_trace.
Qed.

Lemma cacheCalls_app tr1 tr2 :
  cacheCalls (tr1 ++ tr2) = cacheCalls tr1 ++ cacheCalls tr2.
Proof. apply filter_app. Qed.

Lemma cacheCalls_bserverCall c (bs : blockState World) :
  cacheCalls [bserverCall_ c bs] = [].
Proof. unfold bserverCall. by case_decide. Qed.

Lemma cacheCalls_extern_cb {A} (bs : blockState World)
    (f : World → A * World) e r e' :
  extern (EvSyncedCb (blockPtr bs)) f e = Ret r e' →
  cacheCalls (trace e') = cacheCalls (trace e).
Proof.
  unfold extern. destruct (f (world e)). intros [= _ <-]. simpl.
  rewrite cacheCalls_app. simpl. by rewrite app_nil_r.
Qed.

Lemma cacheCalls_afterDeletes fblock p (e : Env World) :
  cacheCalls (trace (afterDeletes_ fblock p e))
  = cacheCalls (trace e)
    ++ [EvDeleteKnownPtr tlfID fblock; EvDeleteTransient p tlfID].
Proof.
  unfold afterDeletes.
  destruct (bcache_DeleteKnownPtr bcache tlfID fblock (world e))
    as [[e1|] w1];
  destruct (bcache_DeleteTransient bcache p tlfID w1) as [[e2|] w2];
  simpl; rewrite cacheCalls_app; reflexivity.
Qed.

(** The pending entries after worker [i] has moved from [w] to [w']. *)
Lemma pending_worker (U B B' : list (blockState World))
    (ws : list (@worker World)) i w w' :
  ws !! i = Some w →
  B' ++ heldPut w' ≡ₚ B ++ heldPut w →
  U ++ B' ++ (<[i := w']> ws ≫= heldPut) ≡ₚ U ++ B ++ (ws ≫= heldPut).
Proof.
  intros Hw Hperm.
  apply (Permutation_app_inv_r (heldPut w)).
  pose proof (bind_insert_perm heldPut ws i w w' Hw) as Hins.
  transitivity (U ++ B' ++ ((<[i := w']> ws ≫= heldPut) ++ heldPut w));
    [aac_reflexivity|].
  rewrite Hins.
  transitivity (U ++ (ws ≫= heldPut) ++ (B' ++ heldPut w'));
    [aac_reflexivity|].
  rewrite Hperm. aac_reflexivity.
Qed.

(** The pending entries once worker [i] has put the entry [bs]. *)
Lemma pending_put (U B : list (blockState World))
    (ws : list (@worker World)) i bs w' :
  ws !! i = Some (WPut bs) → heldPut w' = [] →
  (U ++ B ++ (<[i := w']> ws ≫= heldPut)) ++ [bs]
  ≡ₚ U ++ B ++ (ws ≫= heldPut).
Proof.
  intros Hw Hw'.
  pose proof (bind_insert_perm heldPut ws i _ w' Hw) as Hins.
  rewrite Hw' in Hins. simpl in Hins. rewrite app_nil_r in Hins.
  rewrite <- Hins. aac_reflexivity.
Qed.

(** Taking an entry out of a list that holds [bad] among entries that
    succeed. *)
Lemma take_from_pending (bad bs : blockState World) rest P' :
  P' ++ [bs] ≡ₚ [bad] ++ rest →
  Forall succeeds_ rest →
  (bs = bad ∧ P' ≡ₚ rest)
  ∨ (succeeds_ bs ∧ ∃ rest', P' ≡ₚ [bad] ++ rest' ∧ rest ≡ₚ [bs] ++ rest').
Proof.
  intros Hperm Hgood.
  assert (Hin : bs ∈ [bad] ++ rest).
  { rewrite <- Hperm. apply elem_of_app. right. by apply list_elem_of_singleton. }
  apply elem_of_app in Hin as [Hin|Hin].
  - apply list_elem_of_singleton in Hin as ->. left. split; [done|].
    apply (Permutation_app_inv_l [bad]). rewrite <- Hperm.
    apply Permutation_app_comm.
  - right. split; [by eapply Forall_forall in Hgood|].
    apply elem_of_Permutation in Hin as (rest' & Hrest).
    exists rest'. split; [|done].
    apply (Permutation_app_inv_r [bs]). rewrite Hperm, Hrest.
    simpl. apply perm_skip. change (bs :: rest') with ([bs] ++ rest').
    apply Permutation_app_comm.
Qed.

Lemma worker_live (s : @state World) i w :
  Inv_ s → workers s !! i = Some w → isDone w = false →
  ∀ ptrs err, main_pc s ≠ MReturned ptrs err.
Proof.
  intros HI Hw Hnd ptrs err Hpc.
  pose proof (inv_done _ _ _ HI) as Idone. rewrite Hpc in Idone.
  pose proof (sum_list_lookup_le running _ _ _ Hw) as Hle.
  unfold running at 1 in Hle. rewrite Hnd in Hle. lia.
Qed.

Lemma cb_fails_not (bs : blockState World) cb e e0 e' :
  succeeds_ bs → syncedCb bs = Some cb →
  extern (EvSyncedCb (blockPtr bs)) cb e = Ret (Some e0) e' → False.
Proof.
  intros [_ Hcbs] Hcb. unfold extern.
  pose proof (Hcbs cb (world e) Hcb) as Hnone.
  destruct (cb (world e)) as [r w1]. simpl in Hnone. by intros [= -> _].
Qed.

Lemma sendingErr_lookup (ws : list (@worker World)) i fblock e l :
  ws !! i = Some (WSend fblock e) → ws ≫= sendingErr = l → (fblock, e) ∈ l.
Proof.
  intros Hw <-. apply list_elem_of_bind. exists (WSend fblock e).
  split; [by apply list_elem_of_singleton|]. by eapply list_elem_of_lookup_2.
Qed.

Lemma BadPending_step ei bad t s s' :
  remoteFailsRecoverably_ bad →
  Inv_ s → BadPending_ ei bad s → Step_ t s s' → OneBad_ ei bad s'.
Proof.
  intros Hbad HI (Gerr & Gchan & Gns & Gcache & others & Hperm & Hgood) Hstep.
  pose proof (inv_cb _ _ _ HI) as Icb.
  pose proof (worker_live s) as Hlive. specialize (λ i w, Hlive i w HI).
  clear HI.
  rewrite Forall_app in Hgood. destruct Hgood as [Hrest Hcbg].
  unfold pending in Hperm.
  step_cases_wait Hstep.
  all: try (pose proof (Forall_bind_lookup _ heldCb _ _ _ Hw Hcbg) as Hwc;
            pose proof (Forall_lookup_1 _ _ _ _ Icb Hw) as Hwcb;
            specialize (Hlive _ _ Hw eq_refl);
            simpl in Hwc, Hwcb; norm_Forall).
  all: try (rewrite (groupCtx_live s Gerr) in Hp).
  - (* send *)
    left. repeat split; try done. exists others.
    split; [|by apply Forall_app].
    rewrite <- Hperm, Hpc. unfold pending. cbn [main_pc blocks workers unsent].
    change (b :: rest) with ([b] ++ rest). aac_reflexivity.
  - (* close *)
    left. repeat split; try done. exists others.
    split; [|by apply Forall_app].
    rewrite <- Hperm, Hpc. reflexivity.
  - (* wait *)
    rewrite Gerr in Haw. simpl in Haw.
    destruct Haw as [(_ & -> & ->)|[(? & _)|(? & _)]]; try done.
    left. repeat split; try done. exists others.
    split; [|by apply Forall_app].
    rewrite <- Hperm, Hpc. reflexivity.
  - (* recv *)
    left. repeat split; try done.
    { cbn [workers]. by rewrite (bind_insert_nil sendingErr _ _ _ _ Hw). }
    exists others. cbn [workers].
    rewrite (bind_insert_nil heldCb _ _ _ _ Hw) by done.
    split; [|by apply Forall_app].
    rewrite <- Hperm, Hb. unfold pending. cbn [main_pc blocks workers].
    eapply pending_worker; [exact Hw|]. cbn [heldPut]. rewrite app_nil_r.
    apply Permutation_app_comm.
  - (* exit *)
    left. unfold workerReturn. repeat split; cbn [eg_err workers]; try done.
    { by rewrite Gerr. }
    { by rewrite (bind_insert_nil sendingErr _ _ _ _ Hw). }
    exists others.
    rewrite (bind_insert_nil heldCb _ _ _ _ Hw) by done.
    split; [|by apply Forall_app].
    rewrite <- Hperm. unfold pending. cbn [main_pc blocks workers].
    by rewrite (bind_insert_nil heldPut _ _ _ _ Hw).
  - (* put, then callback *)
    pose proof (pending_put (unsent (main_pc s)) (blocks s) _ _ _
                  (WCb bs cb) Hw eq_refl) as Hput.
    rewrite Hperm in Hput.
    destruct (take_from_pending _ _ _ _ Hput Hrest)
      as [[-> _]|(Hbs & rest' & Hp1 & Hp2)].
    { apply PutBlockCheckQuota_failure in Hp as (? & ? & _); done. }
    apply PutBlockCheckQuota_success in Hp as [_ Htr]; [|by destruct Hbs].
    left. unfold setWorker, setEnv.
    repeat split; cbn [eg_err workers blocksToRemoveChan env]; try done.
    { by rewrite (bind_insert_nil sendingErr _ _ _ _ Hw). }
    { rewrite Htr, cacheCalls_app, cacheCalls_bserverCall.
      by rewrite app_nil_r. }
    exists rest'. split; [done|].
    rewrite (bind_insert_perm_l heldCb _ _ _ _ Hw) by done.
    rewrite Hp2 in Hrest. simpl. norm_Forall. tauto.
  - (* put, no callback *)
    pose proof (pending_put (unsent (main_pc s)) (blocks s) _ _ _
                  (@WRecv World) Hw eq_refl) as Hput.
    rewrite Hperm in Hput.
    destruct (take_from_pending _ _ _ _ Hput Hrest)
      as [[-> _]|(Hbs & rest' & Hp1 & Hp2)].
    { apply PutBlockCheckQuota_failure in Hp as (? & ? & _); done. }
    apply PutBlockCheckQuota_success in Hp as [_ Htr]; [|by destruct Hbs].
    left. unfold setWorker, setEnv.
    repeat split; cbn [eg_err workers blocksToRemoveChan env]; try done.
    { by rewrite (bind_insert_nil sendingErr _ _ _ _ Hw). }
    { rewrite Htr, cacheCalls_app, cacheCalls_bserverCall.
      by rewrite app_nil_r. }
    exists rest'. split; [done|].
    rewrite (bind_insert_nil heldCb _ _ _ _ Hw) by done.
    rewrite Hp2 in Hrest. norm_Forall. tauto.
  - (* put fails, block to be recorded *)
    pose proof (pending_put (unsent (main_pc s)) (blocks s) _ _ _
                  (@WSend World fb e0) Hw eq_refl) as Hput.
    rewrite Hperm in Hput.
    destruct (take_from_pending _ _ _ _ Hput Hrest)
      as [[-> Hp1]|(Hbs & _)].
    2: { apply PutBlockCheckQuota_success in Hp as [? _]; [done|].
         by destruct Hbs. }
    apply PutBlockCheckQuota_failure in Hp as (e1 & [= <-] & Hrec & Htr);
      [|done].
    right. exists e0. unfold BadPut, setWorker, setEnv.
    split; [done|]. split.
    { unfold pending. cbn [main_pc blocks workers].
      rewrite (bind_insert_nil heldCb _ _ _ _ Hw) by done.
      rewrite Hp1. by apply Forall_app. }
    cbn [main_pc eg_err workers blocksToRemoveChan env].
    assert (Hcache : cacheCalls (trace e) = cacheCalls (trace ei)).
    { rewrite Htr, cacheCalls_app, cacheCalls_bserverCall.
      by rewrite app_nil_r. }
    assert (Hsend : <[i := WSend fb e0]> (workers s) ≫= sendingErr
                    = [(fb, e0)]).
    { apply Permutation_singleton_r.
      rewrite (bind_insert_perm_l sendingErr _ _ _ _ Hw) by done.
      by rewrite Gns. }
    destruct (main_pc s) eqn:Hpc; try (split; [done|]; left; eauto 10).
    by destruct (Hlive blocksToRemove err).
  - (* put fails, nothing to record *)
    pose proof (pending_put (unsent (main_pc s)) (blocks s) _ _ _
                  (@WDone World (Some e0)) Hw eq_refl) as Hput.
    rewrite Hperm in Hput.
    destruct (take_from_pending _ _ _ _ Hput Hrest)
      as [[-> Hp1]|(Hbs & _)].
    2: { apply PutBlockCheckQuota_success in Hp as [? _]; [done|].
         by destruct Hbs. }
    apply PutBlockCheckQuota_failure in Hp as (e1 & [= <-] & Hrec & Htr);
      [|done].
    right. exists e0. unfold BadPut, workerReturn, setEnv.
    split; [done|]. split.
    { unfold pending. cbn [main_pc blocks workers].
      rewrite (bind_insert_nil heldCb _ _ _ _ Hw) by done.
      rewrite Hp1. by apply Forall_app. }
    cbn [main_pc eg_err workers blocksToRemoveChan env].
    assert (Hcache : cacheCalls (trace e) = cacheCalls (trace ei)).
    { rewrite Htr, cacheCalls_app, cacheCalls_bserverCall.
      by rewrite app_nil_r. }
    rewrite (bind_insert_nil sendingErr _ _ _ _ Hw) by done.
    rewrite Gerr, Hrm, Gchan, Gns.
    destruct (main_pc s) eqn:Hpc; try (split; [done|]; right; eauto 10).
    by destruct (Hlive blocksToRemove err).
  - (* callback *)
    left. unfold setWorker, setEnv.
    repeat split; cbn [eg_err workers blocksToRemoveChan env]; try done.
    { by rewrite (bind_insert_nil sendingErr _ _ _ _ Hw). }
    { by rewrite (cacheCalls_extern_cb _ _ _ _ _ Hp). }
    exists others. split.
    { rewrite <- Hperm. unfold pending. cbn [main_pc blocks workers].
      by rewrite (bind_insert_nil heldPut _ _ _ _ Hw). }
    apply Forall_app. split; [done|].
    eapply Forall_bind_insert; [exact Hw|done|]. simpl. by apply List.Forall_nil.
  - exfalso. eapply cb_fails_not; [|exact Hwcb|exact Hp]. tauto.
  - exfalso. eapply cb_fails_not; [|exact Hwcb|exact Hp]. tauto.
  - (* send on the result channel: excluded *)
    exfalso. pose proof (sendingErr_lookup _ _ _ _ _ Hw Gns) as Hin.
    by apply elem_of_nil in Hin.
Qed.

(** [BadPut] while the call has not returned. *)
Lemma BadPut_live ei bad e1 (s : @state World) :
  (∀ ptrs err, main_pc s ≠ MReturned ptrs err) →
  BadPut_ ei bad e1 s ↔
  isRecoverableBlockError (Some e1) = true
  ∧ Forall succeeds_ (pending s ++ (workers s ≫= heldCb))
  ∧ cacheCalls (trace (env s)) = cacheCalls (trace ei)
  ∧ ((eg_err s = None ∧ blocksToRemoveChan s = []
      ∧ ∃ fblock, blockToRemove IsInd bad (Some e1) = Some fblock
          ∧ workers s ≫= sendingErr = [(fblock, e1)])
     ∨ (eg_err s = Some e1 ∧ workers s ≫= sendingErr = []
        ∧ blocksToRemoveChan s
          = option_list (blockToRemove IsInd bad (Some e1)))).
Proof.
  intros Hlive. unfold BadPut.
  destruct (main_pc s) as [| |ptrs err|]; try tauto.
  by destruct (Hlive ptrs err).
Qed.

(** The entries in flight after a worker's step still all succeed. *)
Local Ltac pending_good Hw :=
  unfold pending; cbn [main_pc blocks workers];
  norm_Forall; repeat split; try tauto;
  try (eapply Forall_bind_insert; [exact Hw|tauto|];
       simpl; norm_Forall; tauto).

Lemma BadPut_step ei bad e1 t s s' :
  Inv_ s → BadPut_ ei bad e1 s → Step_ t s s' → BadPut_ ei bad e1 s'.
Proof.
  intros HI HB Hstep.
  pose proof (inv_cb _ _ _ HI) as Icb.
  pose proof (inv_fblocks _ _ _ HI) as Ifb.
  pose proof (worker_live s) as Hlive. specialize (λ i w, Hlive i w HI).
  clear HI.
  step_cases_wait Hstep.
  4-13: specialize (Hlive _ _ Hw eq_refl);
        apply (BadPut_live _ _ _ _ Hlive) in HB
          as (Hrec & Hgood & Hcache & Hdisj);
        apply BadPut_live; [exact Hlive|];
        unfold pending in Hgood; rewrite !Forall_app in Hgood;
        destruct Hgood as [(Hu & Hq & Hp') Hc'];
        pose proof (Forall_bind_lookup _ heldPut _ _ _ Hw Hp') as Hwp;
        pose proof (Forall_bind_lookup _ heldCb _ _ _ Hw Hc') as Hwc;
        pose proof (Forall_lookup_1 _ _ _ _ Icb Hw) as Hwcb;
        simpl in Hwp, Hwc, Hwcb; norm_Forall;
        (split; [exact Hrec|]).
  - (* send *)
    unfold BadPut in *. rewrite Hpc in HB. cbn [main_pc].
    destruct HB as (Hrec & Hgood & Hm). split; [done|]. split; [|done].
    unfold pending in *. rewrite Hpc in Hgood. cbn [main_pc blocks workers unsent] in *.
    norm_Forall. tauto.
  - (* close *)
    unfold BadPut in *. rewrite Hpc in HB. cbn [main_pc].
    destruct HB as (Hrec & Hgood & Hm). split; [done|]. split; [|done].
    unfold pending in *. by rewrite Hpc in Hgood.
  - (* wait *)
    unfold BadPut in *. rewrite Hpc in HB. cbn [main_pc].
    destruct HB as (Hrec & Hgood & Hcache & Hdisj). split; [done|]. split.
    { unfold pending in *. rewrite Hpc in Hgood.
      destruct Haw
        as [(_ & -> & _)|[(_ & ptrs & _ & ->)|(_ & msg & _ & -> & _)]];
        done. }
    apply forallb_isDone in Hd.
    assert (Hnil : workers s ≫= sendingErr = []).
    { apply (bind_nil_sum _ running); [|done]. by intros [| | | |]. }
    destruct Hdisj as [(_ & _ & fb1 & _ & Hs)|(Herr & _ & Hchan)];
      [by rewrite Hnil in Hs|].
    rewrite Herr, Hrec in Haw.
    destruct (blockToRemove IsInd bad (Some e1)) as [fb1|] eqn:Hrm;
      simpl in Hchan.
    + rewrite Hchan in Ifb, Haw. apply Forall_app in Ifb as [Ifb _].
      apply Forall_cons in Ifb as [Hent _].
      destruct (last_entries_Some fb1 [] Hent) as [p Hlast].
      rewrite (drain_cons _ _ _ _ _ Hlast) in Haw. simpl in Haw, Hlast.
      destruct Haw as [(? & _)|[(_ & ptrs & [= <- <-] & ->)|(_ & ? & ? & _)]];
        try done.
      split; [done|]. unfold Outcome. rewrite Hrm. split; [done|].
      exists p. split; [done|]. cbn [env].
      by rewrite cacheCalls_afterDeletes, Hcache.
    + rewrite Hchan in Haw. simpl in Haw.
      destruct Haw as [(? & _)|[(_ & ptrs & [= <- <-] & ->)|(_ & ? & ? & _)]];
        try done.
      split; [done|]. unfold Outcome. by rewrite Hrm.
  - (* recv *)
    cbn [main_pc blocks workers eg_err env blocksToRemoveChan].
    rewrite (bind_insert_nil sendingErr _ _ _ _ Hw) by done.
    split; [|done]. rewrite Hb in Hq. pending_good Hw.
  - (* exit *)
    unfold workerReturn.
    cbn [main_pc blocks workers eg_err env blocksToRemoveChan].
    rewrite (bind_insert_nil sendingErr _ _ _ _ Hw) by done.
    split.
    { pending_good Hw. }
    split; [done|]. by destruct (eg_err s).
  - (* put, then callback *)
    apply PutBlockCheckQuota_success in Hp as [_ Htr];
      [|by destruct Hwp as [[? ?] _]].
    unfold setWorker, setEnv.
    cbn [main_pc blocks workers eg_err env blocksToRemoveChan].
    rewrite (bind_insert_nil sendingErr _ _ _ _ Hw) by done.
    split.
    { pending_good Hw. }
    split; [|done].
    rewrite Htr, cacheCalls_app, cacheCalls_bserverCall. by rewrite app_nil_r.
  - (* put, no callback *)
    apply PutBlockCheckQuota_success in Hp as [_ Htr];
      [|by destruct Hwp as [[? ?] _]].
    unfold setWorker, setEnv.
    cbn [main_pc blocks workers eg_err env blocksToRemoveChan].
    rewrite (bind_insert_nil sendingErr _ _ _ _ Hw) by done.
    split.
    { pending_good Hw. }
    split; [|done].
    rewrite Htr, cacheCalls_app, cacheCalls_bserverCall. by rewrite app_nil_r.
  - exfalso. apply PutBlockCheckQuota_success in Hp as [? _]; [done|].
    by destruct Hwp as [[? ?] _].
  - exfalso. apply PutBlockCheckQuota_success in Hp as [? _]; [done|].
    by destruct Hwp as [[? ?] _].
  - (* callback *)
    unfold setWorker, setEnv.
    cbn [main_pc blocks workers eg_err env blocksToRemoveChan].
    rewrite (bind_insert_nil sendingErr _ _ _ _ Hw) by done.
    split.
    { pending_good Hw. }
    split; [|done]. by rewrite (cacheCalls_extern_cb _ _ _ _ _ Hp).
  - exfalso. eapply cb_fails_not; [|exact Hwcb|exact Hp]. tauto.
  - exfalso. eapply cb_fails_not; [|exact Hwcb|exact Hp]. tauto.
  - (* send on the result channel *)
    unfold workerReturn.
    cbn [main_pc blocks workers eg_err env blocksToRemoveChan].
    split.
    { pending_good Hw. }
    split; [done|].
    destruct Hdisj as [(Herr & Hchan & fb1 & Hrm & Hs)|(_ & Hs & _)].
    2: { pose proof (sendingErr_lookup _ _ _ _ _ Hw Hs) as Hin.
         by apply elem_of_nil in Hin. }
    pose proof (sendingErr_lookup _ _ _ _ _ Hw Hs) as Hin.
    apply list_elem_of_singleton in Hin as [= -> ->].
    right. rewrite Herr, Hchan, Hrm. repeat split; try done.
    pose proof (bind_insert_perm sendingErr _ _ _ (@WDone World (Some e1)) Hw)
      as Hins.
    rewrite Hs in Hins. cbn [sendingErr] in Hins. rewrite app_nil_r in Hins.
    apply Permutation_nil_r.
    by apply (Permutation_app_inv_r [(fb1, e1)] _ []).
Qed.

Lemma OneBad_run ei bad l1 l2 sched sf :
  blockStates bps = l1 ++ bad :: l2 →
  Forall succeeds_ (l1 ++ l2) →
  remoteFailsRecoverably_ bad →
  run_ sched (init_ ei) = Some sf → Inv_ sf ∧ OneBad_ ei bad sf.
Proof.
  intros Hbatch Hothers Hbad Hrun.
  eapply (run_invariant (λ s, Inv_ s ∧ OneBad_ ei bad s)); [| |exact Hrun].
  - intros t s1 s2 [HI [HA|[e1 HB]]] Hstep; (split; [by eapply Inv_step|]).
    + by eapply BadPending_step.
    + right. exists e1. by eapply BadPut_step.
  - split; [apply Inv_init|]. left. unfold BadPending, init, pending.
    cbn [main_pc blocks workers eg_err env blocksToRemoveChan unsent].
    rewrite !bind_replicate_nil by done.
    repeat split; try done. exists (l1 ++ l2).
    rewrite !app_nil_r. split; [|done].
    rewrite Hbatch. change (bad :: l2) with ([bad] ++ l2). aac_reflexivity.
Qed.

Lemma filter_none {A} (P : A → Prop) `{!∀ x, Decision (P x)} (l : list A) :
  Forall (λ x, ¬ P x) l → filter P l = [].
Proof.
  induction 1 as [|x l Hx _ IH]; [done|].
  by rewrite filter_cons_False.
Qed.

(** C1, as amended.  Take a batch in which exactly one entry fails, with a
    recoverable classification, while the remote call and the callback of
    every other entry succeed (and a positive bound on parallel puts).
    Under every schedule [doBlockPuts] returns, and returns that
    recoverable error.  When the failing entry's block is a [*FileBlock]
    that is not indirect, the list returned holds the pointers of the
    entries of the batch that hold that same block -- exactly the failing
    entry's pointer when no other entry holds it -- and the block cache has
    been asked, once each, [DeleteKnownPtr] for the block and
    [DeleteTransient] for the last pointer of the list.  When the block is
    of another type or is an indirect file block, the list is nil and the
    cache has not been called. *)
Theorem doBlockPuts_one_recoverable_failure ei l1 bad l2
    (Hmax : (0 < maxParallelBlockPuts)%nat)
    (Hbatch : blockStates bps = l1 ++ bad :: l2)
    (Hothers : Forall succeeds_ (l1 ++ l2))
    (Hbad : remoteFailsRecoverably_ bad) :
  (∀ sched s, run_ sched (init_ ei) = Some s →
     (length sched ≤ measure (init_ ei))%nat
     ∧ ∃ sched' r,
         doBlockPuts IsPublic IsInd maxParallelBlockPuts ctx bserv bcache
           reporter tlfID tlfName bps (sched ++ sched') ei = Some r)
  ∧ (∀ sched blocksToRemove err e',
       doBlockPuts IsPublic IsInd maxParallelBlockPuts ctx bserv bcache
         reporter tlfID tlfName bps sched ei
       = Some (blocksToRemove, err, e') →
       ∃ e, err = Some e ∧ isRecoverableBlockError (Some e) = true
       ∧ match block bad with
         | FileBlockPtr fblock =>
             if IsInd fblock then
               blocksToRemove = []
               ∧ cacheCalls (trace e') = cacheCalls (trace ei)
             else
               blocksToRemove = map blockPtr (entriesOf_ fblock)
               ∧ (∃ p, last blocksToRemove = Some p
                    ∧ cacheCalls (trace e')
                      = cacheCalls (trace ei)
                        ++ [EvDeleteKnownPtr tlfID fblock;
                            EvDeleteTransient p tlfID])
               ∧ (Forall (λ bs, block bs ≠ FileBlockPtr fblock) (l1 ++ l2) →
                  blocksToRemove = [blockPtr bad]
                  ∧ cacheCalls (trace e')
                    = cacheCalls (trace ei)
                      ++ [EvDeleteKnownPtr tlfID fblock;
                          EvDeleteTransient (blockPtr bad) tlfID])
         | _ =>
             blocksToRemove = []
             ∧ cacheCalls (trace e') = cacheCalls (trace ei)
         end).
Proof.
  split.
  - intros sched s Hrun.
    destruct (doBlockPuts_terminates _ _ _ Hrun)
      as (Hlen & _ & sched' & s' & Hrun' & ptrs & err & Hpc).
    split; [done|]. exists sched', (ptrs, err, env s').
    unfold doBlockPuts. by rewrite Hrun', Hpc.
  - intros sched ptrs err e'. unfold doBlockPuts.
    destruct (run_ sched (init_ ei)) as [s|] eqn:Hrun; [|done].
    destruct (main_pc s) as [| |ptrs' err'|] eqn:Hpc; try done.
    intros [= -> -> <-].
    destruct (OneBad_run _ _ _ _ _ _ Hbatch Hothers Hbad Hrun)
      as [HI [HA|[e1 HB]]].
    + exfalso. destruct HA as (Gerr & _ & _ & _ & others & Hperm & _).
      pose proof (inv_err _ _ _ HI Gerr) as Hfail.
      destruct (returned_queue_empty s Hmax HI ltac:(by eexists _, _) Hfail)
        as (Hq & Hh & _ & Hu).
      unfold pending in Hperm. rewrite Hq, Hh, Hu in Hperm. simpl in Hperm.
      by apply Permutation_nil_cons in Hperm.
    + unfold BadPut in HB. rewrite Hpc in HB.
      destruct HB as (Hrec & _ & -> & Hout).
      exists e1. split; [done|]. split; [done|].
      unfold Outcome, blockToRemove in Hout. rewrite Hrec in Hout.
      rewrite bool_decide_eq_true_2 in Hout by done. simpl in Hout.
      destruct (block bad) as [fblock|p|p] eqn:Hblk; try done.
      destruct (IsInd fblock) eqn:Hind; simpl in Hout; [done|].
      destruct Hout as (-> & p & Hlast & Hcalls).
      split; [done|]. split; [by exists p|].
      intros Hsole. apply Forall_app in Hsole as [Hs1 Hs2].
      assert (Hent : entriesOf_ fblock = [bad]).
      { unfold entriesOf. rewrite Hbatch, filter_app.
        rewrite filter_cons_True by done.
        by rewrite !filter_none. }
      rewrite Hent in *. simpl in *. by injection Hlast as <-.
Qed.

(** *** What a worker's error does to the batch *)

(** C2, as amended.  A worker's recoverable error, like any other error a
    worker returns, ends that worker and cancels the group's context: from
    the moment a worker has returned an error, the context handed to the
    block server is the cancelled one.  A put that fails recoverably on an
    entry whose block is a [*FileBlock] that is not indirect takes its
    worker to the send on the result channel; that send is always possible,
    it appends the block to the channel, and with it the worker returns the
    error and the context is cancelled.  The other workers keep taking
    entries from the queue: when the call has returned, an entry is left
    unprocessed only if every worker has returned an error. *)
Theorem worker_error_cancels_group sched ei s
    (Hrun : run_ sched (init_ ei) = Some s) :
  ((0 < sum_list (failed <$> workers s))%nat →
   groupCtx ctx s = context.WithCancel ctx true)
  ∧ (∀ i bs e0 e1 fblock,
       workers s !! i = Some (WPut bs) →
       PutBlockCheckQuota IsPublic (groupCtx ctx s) bserv reporter tlfID
         (blockPtr bs) (readyBlockData bs) tlfName (env s)
       = Ret (Some e0) e1 →
       blockToRemove IsInd bs (Some e0) = Some fblock →
       step_ (Worker i) s = Some (setWorker i (WSend fblock e0) (setEnv e1 s)))
  ∧ (∀ i fblock e0,
       workers s !! i = Some (WSend fblock e0) →
       ∃ s', step_ (Worker i) s = Some s'
         ∧ blocksToRemoveChan s' = blocksToRemoveChan s ++ [fblock]
         ∧ workers s' !! i = Some (WDone (Some e0))
         ∧ groupCtx ctx s' = context.WithCancel ctx true)
  ∧ (returned s →
     (sum_list (failed <$> workers s) < numWorkers_)%nat →
     pending s = []).
Proof.
  pose proof (Inv_run _ _ _ Hrun) as HI. split; [|split; [|split]].
  - intros Hf. unfold groupCtx.
    destruct (eg_err s) as [e0|] eqn:Herr.
    + by rewrite bool_decide_eq_true_2.
    + pose proof (inv_err _ _ _ HI Herr). lia.
  - intros i bs e0 e1 fblock Hw Hp Hrm. unfold step, afterCalls.
    by rewrite Hw, Hp, Hrm.
  - intros i fblock e0 Hw.
    pose proof (chan_has_room _ _ _ _ HI Hw) as Hroom.
    eexists. unfold step. rewrite Hw, decide_True by done.
    split; [done|]. unfold workerReturn, groupCtx. simpl.
    split; [done|]. split.
    + apply list_lookup_insert_eq. by eapply lookup_lt_Some.
    + destruct (eg_err s); by rewrite bool_decide_eq_true_2.
  - intros (ptrs & err & Hpc) Hlt.
    pose proof (inv_done _ _ _ HI) as Idone. rewrite Hpc in Idone.
    pose proof (sum_list_three running failed exited (workers s)) as H3.
    rewrite (inv_workers _ _ _ HI) in H3.
    assert (∀ w : @worker World,
              (running w + failed w + exited w = 1)%nat) as Hone.
    { intros [| | | |[|]]; reflexivity. }
    specialize (H3 Hone).
    destruct (inv_exit _ _ _ HI) as [Hq _]; [lia|].
    unfold pending. rewrite Hpc, Hq. simpl.
    apply (bind_nil_sum _ running); [|done]. by intros [| | | |].
Qed.

(** *** Every call returns *)

Lemma measure_init e :
  measure (init_ e)
  = (4 * length (blockStates bps) + 2 + numWorkers_)%nat.
Proof.
  unfold measure, init. cbn [main_pc blocks workers mainMeasure length].
  rewrite fmap_replicate, sum_list_replicate. cbn [workerMeasure]. lia.
Qed.

(** X7.  Provided the calls out of the program return, [doBlockPuts]
    returns under every schedule, whatever the batch and whatever the
    server and the callbacks answer.  A schedule takes at most
    [4 * len(bps.blockStates) + 2 + numWorkers] steps; at every moment
    either the call has returned or some goroutine can take a step (no
    deadlock on [blocks] or on [blocksToRemoveChan]); the index
    [blocksToRemove[len(blocksToRemove)-1]] is never out of range; and
    every schedule can be continued to the return. *)
Theorem doBlockPuts_always_returns sched e s
    (Hrun : run_ sched (init_ e) = Some s) :
  (length sched ≤ 4 * length (blockStates bps) + 2 + numWorkers_)%nat
  ∧ (∀ msg, main_pc s ≠ MPanicked msg)
  ∧ (returned s ∨ ∃ t s', step_ t s = Some s')
  ∧ ∃ sched' r,
      doBlockPuts IsPublic IsInd maxParallelBlockPuts ctx bserv bcache
        reporter tlfID tlfName bps (sched ++ sched') e = Some r.
Proof.
  pose proof (Inv_run _ _ _ Hrun) as HI.
  split; [|split; [|split]].
  - pose proof (run_measure _ _ _ Hrun) as Hm. rewrite measure_init in Hm.
    lia.
  - apply (inv_nopanic _ _ _ HI).
  - by apply progress.
  - destruct (run_completes s HI) as (sched' & s' & Hrun' & Hret).
    exists sched'. destruct Hret as (ptrs & err & Hpc).
    exists (ptrs, err, env s'). unfold doBlockPuts.
    by rewrite run_app, Hrun, Hrun', Hpc.
Qed.

(** *** What is handed back, and what is asked of the cache *)
Local Abbreviation removedPtrs_ := (removedPtrs bps).
Local Abbreviation cleanupCall_ := (cleanupCall tlfID).
Local Abbreviation Cleanup_ := (Cleanup IsInd maxParallelBlockPuts tlfID bps).
Local Abbreviation Records_ := (Records IsInd maxParallelBlockPuts tlfID bps).

(** What one put adds to the trace: the server call and, after a soft
    over-quota answer, the report. *)
Lemma PutBlockCheckQuota_new c (bs : blockState World) e err e' :
  PutBlockCheckQuota IsPublic c bserv reporter tlfID (blockPtr bs)
    (readyBlockData bs) tlfName e = Ret err e' →
  ∃ rep, trace e' = trace e ++ [bserverCall_ c bs] ++ rep
    ∧ cacheCalls rep = [] ∧ serverCalls rep = [] ∧ workCalls rep = [].
Proof.
  unfold PutBlockCheckQuota, mbind, M_bind.
  destruct (putBlockToServer _ _ _ _ _ _) as [serr e1| |] eqn:Hs; [|done..].
  apply putBlockToServer_trace in Hs.
  assert (Hplain : Ret serr e1 = Ret err e' →
    ∃ rep, trace e' = trace e ++ [bserverCall_ c bs] ++ rep
      ∧ cacheCalls rep = [] ∧ serverCalls rep = [] ∧ workCalls rep = []).
  { intros [= <- <-]. exists []. by rewrite app_nil_r. }
  destruct serr as [[m|m|m|m|m u l [|]|u l| | |x y|m]|]; try exact Hplain.
  unfold Reporter_ReportErr, extern, mret, M_ret. intros [= <- <-].
  eexists [_]. cbn [trace]. rewrite Hs, <- app_assoc. done.
Qed.

Lemma removedPtrs_cons fblock ch :
  removedPtrs_ (fblock :: ch)
  = map blockPtr (entriesOf_ fblock) ++ removedPtrs_ ch.
Proof. reflexivity. Qed.

Lemma cleanupCall_mono ch ch' l l' ev :
  ch ⊆ ch' → l ⊆ l' → cleanupCall_ ch l ev → cleanupCall_ ch' l' ev.
Proof.
  intros Hch Hl [(fblock & -> & Hin)|(p & -> & Hin)].
  - left. exists fblock. split; [done|]. by apply Hch.
  - right. exists p. split; [done|]. by apply Hl.
Qed.

(** The cleanup loop: the list it returns and its calls to the cache. *)
Lemma drain_cleanup ch acc (e : Env World) r e' :
  Forall (λ fblock, entriesOf_ fblock ≠ []) ch →
  drain_ ch acc e = Ret r e' →
  r = acc ++ removedPtrs_ ch
  ∧ ∃ calls add,
      trace e' = trace e ++ add
      ∧ cacheCalls add = calls ∧ workCalls add = [] ∧ serverCalls add = []
      ∧ length calls = (2 * length ch)%nat
      ∧ Forall (cleanupCall_ ch r) calls.
Proof.
  intros Hne. revert acc e. induction Hne as [|fblock ch Hf _ IH];
    intros acc e.
  - intros [= <- <-]. split; [by rewrite app_nil_r|].
    exists [], []. by rewrite app_nil_r.
  - destruct (last_entries_Some fblock acc Hf) as (p & Hlast).
    rewrite (drain_cons _ _ _ _ _ Hlast). intros Hdr.
    apply IH in Hdr as (-> & calls & add & Htr & Hcalls & Hwork & Hserv
                         & Hlen & Hall).
    split; [by rewrite removedPtrs_cons, app_assoc|].
    assert (Hdel : ∃ add0,
      trace (afterDeletes_ fblock p e) = trace e ++ add0
      ∧ cacheCalls add0
        = [EvDeleteKnownPtr tlfID fblock; EvDeleteTransient p tlfID]
      ∧ workCalls add0 = [] ∧ serverCalls add0 = []).
    { unfold afterDeletes.
      destruct (bcache_DeleteKnownPtr bcache tlfID fblock (world e))
        as [[e1|] w1];
      destruct (bcache_DeleteTransient bcache p tlfID w1) as [[e2|] w2];
      cbn [trace]; eexists; (split; [reflexivity|]); done. }
    destruct Hdel as (add0 & Htr0 & Hc0 & Hw0 & Hs0).
    exists ([EvDeleteKnownPtr tlfID fblock; EvDeleteTransient p tlfID]
            ++ calls), (add0 ++ add).
    rewrite Htr, Htr0, <- app_assoc. split; [done|].
    unfold cacheCalls, workCalls, serverCalls in *.
    rewrite !filter_app, Hc0, Hw0, Hs0, Hcalls, Hwork, Hserv.
    split; [done|]. split; [done|]. split; [done|].
    split; [simpl; lia|].
    apply Forall_app. split.
    + apply Forall_cons. split.
      { left. exists fblock. split; [done|]. by apply list_elem_of_here. }
      apply Forall_cons. split; [|done].
      right. exists p. split; [done|].
      apply elem_of_app. left. by apply last_Some_elem_of.
    + eapply Forall_impl; [exact Hall|]. intros ev.
      apply cleanupCall_mono; [|done]. intros x Hx.
      by apply list_elem_of_further.
Qed.

Lemma Records_init ei : Records_ ei (init_ ei).
Proof.
  split; [|done]. simpl. by rewrite bind_replicate_nil.
Qed.

Lemma chan_length_le (s : @state World) :
  Inv_ s → (length (blocksToRemoveChan s) ≤ numWorkers_)%nat.
Proof.
  intros HI. pose proof (inv_chan _ _ _ HI) as Hc.
  rewrite <- (inv_workers _ _ _ HI).
  etransitivity; [exact Hc|]. apply sum_list_le_length.
  intros [| | | |[|]]; simpl; lia.
Qed.

Lemma Records_step ei t s s' :
  Inv_ s → Records_ ei s → Step_ t s s' → Records_ ei s'.
Proof.
  intros HI [Hind Hcache] Hstep.
  pose proof (worker_live s) as Hlive. specialize (λ i w, Hlive i w HI).
  pose proof (chan_length_le s HI) as Hlen'.
  rewrite Forall_app in Hind. destruct Hind as [Hch Hsd].
  pose proof (inv_fblocks _ _ _ HI) as Ifb.
  rewrite Forall_app in Ifb. destruct Ifb as [Hne _]. clear HI.
  step_cases_wait Hstep.
  - (* send *)
    split; [by apply Forall_app|]. simpl. by rewrite Hpc in Hcache.
  - (* close *)
    split; [by apply Forall_app|]. simpl. by rewrite Hpc in Hcache.
  - (* wait *)
    rewrite Hpc in Hcache. split; [by apply Forall_app|]. simpl.
    destruct (drain_returns (blocksToRemoveChan s) [] (env s) Hne)
      as (ptrs' & e' & Hret).
    destruct Haw
      as [(Hrec & -> & ->)|[(Hrec & ptrs & Hdr & ->)|(_ & msg & Hpan & _)]].
    + exists [], []. unfold Cleanup. rewrite app_nil_r.
      split; [simpl; lia|]. by repeat split.
    + apply drain_cleanup in Hdr
        as (-> & calls & add & Htr & Hcalls & _ & _ & Hlen & Hall);
        [|done].
      exists (blocksToRemoveChan s), calls. unfold Cleanup.
      split; [done|]. split.
      { apply Forall_forall. intros fblock Hin.
        rewrite Forall_forall in Hch, Hne.
        split; [by apply Hch|by apply Hne]. }
      split; [congruence|]. split; [done|].
      split; [|done]. rewrite Htr, cacheCalls_app, Hcache, Hcalls. done.
    + congruence.
  - (* recv *)
    split.
    + apply Forall_app. split; [done|].
      eapply Forall_bind_insert; [exact Hw|done|done].
    + simpl. by destruct (main_pc s) eqn:Hpc'.
  - (* exit *)
    split.
    + apply Forall_app. split; [done|].
      eapply Forall_bind_insert; [exact Hw|done|done].
    + simpl. by destruct (main_pc s) eqn:Hpc'.
  - (* put, then callback *)
    apply PutBlockCheckQuota_new in Hp as (rep & Htr & Hrep & _).
    split.
    + apply Forall_app. split; [done|].
      eapply Forall_bind_insert; [exact Hw|done|done].
    + simpl. destruct (main_pc s) eqn:Hpc'; try done;
        try (by destruct (Hlive _ _ Hw eq_refl _ _ eq_refl));
        rewrite Htr, !cacheCalls_app, cacheCalls_bserverCall, Hrep;
        by rewrite !app_nil_r.
  - (* put returns nil *)
    apply PutBlockCheckQuota_new in Hp as (rep & Htr & Hrep & _).
    split.
    + apply Forall_app. split; [done|].
      eapply Forall_bind_insert; [exact Hw|done|done].
    + simpl. destruct (main_pc s) eqn:Hpc'; try done;
        try (by destruct (Hlive _ _ Hw eq_refl _ _ eq_refl));
        rewrite Htr, !cacheCalls_app, cacheCalls_bserverCall, Hrep;
        by rewrite !app_nil_r.
  - (* put fails, block to record *)
    apply PutBlockCheckQuota_new in Hp as (rep & Htr & Hrep & _).
    apply blockToRemove_Some in Hrm as (_ & Hni & _).
    split.
    + apply Forall_app. split; [done|].
      eapply Forall_bind_insert; [exact Hw|done|]. simpl.
      by apply Forall_singleton.
    + simpl. destruct (main_pc s) eqn:Hpc'; try done;
        try (by destruct (Hlive _ _ Hw eq_refl _ _ eq_refl));
        rewrite Htr, !cacheCalls_app, cacheCalls_bserverCall, Hrep;
        by rewrite !app_nil_r.
  - (* put fails, nothing to record *)
    apply PutBlockCheckQuota_new in Hp as (rep & Htr & Hrep & _).
    split.
    + apply Forall_app. split; [done|].
      eapply Forall_bind_insert; [exact Hw|done|done].
    + simpl. destruct (main_pc s) eqn:Hpc'; try done;
        try (by destruct (Hlive _ _ Hw eq_refl _ _ eq_refl));
        rewrite Htr, !cacheCalls_app, cacheCalls_bserverCall, Hrep;
        by rewrite !app_nil_r.
  - (* callback returns nil *)
    apply cacheCalls_extern_cb in Hp.
    split.
    + apply Forall_app. split; [done|].
      eapply Forall_bind_insert; [exact Hw|done|done].
    + simpl. destruct (main_pc s) eqn:Hpc'; try done;
        try (by destruct (Hlive _ _ Hw eq_refl _ _ eq_refl)); congruence.
  - (* callback fails, block to record *)
    apply cacheCalls_extern_cb in Hp.
    apply blockToRemove_Some in Hrm as (_ & Hni & _).
    split.
    + apply Forall_app. split; [done|].
      eapply Forall_bind_insert; [exact Hw|done|]. simpl.
      by apply Forall_singleton.
    + simpl. destruct (main_pc s) eqn:Hpc'; try done;
        try (by destruct (Hlive _ _ Hw eq_refl _ _ eq_refl)); congruence.
  - (* callback fails, nothing to record *)
    apply cacheCalls_extern_cb in Hp.
    split.
    + apply Forall_app. split; [done|].
      eapply Forall_bind_insert; [exact Hw|done|done].
    + simpl. destruct (main_pc s) eqn:Hpc'; try done;
        try (by destruct (Hlive _ _ Hw eq_refl _ _ eq_refl)); congruence.
  - (* send on the result channel *)
    pose proof (Forall_bind_lookup _ sending _ _ _ Hw Hsd) as Hws.
    simpl in Hws.
    split.
    + simpl. rewrite !Forall_app. split; [split; [done|]|].
      * exact Hws.
      * eapply Forall_bind_insert; [exact Hw|done|done].
    + simpl. by destruct (main_pc s) eqn:Hpc'.
Qed.

Lemma Records_run ei sched sf :
  run_ sched (init_ ei) = Some sf → Inv_ sf ∧ Records_ ei sf.
Proof.
  intros Hrun.
  eapply (run_invariant (λ s, Inv_ s ∧ Records_ ei s)); [| |exact Hrun].
  - intros t s1 s2 [HI HR] Hstep. split; [by eapply Inv_step|].
    by eapply Records_step.
  - split; [apply Inv_init|apply Records_init].
Qed.

Lemma doBlockPuts_Cleanup sched ei blocksToRemove err e' :
  doBlockPuts IsPublic IsInd maxParallelBlockPuts ctx bserv bcache reporter
    tlfID tlfName bps sched ei = Some (blocksToRemove, err, e') →
  ∃ ch calls, Cleanup_ ei blocksToRemove err e' ch calls.
Proof.
  unfold doBlockPuts.
  destruct (run_ sched (init_ ei)) as [sf|] eqn:Hrun; [|done].
  destruct (Records_run _ _ _ Hrun) as [_ [_ HR]].
  destruct (main_pc sf); try done. by intros [= <- <- <-].
Qed.

(** X8.  Unless the error it returns is classified recoverable,
    [doBlockPuts] hands back the nil list and has not called the block
    cache, even when workers have recorded blocks on the result channel.
    In particular a call that returns nil, or a non-empty list, has
    respectively left the cache alone and returned a recoverable error. *)
Theorem doBlockPuts_cleanup_only_if_recoverable sched ei blocksToRemove err e'
    (Hret : doBlockPuts IsPublic IsInd maxParallelBlockPuts ctx bserv bcache
              reporter tlfID tlfName bps sched ei
            = Some (blocksToRemove, err, e')) :
  (isRecoverableBlockError err = false →
   blocksToRemove = [] ∧ cacheCalls (trace e') = cacheCalls (trace ei))
  ∧ (err = None →
     blocksToRemove = [] ∧ cacheCalls (trace e') = cacheCalls (trace ei))
  ∧ (blocksToRemove ≠ [] → isRecoverableBlockError err = true).
Proof.
  destruct (doBlockPuts_Cleanup _ _ _ _ _ Hret)
    as (ch & calls & _ & _ & Hnil & -> & Hcache & Hlen & _).
  assert (Hno : isRecoverableBlockError err = false →
    removedPtrs_ ch = [] ∧ cacheCalls (trace e') = cacheCalls (trace ei)).
  { intros Hrec. rewrite (Hnil Hrec) in *. split; [done|].
    destruct calls; [|done]. by rewrite Hcache, app_nil_r. }
  split; [exact Hno|]. split.
  - intros ->. by apply Hno.
  - intros Hne. destruct (isRecoverableBlockError err) eqn:Hrec; [done|].
    by destruct (Hno eq_refl).
Qed.


(** *** Every entry is submitted at most once *)
Local Abbreviation submission_ := (submission ctx tlfID).
Local Abbreviation Submitted_ := (Submitted ctx tlfID bps).

Lemma serverCalls_app tr1 tr2 :
  serverCalls (tr1 ++ tr2) = serverCalls tr1 ++ serverCalls tr2.
Proof. apply filter_app. Qed.

Lemma serverCalls_bserverCall c (bs : blockState World) :
  serverCalls [bserverCall_ c bs] = [bserverCall_ c bs].
Proof. unfold bserverCall. by case_decide. Qed.

Lemma extern_trace {A} ev (f : World → A * World) (e : Env World) r e' :
  extern ev f e = Ret r e' → trace e' = trace e ++ [ev].
Proof. unfold extern. destruct (f (world e)). by intros [= _ <-]. Qed.

Lemma Submitted_add ei (s s' : @state World) new done add :
  Submitted_ ei s new done →
  trace (env s') = trace (env s) ++ add → serverCalls add = [] →
  pending s' ≡ₚ pending s →
  Submitted_ ei s' (new ++ add) done.
Proof.
  intros (Htr & Hcalls & Hperm) Htr' Hadd Hpend. split; [|split].
  - by rewrite Htr', Htr, app_assoc.
  - by rewrite serverCalls_app, Hadd, app_nil_r.
  - by rewrite Hpend.
Qed.

Lemma Submitted_same ei (s s' : @state World) new done :
  Submitted_ ei s new done →
  env s' = env s → pending s' ≡ₚ pending s →
  Submitted_ ei s' new done.
Proof.
  intros HS He Hpend. rewrite <- (app_nil_r new).
  eapply Submitted_add; [exact HS| |done|done]. by rewrite He, app_nil_r.
Qed.

Lemma Submitted_put ei (s s' : @state World) new done bs rep :
  Submitted_ ei s new done →
  trace (env s') = trace (env s) ++ [bserverCall_ (groupCtx ctx s) bs] ++ rep →
  serverCalls rep = [] →
  pending s' ++ [bs] ≡ₚ pending s →
  Submitted_ ei s' (new ++ [bserverCall_ (groupCtx ctx s) bs] ++ rep)
    (done ++ [(bs, bool_decide (eg_err s ≠ None))]).
Proof.
  intros (Htr & Hcalls & Hperm) Htr' Hrep Hpend. split; [|split].
  - by rewrite Htr', Htr, <- !app_assoc.
  - rewrite !serverCalls_app, serverCalls_bserverCall, Hrep, Hcalls.
    by rewrite map_app, app_nil_r.
  - rewrite map_app. simpl. rewrite <- Hperm, <- Hpend.
    rewrite <- !app_assoc. apply Permutation_app_head.
    apply Permutation_app_comm.
Qed.

Lemma Submitted_init ei : Submitted_ ei (init_ ei) [] [].
Proof.
  split; [by rewrite app_nil_r|]. split; [done|].
  unfold pending, init. simpl.
  rewrite bind_replicate_nil by done. by rewrite !app_nil_r.
Qed.

Lemma Submitted_step ei t s s' new done :
  Inv_ s → Submitted_ ei s new done → Step_ t s s' →
  ∃ new' done', Submitted_ ei s' new' done'.
Proof.
  intros HI HS Hstep.
  pose proof (inv_fblocks _ _ _ HI) as Ifb.
  rewrite Forall_app in Ifb. destruct Ifb as [Hne _]. clear HI.
  step_cases_wait Hstep.
  - (* send *)
    exists new, done. eapply Submitted_same; [exact HS|done|].
    unfold pending. cbn [main_pc blocks workers unsent]. rewrite Hpc.
    cbn [unsent]. change (b :: rest) with ([b] ++ rest). aac_reflexivity.
  - (* close *)
    exists new, done. eapply Submitted_same; [exact HS|done|].
    unfold pending. cbn [main_pc blocks workers unsent]. by rewrite Hpc.
  - (* wait *)
    assert (Hpend : pending
      {| main_pc := pc; blocks := blocks s; blocksClosed := blocksClosed s;
         workers := workers s; blocksToRemoveChan := [];
         eg_err := eg_err s; env := e |} ≡ₚ pending s).
    { unfold pending. cbn [main_pc blocks workers]. rewrite Hpc.
      by destruct Haw as [(_ & -> & _)|[(_ & ? & _ & ->)|(_ & ? & _ & -> & _)]]. }
    destruct Haw
      as [(_ & _ & ->)|[(_ & ptrs & Hdr & _)|(_ & msg & _ & _ & ->)]].
    + exists new, done. by eapply Submitted_same.
    + apply drain_cleanup in Hdr
        as (_ & calls & add & Htr & _ & _ & Hserv & _); [|done].
      exists (new ++ add), done. by eapply Submitted_add.
    + exists new, done. by eapply Submitted_same.
  - (* recv *)
    exists new, done. eapply Submitted_same; [exact HS|done|].
    unfold pending. cbn [main_pc blocks workers]. rewrite Hb.
    eapply pending_worker; [exact Hw|]. simpl.
    rewrite app_nil_r. change (b :: rest) with ([b] ++ rest).
    apply Permutation_app_comm.
  - (* exit *)
    exists new, done. eapply Submitted_same; [exact HS|done|].
    unfold pending, workerReturn. cbn [main_pc blocks workers].
    by rewrite (bind_insert_nil heldPut _ _ _ _ Hw).
  - (* put, then callback *)
    apply PutBlockCheckQuota_new in Hp as (rep & Htr & _ & Hrep & _).
    eexists _, _. eapply Submitted_put; [exact HS|exact Htr|exact Hrep|].
    unfold pending. cbn [main_pc blocks workers setWorker setEnv].
    by apply pending_put.
  - (* put returns nil *)
    apply PutBlockCheckQuota_new in Hp as (rep & Htr & _ & Hrep & _).
    eexists _, _. eapply Submitted_put; [exact HS|exact Htr|exact Hrep|].
    unfold pending. cbn [main_pc blocks workers setWorker setEnv].
    by apply pending_put.
  - (* put fails, block to record *)
    apply PutBlockCheckQuota_new in Hp as (rep & Htr & _ & Hrep & _).
    eexists _, _. eapply Submitted_put; [exact HS|exact Htr|exact Hrep|].
    unfold pending. cbn [main_pc blocks workers setWorker setEnv].
    by apply pending_put.
  - (* put fails, nothing to record *)
    apply PutBlockCheckQuota_new in Hp as (rep & Htr & _ & Hrep & _).
    eexists _, _. eapply Submitted_put; [exact HS|exact Htr|exact Hrep|].
    unfold pending. cbn [main_pc blocks workers workerReturn setEnv].
    by apply pending_put.
  - (* callback returns nil *)
    apply extern_trace in Hp.
    eexists _, _. eapply Submitted_add; [exact HS|exact Hp|done|].
    unfold pending. cbn [main_pc blocks workers setWorker setEnv].
    by rewrite (bind_insert_nil heldPut _ _ _ _ Hw).
  - (* callback fails, block to record *)
    apply extern_trace in Hp.
    eexists _, _. eapply Submitted_add; [exact HS|exact Hp|done|].
    unfold pending. cbn [main_pc blocks workers setWorker setEnv].
    by rewrite (bind_insert_nil heldPut _ _ _ _ Hw).
  - (* callback fails, nothing to record *)
    apply extern_trace in Hp.
    eexists _, _. eapply Submitted_add; [exact HS|exact Hp|done|].
    unfold pending. cbn [main_pc blocks workers workerReturn setEnv].
    by rewrite (bind_insert_nil heldPut _ _ _ _ Hw).
  - (* send on the result channel *)
    exists new, done. eapply Submitted_same; [exact HS|done|].
    unfold pending, workerReturn. cbn [main_pc blocks workers].
    by rewrite (bind_insert_nil heldPut _ _ _ _ Hw).
Qed.

Lemma Submitted_run ei sched sf :
  run_ sched (init_ ei) = Some sf →
  Inv_ sf ∧ ∃ new done, Submitted_ ei sf new done.
Proof.
  intros Hrun.
  eapply (run_invariant
            (λ s, Inv_ s ∧ ∃ new done, Submitted_ ei s new done));
    [| |exact Hrun].
  - intros t s1 s2 [HI (new & done & HS)] Hstep.
    split; [by eapply Inv_step|]. by eapply Submitted_step.
  - split; [apply Inv_init|]. exists [], []. apply Submitted_init.
Qed.

(** A returned call has returned the group's error. *)
Lemma returned_err_step t (s s' : @state World) :
  Inv_ s →
  (∀ ptrs err, main_pc s = MReturned ptrs err → err = eg_err s) →
  Step_ t s s' →
  ∀ ptrs err, main_pc s' = MReturned ptrs err → err = eg_err s'.
Proof.
  intros HI Hret Hstep.
  pose proof (worker_live s) as Hlive. specialize (λ i w, Hlive i w HI).
  clear HI.
  step_cases_wait Hstep; intros ptrs err' Hpc'; cbn in Hpc';
    try (by destruct (Hlive _ _ Hw eq_refl _ _ Hpc')); try congruence.
  destruct Haw as [(_ & -> & _)|[(_ & ? & _ & ->)|(_ & ? & _ & -> & _)]];
    by simplify_eq.
Qed.

Lemma returned_err_run sched ei sf ptrs err :
  run_ sched (init_ ei) = Some sf →
  main_pc sf = MReturned ptrs err → err = eg_err sf.
Proof.
  intros Hrun.
  assert (Hinv : Inv_ sf
    ∧ ∀ ptrs err, main_pc sf = MReturned ptrs err → err = eg_err sf).
  { eapply (run_invariant
              (λ s, Inv_ s
                    ∧ ∀ ptrs err, main_pc s = MReturned ptrs err →
                                  err = eg_err s)); [| |exact Hrun].
    - intros t s1 s2 [HI HR] Hstep. split; [by eapply Inv_step|].
      by eapply returned_err_step.
    - split; [apply Inv_init|done]. }
  apply Hinv.
Qed.

(** X10.  [doBlockPuts] calls the block server at most once for each
    entry: when it returns, the server calls made since the call are the
    calls for entries [done], each under the group's context (cancelled or
    not), and [done] together with the entries [left] unprocessed is the
    batch, up to order.  When the bound on parallel puts is positive and
    the call returns nil, nothing is left: each entry has been submitted
    exactly once. *)
Theorem doBlockPuts_submits_once sched ei blocksToRemove err e'
    (Hret : doBlockPuts IsPublic IsInd maxParallelBlockPuts ctx bserv bcache
              reporter tlfID tlfName bps sched ei
            = Some (blocksToRemove, err, e')) :
  ∃ new done left,
    trace e' = trace ei ++ new
    ∧ serverCalls new = map submission_ done
    ∧ map fst done ++ left ≡ₚ blockStates bps
    ∧ (length (serverCalls new) ≤ length (blockStates bps))%nat
    ∧ ((0 < maxParallelBlockPuts)%nat → err = None → left = []).
Proof.
  unfold doBlockPuts in Hret.
  destruct (run_ sched (init_ ei)) as [sf|] eqn:Hrun; [|done].
  destruct (Submitted_run _ _ _ Hrun)
    as [HI (new & done & Htr & Hcalls & Hperm)].
  destruct (main_pc sf) as [| |ptrs err0|] eqn:Hpc; try done.
  injection Hret as <- <- <-.
  pose proof (returned_err_run _ _ _ _ _ Hrun Hpc) as Herr.
  exists new, done, (pending sf).
  split; [done|]. split; [done|]. split; [done|]. split.
  - rewrite Hcalls, length_map. apply Permutation_length in Hperm.
    rewrite length_app, length_map in Hperm. lia.
  - intros Hmax ->.
    destruct (returned_queue_empty sf Hmax HI) as (Hq & Hp & _ & Hu).
    + by exists ptrs, None.
    + by apply (inv_err _ _ _ HI).
    + unfold pending. by rewrite Hq, Hp, Hu.
Qed.

(** *** A call that returns nil *)
Local Abbreviation CleanLedger_ := (CleanLedger ctx tlfID bps).
Local Abbreviation live := (context.WithCancel ctx false).

Lemma workCalls_app tr1 tr2 :
  workCalls (tr1 ++ tr2) = workCalls tr1 ++ workCalls tr2.
Proof. apply filter_app. Qed.

Lemma workCalls_bserverCall c (bs : blockState World) :
  workCalls [bserverCall_ c bs] = [bserverCall_ c bs].
Proof. unfold bserverCall. by case_decide. Qed.

(** A worker that is inserted in a pool without senders is no sender. *)
Lemma sending_insert_nil (ws : list (@worker World)) i w w' :
  ws !! i = Some w → <[i := w']> ws ≫= sending = [] → sending w' = [].
Proof.
  intros Hw Hnil.
  assert (Hi : <[i := w']> ws !! i = Some w').
  { apply list_lookup_insert_eq. by eapply lookup_lt_Some. }
  pose proof (Forall_bind_lookup (λ _, False) sending _ _ _ Hi) as Hns.
  rewrite Hnil in Hns. specialize (Hns (List.Forall_nil _)).
  destruct (sending w'); [done|]. by apply Forall_cons in Hns as [? _].
Qed.

Lemma clean_insert (s : @state World) i w w' :
  workers s !! i = Some w → sending w = [] →
  eg_err s = None → <[i := w']> (workers s) ≫= sending = [] →
  clean s.
Proof.
  intros Hw Hsw Herr Hnil. split; [done|].
  pose proof (sending_insert_nil _ _ _ _ Hw Hnil) as Hsw'.
  by rewrite (bind_insert_nil sending _ _ _ _ Hw) in Hnil.
Qed.

Lemma CleanLedger_init ei : CleanLedger_ ei (init_ ei).
Proof.
  exists []. split; [by rewrite app_nil_r|]. intros _. simpl.
  rewrite bind_replicate_nil by done. by rewrite !app_nil_r.
Qed.

Local Ltac led_norm :=
  cbn [main_pc blocks blocksClosed workers blocksToRemoveChan eg_err env
       setWorker setEnv workerReturn unsent workerOwed trace world];
  rewrite ?bind_app, ?bind_cons, ?bind_singleton, ?app_nil_r.

(** The group's error, once set, rules [clean] out. *)
Local Ltac not_clean Hw :=
  let Herr := fresh "Herr" in
  let Hsd := fresh "Hsd" in
  intros [Herr Hsd]; exfalso;
  cbn [eg_err workers setWorker setEnv workerReturn] in Herr, Hsd;
  first [ by apply (sending_insert_nil _ _ _ _ Hw) in Hsd
        | by destruct (eg_err _) ].

Lemma CleanLedger_step ei t s s' :
  Inv_ s → CleanLedger_ ei s → Step_ t s s' → CleanLedger_ ei s'.
Proof.
  intros HI (new & Htr & Hled) Hstep.
  pose proof (inv_fblocks _ _ _ HI) as Ifb.
  rewrite Forall_app in Ifb. destruct Ifb as [Hne _].
  pose proof (inv_cb _ _ _ HI) as Icb. clear HI.
  unfold CleanLedger.
  step_cases_wait Hstep.
  - (* send *)
    exists new. split; [done|]. intros Hc. specialize (Hled Hc).
    rewrite Hpc in Hled. rewrite <- Hled. led_norm. aac_reflexivity.
  - (* close *)
    exists new. split; [done|]. intros Hc. specialize (Hled Hc).
    rewrite Hpc in Hled. by rewrite <- Hled.
  - (* wait *)
    destruct Haw
      as [(_ & -> & ->)|[(Hrec & ptrs & Hdr & ->)|(_ & msg & _ & -> & ->)]].
    + exists new. split; [done|]. intros Hc. specialize (Hled Hc).
      rewrite Hpc in Hled. by rewrite <- Hled.
    + apply drain_cleanup in Hdr as (_ & calls & add & Htr' & _); [|done].
      exists (new ++ add). split; [simpl; by rewrite Htr', Htr, app_assoc|].
      intros [Herr _]. cbn in Herr. by rewrite Herr in Hrec.
    + exists new. split; [done|]. intros Hc. specialize (Hled Hc).
      rewrite Hpc in Hled. by rewrite <- Hled.
  - (* recv *)
    exists new. split; [done|]. intros [Herr Hsd]. cbn in Herr, Hsd.
    specialize (Hled (clean_insert s _ _ _ Hw eq_refl Herr Hsd)).
    rewrite Hb in Hled. rewrite <- Hled.
    cbn [main_pc blocks workers env].
    eapply ledger_worker; [exact Hw|]. led_norm. aac_reflexivity.
  - (* exit *)
    exists new. split; [done|]. intros [Herr Hsd]. cbn in Herr, Hsd.
    assert (Herr0 : eg_err s = None) by (by destruct (eg_err s)).
    specialize (Hled (clean_insert s _ _ _ Hw eq_refl Herr0 Hsd)).
    rewrite <- Hled. unfold workerReturn. cbn [main_pc blocks workers env].
    by eapply ledger_worker; [exact Hw|].
  - (* put, then callback *)
    apply PutBlockCheckQuota_new in Hp as (rep & Htr' & _ & _ & Hrep).
    exists (new ++ [bserverCall_ (groupCtx ctx s) bs] ++ rep).
    split; [simpl; by rewrite Htr', Htr, <- !app_assoc|].
    intros [Herr Hsd]. cbn in Herr, Hsd.
    specialize (Hled (clean_insert s _ _ _ Hw eq_refl Herr Hsd)).
    rewrite <- Hled, (groupCtx_live s Herr).
    rewrite !workCalls_app, workCalls_bserverCall, Hrep, app_nil_r.
    unfold setWorker, setEnv. cbn [main_pc blocks workers env].
    eapply ledger_worker; [exact Hw|]. cbn [workerOwed]. unfold owed, hasCb.
    rewrite Hcb. aac_reflexivity.
  - (* put returns nil, no callback *)
    apply PutBlockCheckQuota_new in Hp as (rep & Htr' & _ & _ & Hrep).
    exists (new ++ [bserverCall_ (groupCtx ctx s) bs] ++ rep).
    split; [simpl; by rewrite Htr', Htr, <- !app_assoc|].
    intros [Herr Hsd]. cbn in Herr, Hsd.
    specialize (Hled (clean_insert s _ _ _ Hw eq_refl Herr Hsd)).
    rewrite <- Hled, (groupCtx_live s Herr).
    rewrite !workCalls_app, workCalls_bserverCall, Hrep, app_nil_r.
    unfold setWorker, setEnv. cbn [main_pc blocks workers env].
    eapply ledger_worker; [exact Hw|]. cbn [workerOwed]. unfold owed, hasCb.
    rewrite Hcb by done. aac_reflexivity.
  - (* put fails, block to record *)
    apply PutBlockCheckQuota_new in Hp as (rep & Htr' & _).
    exists (new ++ [bserverCall_ (groupCtx ctx s) bs] ++ rep).
    split; [simpl; by rewrite Htr', Htr, <- !app_assoc|]. not_clean Hw.
  - (* put fails, nothing to record *)
    apply PutBlockCheckQuota_new in Hp as (rep & Htr' & _).
    exists (new ++ [bserverCall_ (groupCtx ctx s) bs] ++ rep).
    split; [simpl; by rewrite Htr', Htr, <- !app_assoc|]. not_clean Hw.
  - (* callback returns nil *)
    apply extern_trace in Hp.
    exists (new ++ [EvSyncedCb (blockPtr bs)]).
    split; [simpl; by rewrite Hp, Htr, <- !app_assoc|].
    intros [Herr Hsd]. cbn in Herr, Hsd.
    specialize (Hled (clean_insert s _ _ _ Hw eq_refl Herr Hsd)).
    rewrite <- Hled. rewrite workCalls_app.
    change (workCalls [EvSyncedCb (blockPtr bs)]) with [cbCall bs].
    unfold setWorker, setEnv. cbn [main_pc blocks workers env].
    eapply ledger_worker; [exact Hw|]. cbn [workerOwed]. aac_reflexivity.
  - (* callback fails, block to record *)
    apply extern_trace in Hp.
    exists (new ++ [EvSyncedCb (blockPtr bs)]).
    split; [simpl; by rewrite Hp, Htr, <- !app_assoc|]. not_clean Hw.
  - (* callback fails, nothing to record *)
    apply extern_trace in Hp.
    exists (new ++ [EvSyncedCb (blockPtr bs)]).
    split; [simpl; by rewrite Hp, Htr, <- !app_assoc|]. not_clean Hw.
  - (* send on the result channel *)
    exists new. split; [done|]. not_clean Hw.
Qed.

Lemma CleanLedger_run ei sched sf :
  run_ sched (init_ ei) = Some sf → Inv_ sf ∧ CleanLedger_ ei sf.
Proof.
  intros Hrun.
  eapply (run_invariant (λ s, Inv_ s ∧ CleanLedger_ ei s)); [| |exact Hrun].
  - intros t s1 s2 [HI HL] Hstep. split; [by eapply Inv_step|].
    by eapply CleanLedger_step.
  - split; [apply Inv_init|apply CleanLedger_init].
Qed.

(** X11.  A nil error from [doBlockPuts] means that everything has been
    done (the bound on parallel puts being positive): the list returned is
    nil and, since the call, the block server has been called exactly once
    for each entry, under the group's context not yet cancelled, the
    callback of each entry that has one has been called exactly once, and
    the block cache has not been called. *)
Theorem doBlockPuts_nil_means_all_done sched ei blocksToRemove e'
    (Hmax : (0 < maxParallelBlockPuts)%nat)
    (Hret : doBlockPuts IsPublic IsInd maxParallelBlockPuts ctx bserv bcache
              reporter tlfID tlfName bps sched ei
            = Some (blocksToRemove, None, e')) :
  blocksToRemove = []
  ∧ ∃ new,
      trace e' = trace ei ++ new
      ∧ workCalls new
        ≡ₚ map (bserverCall_ live) (blockStates bps)
           ++ map cbCall (filter (λ bs, hasCb bs) (blockStates bps))
      ∧ cacheCalls new = [].
Proof.
  destruct (doBlockPuts_Cleanup _ _ _ _ _ Hret)
    as (ch & calls & _ & _ & Hnil & -> & Hcache & Hlen & _).
  rewrite (Hnil eq_refl) in *. destruct calls; [|done]. clear Hnil Hlen.
  split; [done|].
  unfold doBlockPuts in Hret.
  destruct (run_ sched (init_ ei)) as [sf|] eqn:Hrun; [|done].
  destruct (CleanLedger_run _ _ _ Hrun) as [HI (new & Htr & Hled)].
  destruct (main_pc sf) as [| |ptrs err0|] eqn:Hpc; try done.
  injection Hret as -> -> <-.
  pose proof (returned_err_run _ _ _ _ _ Hrun Hpc) as Herr.
  symmetry in Herr.
  pose proof (inv_done _ _ _ HI) as Hdone. rewrite Hpc in Hdone.
  destruct (returned_queue_empty sf Hmax HI) as (Hq & _ & _ & _).
  { by exists [], None. }
  { by apply (inv_err _ _ _ HI). }
  exists new. split; [done|]. split.
  - rewrite <- (owed_batch live). rewrite <- Hled.
    + rewrite ?Hpc, Hq. cbn [unsent]. csimpl.
      rewrite (bind_nil_sum (workerOwed_ live) running); [|by intros [| | | |]|done].
      by rewrite app_nil_r.
    + split; [done|].
      apply (bind_nil_sum sending running); [by intros [| | | |]|done].
  - rewrite Htr, cacheCalls_app, app_nil_r in Hcache.
    apply (app_inv_head (cacheCalls (trace ei))). by rewrite app_nil_r.
Qed.

(** *** One iteration of a worker *)
Local Abbreviation doOneBlockPut_ :=
  (doOneBlockPut IsPublic IsInd).

(** From the state reached once the calls of an entry have produced
    [err], to the end of the iteration. *)
Lemma afterCalls_run (s1 : @state World) i w bs err :
  workers s1 !! i = Some w →
  match blockToRemove IsInd bs err with
  | None =>
      ∃ s', afterCalls IsInd i bs err s1 = s'
        ∧ iterationEnd s1 i err
            {| queue := blocksToRemoveChan s1; cap := numWorkers_ |}
            (env s1) s'
  | Some fblock =>
      if decide (length (blocksToRemoveChan s1) < numWorkers_)%nat then
        ∃ s', step_ (Worker i) (afterCalls IsInd i bs err s1) = Some s'
          ∧ iterationEnd s1 i err
              {| queue := blocksToRemoveChan s1 ++ [fblock];
                 cap := numWorkers_ |}
              (env s1) s'
      else
        step_ (Worker i) (afterCalls IsInd i bs err s1) = None
        ∧ ∃ e, workers (afterCalls IsInd i bs err s1) !! i
               = Some (WSend fblock e)
  end.
Proof.
  intros Hw.
  assert (Hi : ∀ w', <[i := w']> (workers s1) !! i = Some w').
  { intros w'. apply list_lookup_insert_eq. by eapply lookup_lt_Some. }
  destruct (afterCalls_cases i bs err s1)
    as [(-> & ->)|[(e0 & fb & -> & Hrm & ->)|(e0 & -> & Hrm & ->)]].
  - change (blockToRemove IsInd bs None) with (@None ptr).
    eexists. split; [done|].
    repeat split; simpl; try done. by destruct (eg_err s1).
  - rewrite Hrm. unfold step. cbn [workers setWorker blocksToRemoveChan].
    rewrite Hi. case_decide.
    + eexists. split; [done|]. repeat split; simpl; try done.
      by rewrite list_insert_insert_eq.
    + split; [done|]. by exists e0.
  - rewrite Hrm. eexists. split; [done|]. by repeat split.
Qed.

Lemma iterationEnd_from (s s1 s' : @state World) i w1 err ch' e' :
  main_pc s1 = main_pc s → blocks s1 = blocks s →
  blocksClosed s1 = blocksClosed s →
  workers s1 = <[i := w1]> (workers s) → eg_err s1 = eg_err s →
  iterationEnd s1 i err ch' e' s' → iterationEnd s i err ch' e' s'.
Proof.
  intros Hpc Hb Hc Hws Herr (? & ? & ? & Hw' & ? & He & ?).
  rewrite Herr in He. repeat split; try congruence.
  by rewrite Hw', Hws, list_insert_insert_eq.
Qed.

(** From the state [s2] reached by worker [i] once the calls of its entry
    have returned [err], in [n] steps from [s]: the iteration ends as
    [doOneBlockPut] does from there. *)
Lemma iteration_finish (s s2 : @state World) i w1 w2 bs err n :
  (1 ≤ n ≤ 2)%nat →
  workers s !! i = Some w1 →
  main_pc s2 = main_pc s → blocks s2 = blocks s →
  blocksClosed s2 = blocksClosed s →
  workers s2 = <[i := w2]> (workers s) → eg_err s2 = eg_err s →
  blocksToRemoveChan s2 = blocksToRemoveChan s →
  run_ (replicate n (Worker i)) s
  = Some (afterCalls IsInd i bs err s2) →
  match (match blockToRemove IsInd bs err with
         | Some fblock =>
             chan_send
               {| queue := blocksToRemoveChan s; cap := numWorkers_ |} fblock
         | None =>
             mret {| queue := blocksToRemoveChan s; cap := numWorkers_ |}
         end ≫= λ ch, mret (err, ch)) (env s2) with
  | Ret (r, ch') e' =>
      ∃ n s', (1 ≤ n ≤ 3)%nat
        ∧ run_ (replicate n (Worker i)) s = Some s'
        ∧ iterationEnd s i r ch' e' s'
  | Blocked =>
      ∃ n s' fblock e, (1 ≤ n ≤ 2)%nat
        ∧ run_ (replicate n (Worker i)) s = Some s'
        ∧ workers s' !! i = Some (WSend fblock e)
        ∧ step_ (Worker i) s' = None
        ∧ (numWorkers_ ≤ length (blocksToRemoveChan s))%nat
  | Panic _ => False
  end.
Proof.
  intros Hn Hw Hpc Hb Hc Hws Herr Hch Hrun.
  assert (Hw2 : workers s2 !! i = Some w2).
  { rewrite Hws. apply list_lookup_insert_eq. by eapply lookup_lt_Some. }
  pose proof (afterCalls_run s2 i w2 bs err Hw2) as Hfin.
  unfold mbind, M_bind, chan_send, mret, M_ret. cbn [queue cap].
  rewrite Hch in Hfin.
  destruct (blockToRemove IsInd bs err) as [fblock|].
  - case_decide.
    + destruct Hfin as (s' & Hstep & Hend).
      exists (S n), s'. split; [lia|]. split.
      * replace (S n) with (n + 1)%nat by lia.
        rewrite replicate_add, run_app, Hrun. cbn [replicate run].
        by rewrite Hstep.
      * by eapply (iterationEnd_from s s2 s' i w2).
    + destruct Hfin as (Hstuck & e & Hsend).
      exists n, (afterCalls IsInd i bs err s2), fblock, e.
      repeat split; try done; lia.
  - destruct Hfin as (s' & <- & Hend).
    exists n, (afterCalls IsInd i bs err s2). split; [lia|]. split; [done|].
    by eapply (iterationEnd_from s s2 _ i w2).
Qed.

(** X12.  One iteration of a worker's loop is one call of
    [doOneBlockPut] under the group's context: from a worker holding an
    entry, at most three steps of that worker alone lead to the state in
    which the result channel and the environment are as [doOneBlockPut]
    leaves them, the worker is back at the loop head when the result is
    nil, and otherwise has returned the error to the group, which keeps it
    if it is the first.  Where [doOneBlockPut] would block on a full
    channel, the worker is stuck before its send. *)
Theorem worker_iteration_is_doOneBlockPut (s : @state World) i bs
    (Hw : workers s !! i = Some (WPut bs)) :
  match doOneBlockPut_ (groupCtx ctx s) bserv reporter tlfID tlfName bs
          {| queue := blocksToRemoveChan s; cap := numWorkers_ |} (env s) with
  | Ret (err, ch') e' =>
      ∃ n s', (1 ≤ n ≤ 3)%nat
        ∧ run_ (replicate n (Worker i)) s = Some s'
        ∧ iterationEnd s i err ch' e' s'
  | Blocked =>
      ∃ n s' fblock e, (1 ≤ n ≤ 2)%nat
        ∧ run_ (replicate n (Worker i)) s = Some s'
        ∧ workers s' !! i = Some (WSend fblock e)
        ∧ step_ (Worker i) s' = None
        ∧ (numWorkers_ ≤ length (blocksToRemoveChan s))%nat
  | Panic _ => False
  end.
Proof.
  destruct (PutBlockCheckQuota_returns (groupCtx ctx s) tlfID (blockPtr bs)
              (readyBlockData bs) tlfName (env s)) as (perr & e1 & Hp).
  unfold doOneBlockPut. unfold mbind at 1, M_bind at 1. rewrite Hp.
  assert (Hstep1 : step_ (Worker i) s
    = match perr, syncedCb bs with
      | None, Some cb => Some (setWorker i (WCb bs cb) (setEnv e1 s))
      | _, _ => Some (afterCalls IsInd i bs perr (setEnv e1 s))
      end).
  { unfold step. by rewrite Hw, Hp. }
  destruct perr as [pe|]; [|destruct (syncedCb bs) as [cb|] eqn:Hcb].
  - unfold mbind at 1, M_bind at 1. unfold mret at 1, M_ret at 1.
    apply (iteration_finish s (setEnv e1 s) i (WPut bs) (WPut bs) bs (Some pe)
             1); try done; [lia|by rewrite list_insert_id|].
    cbn [replicate run]. by rewrite Hstep1.
  - unfold mbind at 1, M_bind at 1.
    destruct (extern (EvSyncedCb (blockPtr bs)) cb e1) as [cerr e2| |] eqn:Hx;
      [|by destruct (extern_returns (EvSyncedCb (blockPtr bs)) cb e1)
              as (? & ? & ?); congruence..].
    apply (iteration_finish s (setEnv e2 (setWorker i (WCb bs cb) (setEnv e1 s)))
             i (WPut bs) (WCb bs cb) bs cerr 2); try done; [lia|].
    cbn [replicate run]. rewrite Hstep1. unfold step at 1.
    cbn [workers setWorker setEnv env].
    rewrite list_lookup_insert_eq by (by eapply lookup_lt_Some).
    by rewrite Hx.
  - unfold mbind at 1, M_bind at 1. unfold mret at 1, M_ret at 1.
    apply (iteration_finish s (setEnv e1 s) i (WPut bs) (WPut bs) bs None 1);
      try done; [lia|by rewrite list_insert_id|].
    cbn [replicate run]. by rewrite Hstep1.
Qed.

(** *** Which callbacks are called *)
Local Abbreviation isPutResult_ :=
  (isPutResult IsPublic ctx bserv reporter tlfID tlfName).
Local Abbreviation Called_ :=
  (Called IsPublic ctx bserv reporter tlfID tlfName).











End DoBlockPutsSteps.

(** ** The orchestrator on concrete batches *)
Section Concrete.
Import Fixtures.

Lemma okServer_succeeds p b :
  succeeds okServer folder (entry p b)
  ∧ succeeds okServer folder (entryCb p b).
Proof.
  repeat split.
  - intros c e. unfold putBlockToServer. case_decide; eexists; reflexivity.
  - intros cb w Hcb. discriminate Hcb.
  - intros c e. unfold putBlockToServer. case_decide; eexists; reflexivity.
  - intros cb w [= <-]. reflexivity.
Qed.

Lemma deletedServer_fails b :
  remoteFailsRecoverably deletedServer folder (entry ptrA b).
Proof. intros c e. eexists _, _. split; reflexivity. Qed.

Lemma deletedServer_succeeds b :
  succeeds deletedServer folder (entryCb ptrB b).
Proof.
  split.
  - intros c e. eexists. reflexivity.
  - intros cb w [= <-]. reflexivity.
Qed.

(** Three entries, all succeeding: three server calls, one callback. *)
Lemma doBlockPuts_all_succeed_witness :
  (0 < 100)%nat
  ∧ Forall (remoteSucceeds okServer folder) (blockStates okBatch)
  ∧ Forall cbSucceeds (blockStates okBatch)
  ∧ ∃ e', putsOn okServer okBatch schedAllGood e0 = Some ([], None, e')
      ∧ length (trace e') = 4%nat.
Proof.
  assert (Hrem : Forall (remoteSucceeds okServer folder) (blockStates okBatch)).
  { repeat constructor; apply okServer_succeeds. }
  assert (Hcb : Forall cbSucceeds (blockStates okBatch)).
  { repeat constructor; apply okServer_succeeds. }
  split; [lia|]. split; [exact Hrem|]. split; [exact Hcb|].
  eexists. split; [vm_compute; reflexivity|].
  match goal with |- length (trace ?e) = _ =>
    destruct (proj2 (doBlockPuts_all_succeed nonePublic noneInd 100 ctx0
                       okServer quietCache quietReporter folder "alice"
                       okBatch e0 ltac:(lia) Hrem Hcb)
                schedAllGood [] None e ltac:(vm_compute; reflexivity))
      as (_ & _ & Hperm)
  end.
  apply Permutation_length in Hperm. exact Hperm.
Defined.

(** A directory block that the server has deleted: the error is returned,
    no pointer is, and the cache is not called. *)
Lemma doBlockPuts_dir_block_not_reported :
  remoteFailsRecoverably deletedServer folder (entry ptrA (DirBlockPtr 1%nat))
  ∧ putsOn deletedServer dirBatch schedDir e0
    = Some ([], Some (BServerErrorBlockDeleted "deleted"),
            {| world := tt;
               trace := [EvBServerPut (context.WithCancel ctx0 false) folder
                           [x0a] zeroCtx [x01; x02; x03] [x09]] |}).
Proof. split; [apply deletedServer_fails|reflexivity]. Qed.

(** A deleted file block among entries that succeed. *)
Lemma doBlockPuts_one_recoverable_failure_witness :
  (0 < 100)%nat
  ∧ blockStates fileBatch
    = [] ++ entry ptrA (FileBlockPtr 1%nat)
         :: [entryCb ptrB (FileBlockPtr 2%nat)]
  ∧ Forall (succeeds deletedServer folder)
      ([] ++ [entryCb ptrB (FileBlockPtr 2%nat)])
  ∧ remoteFailsRecoverably deletedServer folder
      (entry ptrA (FileBlockPtr 1%nat))
  ∧ ∃ e',
      putsOn deletedServer fileBatch schedOneBad e0
      = Some ([ptrA], Some (BServerErrorBlockDeleted "deleted"), e')
      ∧ cacheCalls (trace e')
        = [EvDeleteKnownPtr folder 1%nat; EvDeleteTransient ptrA folder].
Proof.
  assert (Hothers : Forall (succeeds deletedServer folder)
                      ([] ++ [entryCb ptrB (FileBlockPtr 2%nat)])).
  { repeat constructor; apply deletedServer_succeeds. }
  split; [lia|]. split; [reflexivity|]. split; [exact Hothers|].
  split; [apply deletedServer_fails|].
  eexists. split; [vm_compute; reflexivity|].
  match goal with |- cacheCalls (trace ?e) = _ =>
    destruct (proj2 (doBlockPuts_one_recoverable_failure nonePublic noneInd
                       100 ctx0 deletedServer quietCache quietReporter folder
                       "alice" fileBatch e0 [] _ _ ltac:(lia) eq_refl Hothers
                       (deletedServer_fails _))
                schedOneBad [ptrA] _ e ltac:(vm_compute; reflexivity))
      as (err & _ & _ & _ & _ & Hsole)
  end.
  apply Hsole. repeat constructor. discriminate.
Defined.

(** After a recoverable failure on block [x0a], the other entry of the batch
    is not processed to completion.  With a single worker it is never taken
    from the queue: the server sees one call only.  With two workers, its
    put is handed the cancelled context, and a server that honours the
    context answers with the cancellation error. *)
Lemma doBlockPuts_recoverable_error_aborts_others :
  doBlockPuts nonePublic noneInd 1 ctx0 deletedServer quietCache
    quietReporter folder "alice" fileBatch schedOneWorker e0
  = Some ([ptrA], Some (BServerErrorBlockDeleted "deleted"),
          {| world := tt;
             trace := [EvBServerPut (context.WithCancel ctx0 false) folder
                         [x0a] zeroCtx [x01; x02; x03] [x09];
                       EvDeleteKnownPtr folder 1%nat;
                       EvDeleteTransient ptrA folder] |})
  ∧ ∃ s, runOn racingServer fileBatch schedRace (init 100 fileBatch e0)
         = Some s
      ∧ workers s = [WDone (Some (BServerErrorBlockDeleted "deleted"));
                     WDone (Some Canceled)]
      ∧ trace (env s)
        = [EvBServerPut (context.WithCancel ctx0 false) folder
             [x0a] zeroCtx [x01; x02; x03] [x09];
           EvBServerPut (context.WithCancel ctx0 true) folder
             [x0b] zeroCtx [x01; x02; x03] [x09]].
Proof.
  split; [reflexivity|].
  eexists. split; [vm_compute; reflexivity|]. split; reflexivity.
Qed.

(** The worker whose put of the deleted block has failed is at its send:
    the send goes through, records block 1 and cancels the group. *)
Lemma worker_error_cancels_group_witness :
  ∃ s, runOn deletedServer fileBatch schedFailedPut (init 100 fileBatch e0)
       = Some s
    ∧ workers s !! 0%nat
      = Some (WSend 1%nat (BServerErrorBlockDeleted "deleted"))
    ∧ ∃ s', step nonePublic noneInd 100 ctx0 deletedServer quietCache
              quietReporter folder "alice" fileBatch (Worker 0) s = Some s'
        ∧ blocksToRemoveChan s' = [1%nat]
        ∧ groupCtx ctx0 s' = context.WithCancel ctx0 true.
Proof.
  eexists. split; [vm_compute; reflexivity|]. split; [reflexivity|].
  match goal with |- ∃ s', step _ _ _ _ _ _ _ _ _ _ _ ?s = _ ∧ _ =>
    destruct (proj1 (proj2 (proj2
                (worker_error_cancels_group nonePublic noneInd 100 ctx0
                   deletedServer quietCache quietReporter folder "alice"
                   fileBatch schedFailedPut e0 s
                   ltac:(vm_compute; reflexivity))))
                0%nat 1%nat (BServerErrorBlockDeleted "deleted") eq_refl)
      as (s' & Hstep & Hchan & _ & Hctx)
  end.
  exists s'. split; [exact Hstep|]. split; [exact Hchan|exact Hctx].
Defined.

(** In the same state the channel is empty and the sender has room. *)
Lemma blocksToRemoveChan_never_full_witness :
  ∃ s, runOn deletedServer fileBatch schedFailedPut (init 100 fileBatch e0)
       = Some s
    ∧ workers s !! 0%nat
      = Some (WSend 1%nat (BServerErrorBlockDeleted "deleted"))
    ∧ (length (blocksToRemoveChan s) < numWorkers 100 fileBatch)%nat
    ∧ is_Some (step nonePublic noneInd 100 ctx0 deletedServer quietCache
                 quietReporter folder "alice" fileBatch (Worker 0) s).
Proof.
  eexists. split; [vm_compute; reflexivity|]. split; [reflexivity|].
  match goal with |- _ ∧ is_Some (step _ _ _ _ _ _ _ _ _ _ _ ?s) =>
    exact (proj2 (proj2 (proj2
             (blocksToRemoveChan_never_full nonePublic noneInd 100 ctx0
                deletedServer quietCache quietReporter folder "alice"
                fileBatch schedFailedPut e0 s
                ltac:(vm_compute; reflexivity))))
             0%nat 1%nat (BServerErrorBlockDeleted "deleted") eq_refl)
  end.
Defined.

(** The empty batch returns after the caller's two steps. *)
Lemma doBlockPuts_empty_batch_witness :
  blockStates emptyBatch = []
  ∧ putsOn okServer emptyBatch [Main; Main] e0 = Some ([], None, e0).
Proof.
  split; [reflexivity|].
  exact (proj2 (proj2
           (doBlockPuts_empty_batch nonePublic noneInd 100 ctx0 okServer
              quietCache quietReporter folder "alice" emptyBatch e0
              eq_refl))).
Defined.

(** While worker 0 is about to record the deleted block, the call can
    still be run to its return. *)
Lemma doBlockPuts_always_returns_witness :
  ∃ s, runOn deletedServer fileBatch schedFailedPut (init 100 fileBatch e0)
       = Some s
    ∧ (length schedFailedPut
       ≤ 4 * length (blockStates fileBatch) + 2 + numWorkers 100 fileBatch)%nat
    ∧ ∃ sched' r, putsOn deletedServer fileBatch (schedFailedPut ++ sched') e0
                  = Some r.
Proof.
  eexists. split; [vm_compute; reflexivity|].
  match goal with |- _ ∧ (∃ sched' r, _ = Some r) =>
    destruct (doBlockPuts_always_returns nonePublic noneInd 100 ctx0
                deletedServer quietCache quietReporter folder "alice"
                fileBatch schedFailedPut e0 _ ltac:(vm_compute; reflexivity))
      as (Hlen & _ & _ & Hcont)
  end.
  split; [exact Hlen|exact Hcont].
Defined.

(** The batch on which everything succeeds leaves the cache alone. *)
Lemma doBlockPuts_cleanup_only_if_recoverable_witness :
  ∃ e', putsOn okServer okBatch schedAllGood e0 = Some ([], None, e')
    ∧ cacheCalls (trace e') = cacheCalls (trace e0).
Proof.
  eexists. split; [vm_compute; reflexivity|].
  match goal with |- cacheCalls (trace ?e) = _ =>
    exact (proj2 (proj1 (doBlockPuts_cleanup_only_if_recoverable nonePublic
                           noneInd 100 ctx0 okServer quietCache quietReporter
                           folder "alice" okBatch schedAllGood e0 [] None e
                           ltac:(vm_compute; reflexivity))
                    eq_refl))
  end.
Defined.


(** Two entries, at most two server calls. *)
Lemma doBlockPuts_submits_once_witness :
  ∃ e', putsOn deletedServer fileBatch schedOneBad e0
        = Some ([ptrA], Some (BServerErrorBlockDeleted "deleted"), e')
    ∧ ∃ new, trace e' = trace e0 ++ new
        ∧ (length (serverCalls new) ≤ 2)%nat.
Proof.
  eexists. split; [vm_compute; reflexivity|].
  match goal with |- ∃ new, trace ?e = _ ∧ _ =>
    destruct (doBlockPuts_submits_once nonePublic noneInd 100 ctx0
                deletedServer quietCache quietReporter folder "alice"
                fileBatch schedOneBad e0 [ptrA] _ e
                ltac:(vm_compute; reflexivity))
      as (new & done & left & Htr & _ & _ & Hlen & _)
  end.
  exists new. split; [exact Htr|exact Hlen].
Defined.

(** Three entries, one of them with a callback: four calls. *)
Lemma doBlockPuts_nil_means_all_done_witness :
  (0 < 100)%nat
  ∧ ∃ e', putsOn okServer okBatch schedAllGood e0 = Some ([], None, e')
      ∧ ∃ new, trace e' = trace e0 ++ new
          ∧ length (workCalls new) = 4%nat.
Proof.
  split; [lia|].
  eexists. split; [vm_compute; reflexivity|].
  match goal with |- ∃ new, trace ?e = _ ∧ _ =>
    destruct (doBlockPuts_nil_means_all_done nonePublic noneInd 100 ctx0
                okServer quietCache quietReporter folder "alice" okBatch
                schedAllGood e0 [] e ltac:(lia)
                ltac:(vm_compute; reflexivity))
      as (_ & new & Htr & Hperm & _)
  end.
  exists new. split; [exact Htr|].
  apply Permutation_length in Hperm. exact Hperm.
Defined.

(** Worker 0 holds the entry of the deleted block: two steps of its own
    take it to the end of the iteration. *)
Lemma worker_iteration_is_doOneBlockPut_witness :
  ∃ s, runOn deletedServer fileBatch schedHolding (init 100 fileBatch e0)
       = Some s
    ∧ workers s !! 0%nat = Some (WPut (entry ptrA (FileBlockPtr 1%nat)))
    ∧ ∃ n s', (1 ≤ n ≤ 3)%nat
        ∧ runOn deletedServer fileBatch (replicate n (Worker 0)) s = Some s'
        ∧ blocksToRemoveChan s' = [1%nat]
        ∧ eg_err s' = Some (BServerErrorBlockDeleted "deleted").
Proof.
  eexists. split; [vm_compute; reflexivity|]. split; [reflexivity|].
  match goal with |- ∃ n s', _ ∧ runOn _ _ _ ?s = _ ∧ _ =>
    pose proof (worker_iteration_is_doOneBlockPut nonePublic noneInd 100 ctx0
                  deletedServer quietCache quietReporter folder "alice"
                  fileBatch s 0%nat (entry ptrA (FileBlockPtr 1%nat))
                  eq_refl) as Hit
  end.
  cbv in Hit. destruct Hit as (n & s' & Hn & Hrun & Hend).
  exists n, s'. split; [exact Hn|]. split; [exact Hrun|].
  destruct Hend as (_ & _ & _ & _ & Hch & Herr & _).
  split; [exact Hch|exact Herr].
Defined.

End Concrete.

(** ** More on the put path *)
Section PutPathMore.
Context {World : Type}.
Variable IsPublic : tlf.ID → bool.
Variable IsInd : ptr → bool.


(** X1.  [PutBlockCheckQuota] makes the one server call of
    [putBlockToServer] and always returns.  Whatever the server answers
    other than a soft (not throttled) over-quota error is returned as it
    is, and the reporter is not called.  The result is never a soft
    over-quota error, it is nil exactly when the server answered nil or
    soft over-quota, and it is classified recoverable exactly when the
    server's answer is. *)
Theorem PutBlockCheckQuota_passes_answer ctx (bserv : BlockServer World)
    (reporter : Reporter World) tlfID blockPtr rbd tlfName e :
  ∃ serr e1 r e',
    putBlockToServer ctx bserv tlfID blockPtr rbd e = Ret serr e1
    ∧ PutBlockCheckQuota IsPublic ctx bserv reporter tlfID blockPtr rbd
        tlfName e = Ret r e'
    ∧ ((∀ m u l, serr ≠ Some (BServerErrorOverQuota m u l false)) →
       r = serr ∧ e' = e1)
    ∧ (∀ m u l, r ≠ Some (BServerErrorOverQuota m u l false))
    ∧ (r = None ↔
       serr = None ∨ ∃ m u l, serr = Some (BServerErrorOverQuota m u l false))
    ∧ isRecoverableBlockError r = isRecoverableBlockError serr.
Proof.
  destruct (putBlockToServer_returns ctx bserv tlfID blockPtr rbd e)
    as (serr & e1 & Hs).
  exists serr, e1. unfold PutBlockCheckQuota, mbind, M_bind. rewrite Hs.
  destruct serr as [[m|m|m|m|m u l [|]|u l| | |x y|m]|];
    (eexists _, _; split; [reflexivity|]; split; [reflexivity|]);
    repeat split; try done; try (intros; congruence);
    try (intros [?|(? & ? & ? & ?)]; congruence);
    try (intros _; eauto).
Qed.

End PutPathMore.

(** ** More on the bandwidth throttle *)
Section ThrottleMore.
Context {World : Type}.
Variable intBits : Z.
Variable baseErr : nat → World → error.
Variable Sleep : Z → World → World.
Context {D : Type} `{!BlockOps World D}.

Lemma goint_wrap_zero x :
  0 < intBits → goint.wrap intBits x = 0 ↔ x mod 2 ^ intBits = 0.
Proof.
  intros Hb. unfold goint.wrap.
  assert (Hm : 2 ^ intBits = 2 * 2 ^ (intBits - 1)).
  { rewrite <- Z.pow_succ_r by lia. f_equal. lia. }
  assert (Hh : 0 < 2 ^ (intBits - 1)) by (apply Z.pow_pos_nonneg; lia).
  set (h := 2 ^ (intBits - 1)) in *. set (m := 2 ^ intBits) in *.
  split.
  - intros Hw.
    pose proof (Z.div_mod (x + h) m ltac:(lia)) as Hdm.
    assert (Hx : x = ((x + h) / m) * m) by lia.
    rewrite Hx. apply Z.mod_mul. lia.
  - intros Hx.
    pose proof (Z.div_mod x m ltac:(lia)) as Hdm. rewrite Hx in Hdm.
    assert (Hxh : x + h = h + (x / m) * m) by lia.
    rewrite Hxh, Z.mod_add by lia. rewrite Z.mod_small; lia.
Qed.

Lemma goint_mul_1024_zero R :
  intBits = 32 ∨ intBits = 64 →
  goint.mul intBits R 1024 = 0 ↔ R mod 2 ^ (intBits - 10) = 0.
Proof.
  intros Hbits. unfold goint.mul.
  rewrite goint_wrap_zero by (destruct Hbits as [-> | ->]; lia).
  assert (Hp : 2 ^ intBits = 2 ^ (intBits - 10) * 1024).
  { destruct Hbits as [-> | ->]; reflexivity. }
  rewrite Hp, Z.mul_mod_distr_r by (destruct Hbits as [-> | ->]; simpl; lia).
  lia.
Qed.

(** X3.  Whatever the rate and the size, [delay] never blocks, and when it
    returns it has either done nothing (rate not positive) or taken the
    lock, slept once, polled the context after the sleep and released the
    lock, in this order; its result is then the context's error at that
    moment.  [Put] hands a non-nil result of [delay] back without calling
    the delegate.  On a 32 or 64-bit [int] the division panics exactly
    when the rate is a positive multiple of 2^22 or 2^54 KBps, for which
    [bwKBps * 1024] wraps to zero; [Put] then panics too. *)
Theorem throttle_lock_and_panic (b : BlockOpsConstrained.t) ctx md blockPtr
    rbd size e (Hbits : intBits = 32 ∨ intBits = 64) :
  BlockOpsConstrained.delay intBits baseErr Sleep b ctx size e ≠ Blocked
  ∧ (∀ r e',
       BlockOpsConstrained.delay intBits baseErr Sleep b ctx size e = Ret r e' →
       (BlockOpsConstrained.bwKBps b ≤ 0 ∧ r = None ∧ e' = e)
       ∨ (0 < BlockOpsConstrained.bwKBps b
          ∧ ∃ d, e' = {| world := Sleep d (world e);
                         trace := trace e ++ [EvLock; EvSleep d; EvUnlock] |}
              ∧ r = context.Err baseErr ctx (world e')))
  ∧ ((∃ msg, BlockOpsConstrained.delay intBits baseErr Sleep b ctx size e
             = Panic msg)
     ↔ 0 < BlockOpsConstrained.bwKBps b
       ∧ BlockOpsConstrained.bwKBps b mod 2 ^ (intBits - 10) = 0)
  ∧ (∀ err e',
       BlockOpsConstrained.delay intBits baseErr Sleep b ctx
         (Z.of_nat (length (buf rbd))) e = Ret (Some err) e' →
       BlockOpsConstrained.Put intBits baseErr Sleep b ctx md blockPtr rbd e
       = Ret (Some err) e')
  ∧ (∀ msg,
       BlockOpsConstrained.delay intBits baseErr Sleep b ctx
         (Z.of_nat (length (buf rbd))) e = Panic msg →
       BlockOpsConstrained.Put intBits baseErr Sleep b ctx md blockPtr rbd e
       = Panic msg).
Proof.
  assert (Hshape : ∀ sz,
    BlockOpsConstrained.delay intBits baseErr Sleep b ctx sz e
    = if decide (BlockOpsConstrained.bwKBps b ≤ 0) then Ret None e
      else match goint.quot intBits
                   (goint.mul intBits sz (goint.wrap intBits time.Second))
                   (goint.mul intBits (BlockOpsConstrained.bwKBps b) 1024) with
           | None => Panic "runtime error: integer divide by zero"
           | Some d =>
               Ret (context.Err baseErr ctx (Sleep d (world e)))
                 {| world := Sleep d (world e);
                    trace := trace e ++ [EvLock; EvSleep d; EvUnlock] |}
           end).
  { intros sz. unfold BlockOpsConstrained.delay. case_decide; [done|].
    destruct (goint.quot _ _ _) as [d|]; [|done].
    unfold mbind, M_bind, emit, BlockOpsConstrained.time_Sleep, extern.
    simpl. rewrite ctxDone_run. simpl.
    destruct (context.Err baseErr ctx (Sleep d (world e)));
      simpl; unfold mret, M_ret; simpl; by rewrite <- !app_assoc. }
  pose proof (goint_mul_1024_zero (BlockOpsConstrained.bwKBps b) Hbits) as Hz.
  split; [|split; [|split; [|split]]].
  - rewrite Hshape. case_decide; [done|]. by destruct (goint.quot _ _ _).
  - intros r e'. rewrite Hshape. case_decide as HR.
    + intros [= <- <-]. by left.
    + destruct (goint.quot _ _ _) as [d|]; [|done].
      intros [= <- <-]. right. split; [lia|]. by exists d.
  - rewrite Hshape. unfold goint.quot. case_decide as HR.
    + split; [by intros [msg ?]|lia].
    + case_decide as Hq.
      * split; [intros _; split; [lia|by apply Hz]|by eexists].
      * split; [by intros [msg ?]|]. intros [_ Hm]. by apply Hz in Hm.
  - intros err e' Hd. unfold BlockOpsConstrained.Put, mbind, M_bind.
    by rewrite Hd.
  - intros msg Hd. unfold BlockOpsConstrained.Put, mbind, M_bind.
    by rewrite Hd.
Qed.
End ThrottleMore.

(** At 2^54 KBps on a 64-bit [int] the throttle panics. *)
Lemma throttle_lock_and_panic_witness :
  (64 = 32 ∨ 64 = 64)
  ∧ ∃ msg,
      BlockOpsConstrained.delay 64 Fixtures.neverDone Fixtures.noSleep
        (BlockOpsConstrained.mk tt (2 ^ 54)) Fixtures.ctx0 1 Fixtures.e0
      = Panic msg.
Proof.
  split; [by right|].
  apply (proj1 (proj2 (proj2
           (throttle_lock_and_panic (D := unit)
              (BlockOps0 := Fixtures.okBlockOps) 64
              Fixtures.neverDone Fixtures.noSleep
              (BlockOpsConstrained.mk tt (2 ^ 54)) Fixtures.ctx0 0%nat
              Fixtures.ptrA Fixtures.data 1 Fixtures.e0
              (or_intror eq_refl))))).
  split; [reflexivity|reflexivity].
Defined.

(** ** More on the stall-injection wrappers *)
Section StallMore.
Context {World : Type}.
Context {BareTlfHandle : Type}.
Variable baseErr : nat → World → error.
Variable baseValue : nat → context.Value_t → context.Value_t.
Variable trySend : nat → World → bool * World.
Variable recv : nat → World → option World.
Context {DB : Type} `{!BlockOps World DB}.
Context {DM : Type} `{!@MDOps World BareTlfHandle DM}.

Local Abbreviation stallOff_ := (stallOff baseValue).
Local Abbreviation afterStall_ := (afterStall trySend recv).
Local Abbreviation held_ := (held_until_unstall trySend recv).
Local Abbreviation polled_ := (polled baseErr).

Lemma maybeStall_off ctx op name key map (e : Env World) :
  stallOff_ ctx name key map op →
  maybeStall baseValue trySend recv ctx op name key map e = Ret tt e.
Proof.
  intros [Hne | Hkey]; unfold maybeStall.
  - by rewrite decide_True by (intros Heq; by apply Hne).
  - case_decide; [done|]. by rewrite Hkey.
Qed.

Lemma maybeStall_on ctx op key map chans (e : Env World) :
  map !! context.Value baseValue ctx key = Some chans →
  maybeStall baseValue trySend recv ctx op op key map e
  = match afterStall_ chans e with
    | Some e1 => Ret tt e1
    | None => Blocked
    end.
Proof.
  intros Hkey. unfold maybeStall.
  rewrite decide_False by (intros Hne; by apply Hne). rewrite Hkey.
  unfold afterStall, mbind, M_bind, chan_trySend, chan_recv.
  destruct (trySend (stalled chans) (world e)) as [ok w1]. simpl.
  destruct (recv (unstall chans) w1); [|done].
  by rewrite <- app_assoc.
Qed.


Lemma bind_held {A} chans (stall : M World unit) (inner : M World A) :
  (∀ e, stall e = match afterStall_ chans e with
                  | Some e1 => Ret tt e1
                  | None => Blocked
                  end) →
  held_ chans inner (stall;; inner).
Proof.
  intros Hs e. unfold mbind, M_bind. rewrite Hs.
  by destruct (afterStall_ chans e).
Qed.

(** The body of the three put wrappers after their first stall. *)
Lemma polls_polled ctx (inner : M World error) (between : M World unit)
    (bw : Env World → option (Env World)) :
  (∀ e, between e = match bw e with Some e1 => Ret tt e1 | None => Blocked end) →
  same_as (polled_ ctx inner bw)
    (c ← ctxDone baseErr ctx;
     match c with
     | Some cerr => mret cerr
     | None =>
         err ← inner;
         between;;
         c ← ctxDone baseErr ctx;
         match c with
         | Some cerr => mret cerr
         | None => mret err
         end
     end).
Proof.
  intros Hb e. unfold polled, mbind, M_bind. rewrite ctxDone_run.
  destruct (context.Err baseErr ctx (world e)); [done|].
  destruct (inner e) as [err e1| |]; [|done..].
  rewrite Hb. destruct (bw e1) as [e2|]; [|done].
  rewrite ctxDone_run. by destruct (context.Err baseErr ctx (world e2)).
Qed.

Lemma polls_polled_plain ctx (inner : M World error) :
  same_as (polled_ ctx inner Some)
    (c ← ctxDone baseErr ctx;
     match c with
     | Some cerr => mret cerr
     | None =>
         err ← inner;
         c ← ctxDone baseErr ctx;
         match c with
         | Some cerr => mret cerr
         | None => mret err
         end
     end).
Proof.
  intros e. unfold polled, mbind, M_bind. rewrite ctxDone_run.
  destruct (context.Err baseErr ctx (world e)); [done|].
  destruct (inner e) as [err e1| |]; [|done..].
  rewrite ctxDone_run. by destruct (context.Err baseErr ctx (world e1)).
Qed.

Local Abbreviation bdelegate f := (stallingBlockOps.delegate f).
Local Abbreviation mdelegate m := (stallingMDOps.delegate m).


Lemma held_same_as {A} chans (inner inner' wrapped : M World A) :
  held_ chans inner wrapped → same_as inner' inner →
  held_ chans inner' wrapped.
Proof.
  intros Hh Hs e. rewrite Hh. by destruct (afterStall_ chans e).
Qed.

(** X5.  A wrapper set to stall an operation, under a context whose key
    is registered, offers one signal on [stalled] without waiting for
    anyone to take it, then waits on [unstall], and only then calls the
    delegate: the wrapper blocks for as long as the test does not answer,
    whatever the delegate is, and from the answer on it is the delegate
    (for the puts, the delegate between the two polls of the context).
    Set to stall [AfterPut], [stallingMDOps.Put] calls the delegate first
    and stalls between the delegate's return and the second poll. *)
Theorem stall_holds_until_unstall (f : stallingBlockOps.t)
    (m : stallingMDOps.t) (ctx : context.Context) (cb cm : staller)
    (HkeyB : stallingBlockOps.stallMap f
             !! context.Value baseValue ctx (stallingBlockOps.stallKey f)
             = Some cb)
    (HkeyM : stallingMDOps.stallMap m
             !! context.Value baseValue ctx (stallingMDOps.stallKey m)
             = Some cm) :
  let opB := stallingBlockOps.stallOpName f in
  let opM := stallingMDOps.stallOpName m in
  (opB = StallableBlockGet → ∀ md p blk,
     held_ cb (BlockOps_Get (bdelegate f) ctx md p blk)
       (stallingBlockOps.Get baseValue trySend recv f ctx md p blk))
  ∧ (opB = StallableBlockReady → ∀ md blk,
     held_ cb (BlockOps_Ready (bdelegate f) ctx md blk)
       (stallingBlockOps.Ready baseValue trySend recv f ctx md blk))
  ∧ (opB = StallableBlockDelete → ∀ md ptrs,
     held_ cb (BlockOps_Delete (bdelegate f) ctx md ptrs)
       (stallingBlockOps.Delete baseValue trySend recv f ctx md ptrs))
  ∧ (opB = StallableBlockArchive → ∀ md ptrs,
     held_ cb (BlockOps_Archive (bdelegate f) ctx md ptrs)
       (stallingBlockOps.Archive baseValue trySend recv f ctx md ptrs))
  ∧ (opB = StallableBlockPut → ∀ md p rbd,
     held_ cb (polled_ ctx (BlockOps_Put (bdelegate f) ctx md p rbd) Some)
       (stallingBlockOps.Put baseErr baseValue trySend recv f ctx md p rbd))
  ∧ (opM = StallableMDGetForHandle → ∀ h,
     held_ cm (MDOps_GetForHandle (mdelegate m) ctx h)
       (stallingMDOps.GetForHandle baseValue trySend recv m ctx h))
  ∧ (opM = StallableMDGetUnmergedForHandle → ∀ h,
     held_ cm (MDOps_GetUnmergedForHandle (mdelegate m) ctx h)
       (stallingMDOps.GetUnmergedForHandle baseValue trySend recv m ctx h))
  ∧ (opM = StallableMDGetForTLF → ∀ id,
     held_ cm (MDOps_GetForTLF (mdelegate m) ctx id)
       (stallingMDOps.GetForTLF baseValue trySend recv m ctx id))
  ∧ (opM = StallableMDGetLatestHandleForTLF → ∀ id,
     held_ cm (MDOps_GetLatestHandleForTLF (mdelegate m) ctx id)
       (stallingMDOps.GetLatestHandleForTLF baseValue trySend recv m ctx id))
  ∧ (opM = StallableMDGetUnmergedForTLF → ∀ id bid,
     held_ cm (MDOps_GetUnmergedForTLF (mdelegate m) ctx id bid)
       (stallingMDOps.GetUnmergedForTLF baseValue trySend recv m ctx id bid))
  ∧ (opM = StallableMDGetRange → ∀ id start stop,
     held_ cm (MDOps_GetRange (mdelegate m) ctx id start stop)
       (stallingMDOps.GetRange baseValue trySend recv m ctx id start stop))
  ∧ (opM = StallableMDGetUnmergedRange → ∀ id bid start stop,
     held_ cm (MDOps_GetUnmergedRange (mdelegate m) ctx id bid start stop)
       (stallingMDOps.GetUnmergedRange baseValue trySend recv m ctx id bid
          start stop))
  ∧ (opM = StallableMDPut → ∀ md,
     held_ cm (polled_ ctx (MDOps_Put (mdelegate m) ctx md) Some)
       (stallingMDOps.Put baseErr baseValue trySend recv m ctx md))
  ∧ (opM = StallableMDAfterPut → ∀ md,
     same_as
       (polled_ ctx (MDOps_Put (mdelegate m) ctx md) (afterStall_ cm))
       (stallingMDOps.Put baseErr baseValue trySend recv m ctx md))
  ∧ (opM = StallableMDPutUnmerged → ∀ md bid,
     held_ cm (polled_ ctx (MDOps_PutUnmerged (mdelegate m) ctx md bid) Some)
       (stallingMDOps.PutUnmerged baseErr baseValue trySend recv m ctx md
          bid)).
Proof.
  intros opB opM. subst opB opM.
  assert (HonB : ∀ op e, stallingBlockOps.stallOpName f = op →
    stallingBlockOps.maybeStall_ baseValue trySend recv f ctx op e
    = match afterStall_ cb e with Some e1 => Ret tt e1 | None => Blocked end).
  { intros op e <-. by apply maybeStall_on. }
  assert (HonM : ∀ op e, stallingMDOps.stallOpName m = op →
    stallingMDOps.maybeStall_ baseValue trySend recv m ctx op e
    = match afterStall_ cm e with Some e1 => Ret tt e1 | None => Blocked end).
  { intros op e <-. by apply maybeStall_on. }
  repeat apply conj; intros Hop; intros;
    try (apply bind_held; intros e0; by auto).
  - eapply held_same_as; [|apply polls_polled_plain].
    apply bind_held. intros e0. by apply HonB.
  - eapply held_same_as.
    + apply bind_held. intros e0. by apply HonM.
    + apply (polls_polled ctx _
               (stallingMDOps.maybeStall_ baseValue trySend recv m ctx
                  StallableMDAfterPut) Some).
      intros e0. apply maybeStall_off. left. by rewrite Hop.
  - intros e. unfold stallingMDOps.Put.
    unfold mbind at 1, M_bind at 1. unfold stallingMDOps.maybeStall_ at 1.
    rewrite maybeStall_off by (left; by rewrite Hop).
    apply (polls_polled ctx _ _ (afterStall_ cm)).
    intros e0. by apply HonM.
  - eapply held_same_as; [|apply polls_polled_plain].
    apply bind_held. intros e0. by apply HonM.
Qed.
End StallMore.

(** A [Get] stalled and never released blocks; a [Put] stalled after the
    delegate's put and released returns the delegate's nil. *)
Lemma stall_holds_until_unstall_witness :
  stallingBlockOps.stallMap Fixtures.stallGet
  !! context.Value Fixtures.noValue Fixtures.ctx0
       (stallingBlockOps.stallKey Fixtures.stallGet)
  = Some (mkStaller 1 2)
  ∧ stallingMDOps.stallMap Fixtures.stallAfterPut
    !! context.Value Fixtures.noValue Fixtures.ctx0
         (stallingMDOps.stallKey Fixtures.stallAfterPut)
    = Some (mkStaller 1 2)
  ∧ stallingBlockOps.Get (BlockOps0 := Fixtures.okBlockOps)
      Fixtures.noValue Fixtures.sendOk Fixtures.recvNever Fixtures.stallGet
      Fixtures.ctx0 0%nat Fixtures.ptrA (FileBlockPtr 1%nat) Fixtures.e0
    = Blocked
  ∧ stallingMDOps.Put (H := Fixtures.okMDOps) Fixtures.neverDone
      Fixtures.noValue Fixtures.sendOk Fixtures.recvOk
      Fixtures.stallAfterPut Fixtures.ctx0 0%nat Fixtures.e0
    = Ret None {| world := tt; trace := [EvStalled 1; EvUnstall 2] |}.
Proof.
  assert (HB : stallingBlockOps.stallMap Fixtures.stallGet
               !! context.Value Fixtures.noValue Fixtures.ctx0
                    (stallingBlockOps.stallKey Fixtures.stallGet)
               = Some (mkStaller 1 2)) by (vm_compute; reflexivity).
  assert (HM : stallingMDOps.stallMap Fixtures.stallAfterPut
               !! context.Value Fixtures.noValue Fixtures.ctx0
                    (stallingMDOps.stallKey Fixtures.stallAfterPut)
               = Some (mkStaller 1 2)) by (vm_compute; reflexivity).
  split; [exact HB|]. split; [exact HM|]. split.
  - exact (proj1 (stall_holds_until_unstall (BlockOps0 := Fixtures.okBlockOps)
                    (H := Fixtures.okMDOps) Fixtures.neverDone
                    Fixtures.noValue Fixtures.sendOk Fixtures.recvNever
                    Fixtures.stallGet Fixtures.stallAfterPut Fixtures.ctx0
                    _ _ HB HM)
             eq_refl 0%nat Fixtures.ptrA (FileBlockPtr 1%nat) Fixtures.e0).
  - exact (proj1 (proj2 (proj2 (proj2 (proj2 (proj2 (proj2 (proj2 (proj2
             (proj2 (proj2 (proj2 (proj2 (proj2
             (stall_holds_until_unstall (BlockOps0 := Fixtures.okBlockOps)
                (H := Fixtures.okMDOps) Fixtures.neverDone
                Fixtures.noValue Fixtures.sendOk Fixtures.recvOk
                Fixtures.stallGet Fixtures.stallAfterPut Fixtures.ctx0
                _ _ HB HM))))))))))))))
             eq_refl 0%nat Fixtures.e0).
Defined.

(** ** More on block assembly *)
Section AssembleMore.
Context {World : Type}.
Context {KeyMetadata TLFCryptKey BlockCryptKey EncryptedBlock Payload : Type}.
Variable hash : bytes → kbfsblock.ID.
Variable UnmaskBlockCryptKey : bytes → TLFCryptKey → BlockCryptKey.

Local Abbreviation assemble :=
  (@assembleBlock World KeyMetadata TLFCryptKey BlockCryptKey EncryptedBlock
     Payload hash UnmaskBlockCryptKey).

(** X6.  Once the buffer has passed [VerifyID], [assembleBlock] always
    returns, having asked for the key exactly once, and stops at the first
    stage that fails: it decodes only with a key, decrypts only what was
    decoded, and returns the failing stage's error as it is.  It returns
    nil exactly when the three stages succeed.  The world is changed by the
    key service only, and on an error the block is as the last stage that
    ran left it. *)
Theorem assembleBlock_stops_at_first_error ctx
    (keyGetter : @blockKeyGetter World KeyMetadata TLFCryptKey)
    (codec : @Codec EncryptedBlock)
    (crypto : @cryptoPure BlockCryptKey EncryptedBlock Payload)
    kmd blockPtr block buf half e
    (Hverified : VerifyID hash buf (ID blockPtr) = None) :
  let getKey := EvGetTLFCryptKeyForBlockDecryption ctx blockPtr in
  let answer :=
    keyGetter_GetTLFCryptKeyForBlockDecryption keyGetter ctx kmd blockPtr
      (world e) in
  let decoded := codec_Decode codec buf in
  let decrypted :=
    crypto_DecryptBlock crypto decoded.1
      (UnmaskBlockCryptKey half answer.1.1) block in
  ∃ r b' e',
    assemble ctx keyGetter codec crypto kmd blockPtr block buf half e
    = Ret (r, b') e'
    ∧ world e' = answer.2
    ∧ match answer.1.2, decoded.2, decrypted.2 with
      | Some kerr, _, _ =>
          r = Some kerr ∧ b' = block ∧ trace e' = trace e ++ [getKey]
      | None, Some derr, _ =>
          r = Some derr ∧ b' = block
          ∧ trace e' = trace e ++ [getKey; EvDecode buf]
      | None, None, Some cerr =>
          r = Some cerr ∧ b' = decrypted.1
          ∧ trace e' = trace e ++ [getKey; EvDecode buf; EvDecryptBlock]
      | None, None, None =>
          r = None
          ∧ trace e' = trace e ++ [getKey; EvDecode buf; EvDecryptBlock]
      end
    ∧ (r = None ↔
       answer.1.2 = None ∧ decoded.2 = None ∧ decrypted.2 = None).
Proof.
  intros getKey answer decoded decrypted.
  subst getKey answer decoded decrypted.
  unfold assembleBlock. rewrite Hverified.
  unfold mbind, M_bind, extern, emit.
  destruct (keyGetter_GetTLFCryptKeyForBlockDecryption _ _ _ _ _)
    as [[key [e1|]] w1]; cbn [world trace fst snd].
  { eexists _, _, _. split; [reflexivity|]. repeat split; try done.
    by intros (? & _). }
  destruct (codec_Decode codec buf) as [eb [e2|]]; cbn [world trace fst snd].
  { eexists _, _, _. split; [reflexivity|]. cbn [world trace].
    rewrite <- app_assoc. repeat split; try done. by intros (_ & ? & _). }
  destruct (crypto_DecryptBlock _ _ _ _) as [b1 [e3|]];
    cbn [world trace fst snd]; unfold mret, M_ret;
    (eexists _, _, _; split; [reflexivity|]); cbn [world trace];
    rewrite <- !app_assoc; repeat split; try done.
  by intros (_ & _ & ?).
Qed.
End AssembleMore.

(** With collaborators that accept everything, the three stages run. *)
Lemma assembleBlock_stops_at_first_error_witness :
  VerifyID Fixtures.stubHash [x01] (ID Fixtures.ptrA) = None
  ∧ ∃ r b' e',
      assembleBlock Fixtures.stubHash Fixtures.stubUnmask Fixtures.ctx0
        Fixtures.stubKeyGetter Fixtures.stubCodec Fixtures.stubCrypto tt
        Fixtures.ptrA (mkBlockObj 7 tt) [x01] [] Fixtures.e0
      = Ret (r, b') e'
      ∧ r = None.
Proof.
  split; [reflexivity|].
  destruct (assembleBlock_stops_at_first_error Fixtures.stubHash
              Fixtures.stubUnmask Fixtures.ctx0 Fixtures.stubKeyGetter
              Fixtures.stubCodec Fixtures.stubCrypto tt Fixtures.ptrA
              (mkBlockObj 7 tt) [x01] [] Fixtures.e0 eq_refl)
    as (r & b' & e' & Hrun & _ & _ & Hnil).
  exists r, b', e'. split; [exact Hrun|]. apply Hnil. by repeat split.
Defined.
